(** * Story Editor Format (SEF) analyzer: a shallow embedding of
      [SEFAnalyzer] (gui_sef_reader.py) and the properties of its pipeline.

    Python [str] values are lists of Unicode code points, [bytes] values are
    lists of octets, Python integers are [Z].  Offsets that only ever index a
    string from the left are [nat].  The diagnostics the analyzer prints are
    not part of the model. *)

From Stdlib Require Import Ascii String.
From Stdlib Require Import List ZArith NArith Lia Bool Sorted Permutation.
From Stdlib Require Import Numbers.DecimalString.
Import ListNotations.

Local Open Scope N_scope.

(** ** Text and bytes *)

Abbreviation char := N (only parsing).
Abbreviation str := (list N) (only parsing).
Abbreviation byte := N (only parsing).
Abbreviation bytes := (list N) (only parsing).

(** A source literal made of ASCII characters. *)
Definition lit (s : string) : str := map N_of_ascii (list_ascii_of_string s).

Definition TAB : char := 9.
Definition LF : char := 10.
Definition CR : char := 13.
Definition SPACE : char := 32.
Definition BACKSLASH : char := 92.
Definition LBRACE : char := 123.
Definition RBRACE : char := 125.

(** The date-unit characters U+5E74, U+6708 and U+65E5. *)
Definition NEN : char := 0x5E74.
Definition GATSU : char := 0x6708.
Definition NICHI : char := 0x65E5.

Definition len {A} (s : list A) : Z := Z.of_nat (length s).

Definition is_empty {A} (s : list A) : bool :=
  match s with [] => true | _ => false end.

(** ** The Python string operations the analyzer calls *)
Module Py.

(** [str.isspace] on one character (the interpreter's whitespace table);
    it is also the class [\s] of the [re] module on [str] patterns. *)
Definition isspace (c : char) : bool :=
  ((9 <=? c) && (c <=? 13)) || ((28 <=? c) && (c <=? 32))
  || (c =? 0x85) || (c =? 0xA0) || (c =? 0x1680)
  || ((0x2000 <=? c) && (c <=? 0x200A))
  || (c =? 0x2028) || (c =? 0x2029) || (c =? 0x202F) || (c =? 0x205F)
  || (c =? 0x3000).

(** The class [\d] of the [re] module on [str] patterns: the decimal digits
    of Unicode (general category Nd, Unicode 14), each range ten wide. *)
Definition decimal_starts : list N :=
  [ 0x30; 0x660; 0x6F0; 0x7C0; 0x966; 0x9E6; 0xA66; 0xAE6; 0xB66; 0xBE6;
    0xC66; 0xCE6; 0xD66; 0xDE6; 0xE50; 0xED0; 0xF20; 0x1040; 0x1090;
    0x17E0; 0x1810; 0x1946; 0x19D0; 0x1A80; 0x1A90; 0x1B50; 0x1BB0;
    0x1C40; 0x1C50; 0xA620; 0xA8D0; 0xA900; 0xA9D0; 0xA9F0; 0xAA50;
    0xABF0; 0xFF10; 0x104A0; 0x10D30; 0x11066; 0x110F0; 0x11136;
    0x111D0; 0x112F0; 0x11450; 0x114D0; 0x11650; 0x116C0; 0x11730;
    0x118E0; 0x11950; 0x11C50; 0x11D50; 0x11DA0; 0x16A60; 0x16AC0;
    0x16B50; 0x1D7CE; 0x1D7D8; 0x1D7E2; 0x1D7EC; 0x1D7F6; 0x1E140;
    0x1E2F0; 0x1E950; 0x1FBF0 ].

Definition isdecimal (c : char) : bool :=
  existsb (fun lo => (lo <=? c) && (c <? lo + 10)) decimal_starts.

Fixpoint startswith (s prefix : str) {struct prefix} : bool :=
  match prefix, s with
  | [], _ => true
  | p :: prefix', c :: s' => (c =? p) && startswith s' prefix'
  | _ :: _, [] => false
  end.

(** [find_from sub i s]: [s] is the text from offset [i] on; the offset of
    the first occurrence of [sub] at or after [i], or -1. *)
Fixpoint find_from (sub : str) (i : Z) (s : str) : Z :=
  if startswith s sub then i
  else match s with
       | [] => (-1)%Z
       | _ :: s' => find_from sub (i + 1)%Z s'
       end.

(** [text.find(sub, start)] for [0 <= start]. *)
Definition find (text sub : str) (start : Z) : Z :=
  find_from sub start (skipn (Z.to_nat start) text).

(** [text[:n]], [text[n:]] and [text[a:b]] for offsets counted from the
    left. *)
Definition slice_to (text : str) (n : nat) : str := firstn n text.
Definition slice_from (text : str) (n : nat) : str := skipn n text.
Definition slice (text : str) (a b : nat) : str := firstn (b - a) (skipn a text).

Fixpoint dropwhile (p : char -> bool) (s : str) : str :=
  match s with
  | c :: s' => if p c then dropwhile p s' else s
  | [] => []
  end.

(** [s.lstrip(chars)], [s.rstrip()] and [s.strip()]. *)
Definition lstrip_chars (chars : str) (s : str) : str :=
  dropwhile (fun c => existsb (N.eqb c) chars) s.
Definition lstrip (s : str) : str := dropwhile isspace s.
Definition rstrip (s : str) : str := rev (dropwhile isspace (rev s)).
Definition strip (s : str) : str := rstrip (lstrip s).

(** [s.split(sep)] for a one-character separator: never the empty list. *)
Fixpoint split (sep : char) (s : str) : list str :=
  match s with
  | [] => [[]]
  | c :: s' =>
      if c =? sep then [] :: split sep s'
      else match split sep s' with
           | line :: lines => (c :: line) :: lines
           | [] => [[c]]
           end
  end.

(** [s.replace(old, new)] for a non-empty [old]; [skip] counts the
    characters of a replaced occurrence still to be passed over. *)
Fixpoint replace_from (old new : str) (skip : nat) (s : str) : str :=
  match s with
  | [] => []
  | c :: s' =>
      match skip with
      | S k => replace_from old new k s'
      | O =>
          if startswith s old
          then new ++ replace_from old new (length old - 1) s'
          else c :: replace_from old new 0 s'
      end
  end.
Definition replace (s old new : str) : str := replace_from old new 0 s.

(** [sub in s]. *)
Definition contains (s sub : str) : bool := negb (find s sub 0 =? -1)%Z.

(** [a == b] on strings. *)
Definition str_eqb (a b : str) : bool :=
  if list_eq_dec N.eq_dec a b then true else false.

(** [sep.join(parts)]. *)
Fixpoint join (sep : str) (parts : list str) : str :=
  match parts with
  | [] => []
  | [p] => p
  | p :: rest => p ++ sep ++ join sep rest
  end.

(** [l.index(x)]: the first index of [x] in [l], [None] where it raises. *)
Fixpoint index_of (x : str) (l : list str) : option nat :=
  match l with
  | [] => None
  | y :: l' =>
      if str_eqb y x then Some O
      else match index_of x l' with
           | Some i => Some (S i)
           | None => None
           end
  end.

(** [sorted(l, key=key)]: the sort is stable, which determines its result;
    here by insertion from the right, an element going before the elements
    of the same key that followed it. *)
Fixpoint insert_by {A} (key : A -> Z) (x : A) (l : list A) : list A :=
  match l with
  | [] => [x]
  | y :: l' => if (key x <=? key y)%Z then x :: l else y :: insert_by key x l'
  end.
Definition sorted_by {A} (key : A -> Z) (l : list A) : list A :=
  fold_right (insert_by key) [] l.

(** The value of a decimal digit of Unicode: its rank in its range. *)
Definition decimal_value (c : char) : N :=
  match List.find (fun lo => (lo <=? c) && (c <? lo + 10)) decimal_starts with
  | Some lo => c - lo
  | None => 0
  end.

(** [int(s)] for a string of decimal digits; [None] where it raises
    ValueError: the interpreter refuses more than 4300 digits. *)
Definition INT_MAX_STR_DIGITS : nat := 4300.
Definition int10 (s : str) : option Z :=
  if (INT_MAX_STR_DIGITS <? length s)%nat then None
  else Some (Z.of_N (fold_left (fun v c => 10 * v + decimal_value c) s 0)).

End Py.

(** ** The subset of Python's [re] the analyzer's patterns use

    A backtracking matcher in continuation-passing style: alternatives are
    tried in the order the [re] module tries them (a greedy repetition first
    takes one more iteration, then gives it back).  A position in the subject
    is the pair of the reversed text before it and the text after it, so
    that look-behind assertions see the whole subject. *)
Module Re.

Inductive regex : Type :=
| Eps : regex
| Chr : (char -> bool) -> regex          (* one character of a class *)
| Seq : regex -> regex -> regex
| Star : regex -> regex                  (* greedy [r*] *)
| NotAhead : regex -> regex              (* [(?!r)] *)
| NotBehind : nat -> regex -> regex      (* [(?<!r)], [r] of fixed width *)
| Bol : regex                            (* [^] under re.MULTILINE *)
| Eol : regex.                           (* [$] under re.MULTILINE *)

Definition Plus (r : regex) : regex := Seq r (Star r).

Definition one (c : char) : regex := Chr (N.eqb c).
Definition oneof (cs : str) : regex := Chr (fun c => existsb (N.eqb c) cs).
Definition noneof (cs : str) : regex := Chr (fun c => negb (existsb (N.eqb c) cs)).

(** A literal string. *)
Fixpoint Lit (s : str) : regex :=
  match s with
  | [] => Eps
  | c :: s' => Seq (one c) (Lit s')
  end.

Definition position : Type := str * str.
Definition cont : Type := str -> str -> option position.

(** The iterations of a greedy starred pattern, [body] matching one
    iteration: take one more iteration and go on, or else continue with
    [k].  An iteration has to consume a character (in the analyzer's
    patterns every starred pattern does), so the length of the text bounds
    the iterations. *)
Fixpoint star_iter (body : cont -> cont) (k : cont) (fuel : nat)
         (pre suf : str) {struct fuel} : option position :=
  match fuel with
  | O => k pre suf
  | S fuel' =>
      match body (fun pre' suf' =>
                    if (length suf' <? length suf)%nat
                    then star_iter body k fuel' pre' suf' else None)
                 pre suf with
      | Some z => Some z
      | None => k pre suf
      end
  end.

(** [m r k pre suf]: match [r] at the position [(pre, suf)] and continue
    with [k]; [None] when every alternative fails. *)
Fixpoint m (r : regex) (k : cont) (pre suf : str) {struct r} : option position :=
  match r with
  | Eps => k pre suf
  | Chr p =>
      match suf with
      | c :: suf' => if p c then k (c :: pre) suf' else None
      | [] => None
      end
  | Seq r1 r2 => m r1 (m r2 k) pre suf
  | Star r1 => star_iter (m r1) k (S (length suf)) pre suf
  | NotAhead r1 =>
      match m r1 (fun p s => Some (p, s)) pre suf with
      | Some _ => None
      | None => k pre suf
      end
  | NotBehind w r1 =>
      if (length pre <? w)%nat then k pre suf
      else
        match m r1 (fun p s => if (length s =? length suf)%nat
                               then Some (p, s) else None)
                (skipn w pre) (rev (firstn w pre) ++ suf) with
        | Some _ => None
        | None => k pre suf
        end
  | Bol =>
      match pre with
      | [] => k pre suf
      | c :: _ => if c =? LF then k pre suf else None
      end
  | Eol =>
      match suf with
      | [] => k pre suf
      | c :: _ => if c =? LF then k pre suf else None
      end
  end.

(** One found match: the text skipped before it, the matched text, and
    the position after it. *)
Record found := { skipped : str; matched : str; after : position }.

(** The leftmost match at or after the position; with [must_advance] an
    empty match at the first position tried is refused. *)
Fixpoint search (r : regex) (must_advance : bool) (skipped_rev pre suf : str)
  : option found :=
  let k := fun pre' suf' =>
             if must_advance && (length suf' =? length suf)%nat
             then None else Some (pre', suf') in
  match m r k pre suf with
  | Some (pre', suf') =>
      Some {| skipped := rev skipped_rev;
              matched := firstn (length suf - length suf') suf;
              after := (pre', suf') |}
  | None =>
      match suf with
      | [] => None
      | c :: suf1 => search r false (c :: skipped_rev) (c :: pre) suf1
      end
  end.

(** The loop of [re.sub]: after an empty match the next one has to
    advance.  Each round either moves forward or switches [must_advance]
    on, so twice the length of the text bounds the rounds. *)
Fixpoint sub_loop (fuel : nat) (r : regex) (repl : str -> str)
         (must_advance : bool) (pre suf : str) : str :=
  match fuel with
  | O => suf
  | S fuel' =>
      match search r must_advance [] pre suf with
      | None => suf
      | Some f =>
          skipped f ++ repl (matched f)
            ++ sub_loop fuel' r repl (is_empty (matched f))
                 (fst (after f)) (snd (after f))
      end
  end.

(** [re.sub(pattern, repl, text)] with a function [repl] of the matched
    text, and with a replacement string free of escapes. *)
Definition sub_with (r : regex) (repl : str -> str) (text : str) : str :=
  sub_loop (2 * length text + 2) r repl false [] text.
Definition sub (r : regex) (repl : str) (text : str) : str :=
  sub_with r (fun _ => repl) text.

(** [re.findall] for a pattern whose matches are never empty. *)
Fixpoint findall_loop (fuel : nat) (r : regex) (pre suf : str) : list str :=
  match fuel with
  | O => []
  | S fuel' =>
      match search r false [] pre suf with
      | None => []
      | Some f =>
          matched f :: findall_loop fuel' r (fst (after f)) (snd (after f))
      end
  end.
Definition findall (r : regex) (text : str) : list str :=
  findall_loop (S (length text)) r [] text.

(** Character classes of the patterns. *)
Definition in_range (lo hi : char) (c : char) : bool := (lo <=? c) && (c <=? hi).
Definition alpha (c : char) : bool := in_range 97 122 c || in_range 65 90 c.
Definition digit09 (c : char) : bool := in_range 48 57 c.
Definition hexdigit (c : char) : bool :=
  digit09 c || in_range 97 102 c || in_range 65 70 c.

(** The loop of [re.finditer], giving [match.start()] of each match: [pos]
    is the offset of the position searched from. *)
Fixpoint finditer_loop (fuel : nat) (r : regex) (must_advance : bool)
         (pos : Z) (pre suf : str) : list Z :=
  match fuel with
  | O => []
  | S fuel' =>
      match search r must_advance [] pre suf with
      | None => []
      | Some f =>
          let start := (pos + len (skipped f))%Z in
          start :: finditer_loop fuel' r (is_empty (matched f))
                     (start + len (matched f))%Z
                     (fst (after f)) (snd (after f))
      end
  end.
Definition finditer_starts (r : regex) (text : str) : list Z :=
  finditer_loop (2 * length text + 2) r false 0%Z [] text.

End Re.

(** ** A zlib decoder (RFC 1950 and RFC 1951)

    [zlib.decompress] as the analyzer calls it (default window, zlib
    wrapper): [None] where the library raises [zlib.error].  It gives the
    runtime instance on which concrete buffers are evaluated. *)
Module Zlib.

Notation "' p <- e ;; k" :=
  (match e with Some p => k | None => None end)
    (at level 60, p pattern, e at next level, right associativity).

(** The input as a bit stream: the unread bytes and the index of the next
    bit of the first of them (bits are read from the least significant). *)
Record stream : Type := { s_bytes : bytes; s_bit : N }.

Definition read_bit (s : stream) : option (N * stream) :=
  match s_bytes s with
  | [] => None
  | b :: rest =>
      let v := if N.testbit b (s_bit s) then 1 else 0 in
      if s_bit s =? 7 then Some (v, {| s_bytes := rest; s_bit := 0 |})
      else Some (v, {| s_bytes := s_bytes s; s_bit := s_bit s + 1 |})
  end.

(** An [n]-bit integer, least significant bit first. *)
Fixpoint read_bits (n : nat) (s : stream) : option (N * stream) :=
  match n with
  | O => Some (0, s)
  | S n' =>
      '(b, s) <- read_bit s;;
      '(v, s) <- read_bits n' s;;
      Some (b + 2 * v, s)
  end.

(** Skip to the next byte boundary. *)
Definition align (s : stream) : bytes :=
  if s_bit s =? 0 then s_bytes s else tl (s_bytes s).

(** A canonical Huffman code: the number of codes of each length 0..15,
    and the symbols ordered by code. *)
Record huffman : Type := { h_count : list Z; h_symbol : list N }.

Definition MAXBITS : nat := 15.

Definition count_of (lengths : list N) (l : nat) : Z :=
  Z.of_nat (length (filter (N.eqb (N.of_nat l)) lengths)).

Definition symbols_of (lengths : list N) (l : nat) : list N :=
  map (fun p => N.of_nat (fst p))
      (filter (fun p => snd p =? N.of_nat l)
              (combine (seq 0 (length lengths)) lengths)).

Definition construct (lengths : list N) : huffman :=
  {| h_count := map (count_of lengths) (seq 0 (S MAXBITS));
     h_symbol := flat_map (symbols_of lengths) (seq 1 MAXBITS) |}.

(** The codes left unused: 0 for a complete code (or one without
    symbols), negative for an over-subscribed one, positive for an
    incomplete one. *)
Definition left_over (h : huffman) : Z :=
  if is_empty (h_symbol h) then 0%Z
  else
    fold_left (fun left l =>
                 if (left <? 0)%Z then left
                 else (2 * left - nth l (h_count h) 0)%Z)
              (seq 1 MAXBITS) 1%Z.

(** Decode one symbol, a bit at a time. *)
Fixpoint decode_from (h : huffman) (lens : list nat) (code first index : Z)
         (s : stream) : option (N * stream) :=
  match lens with
  | [] => None
  | l :: lens' =>
      '(b, s) <- read_bit s;;
      let code := (code + Z.of_N b)%Z in
      let count := nth l (h_count h) 0%Z in
      if (code - count <? first)%Z then
        '(sym) <- nth_error (h_symbol h) (Z.to_nat (index + (code - first)));;
        Some (sym, s)
      else
        decode_from h lens' (2 * (code))%Z (2 * (first + count))%Z
                    (index + count)%Z s
  end.

Definition decode (h : huffman) (s : stream) : option (N * stream) :=
  decode_from h (seq 1 MAXBITS) 0%Z 0%Z 0%Z s.

Definition LENS : list N :=
  [3; 4; 5; 6; 7; 8; 9; 10; 11; 13; 15; 17; 19; 23; 27; 31; 35; 43; 51; 59;
   67; 83; 99; 115; 131; 163; 195; 227; 258].
Definition LEXT : list nat :=
  [0; 0; 0; 0; 0; 0; 0; 0; 1; 1; 1; 1; 2; 2; 2; 2; 3; 3; 3; 3; 4; 4; 4; 4;
   5; 5; 5; 5; 0]%nat.
Definition DISTS : list N :=
  [1; 2; 3; 4; 5; 7; 9; 13; 17; 25; 33; 49; 65; 97; 129; 193; 257; 385; 513;
   769; 1025; 1537; 2049; 3073; 4097; 6145; 8193; 12289; 16385; 24577].
Definition DEXT : list nat :=
  [0; 0; 0; 0; 1; 1; 2; 2; 3; 3; 4; 4; 5; 5; 6; 6; 7; 7; 8; 8; 9; 9; 10; 10;
   11; 11; 12; 12; 13; 13]%nat.

(** Copy [n] bytes from [dist] back in the output (held reversed). *)
Fixpoint copy_back (n : nat) (dist : nat) (out_rev : bytes) : bytes :=
  match n with
  | O => out_rev
  | S n' => copy_back n' dist (nth (dist - 1) out_rev 0 :: out_rev)
  end.

(** The literal/length and distance symbols of one compressed block. *)
Fixpoint codes (fuel : nat) (lencode distcode : huffman) (s : stream)
         (out_rev : bytes) : option (stream * bytes) :=
  match fuel with
  | O => None
  | S fuel' =>
      '(symbol, s) <- decode lencode s;;
      if symbol <? 256 then codes fuel' lencode distcode s (symbol :: out_rev)
      else if symbol =? 256 then Some (s, out_rev)
      else
        let i := N.to_nat (symbol - 257) in
        '(base) <- nth_error LENS i;;
        '(extra) <- nth_error LEXT i;;
        '(more, s) <- read_bits extra s;;
        '(dsym, s) <- decode distcode s;;
        '(dbase) <- nth_error DISTS (N.to_nat dsym);;
        '(dextra) <- nth_error DEXT (N.to_nat dsym);;
        '(dmore, s) <- read_bits dextra s;;
        let dist := N.to_nat (dbase + dmore) in
        if (length out_rev <? dist)%nat then None
        else codes fuel' lencode distcode s
                   (copy_back (N.to_nat (base + more)) dist out_rev)
  end.

Definition bit_count (s : stream) : nat := 8 * length (s_bytes s).

(** A stored block: LEN, its complement, and LEN bytes. *)
Definition stored (s : stream) (out_rev : bytes) : option (stream * bytes) :=
  match align s with
  | l0 :: l1 :: n0 :: n1 :: data =>
      let n := N.to_nat (l0 + 256 * l1) in
      if negb (l0 + 256 * l1 + (n0 + 256 * n1) =? 0xFFFF) then None
      else if (length data <? n)%nat then None
      else Some ({| s_bytes := skipn n data; s_bit := 0 |},
                 rev (firstn n data) ++ out_rev)
  | _ => None
  end.

Definition FIXED_LENCODE : huffman :=
  construct (repeat 8 144 ++ repeat 9 112 ++ repeat 7 24 ++ repeat 8 8).
Definition FIXED_DISTCODE : huffman := construct (repeat 5 30).

Definition ORDER : list nat :=
  [16; 17; 18; 0; 8; 7; 9; 6; 10; 5; 11; 4; 12; 3; 13; 2; 14; 1; 15]%nat.

Fixpoint read_code_lengths (n : nat) (s : stream) : option (list N * stream) :=
  match n with
  | O => Some ([], s)
  | S n' =>
      '(v, s) <- read_bits 3 s;;
      '(vs, s) <- read_code_lengths n' s;;
      Some (v :: vs, s)
  end.

(** The code length of code-length symbol [sym], read in the order
    [ORDER]. *)
Definition code_length_of (read : list N) (sym : nat) : N :=
  match find (fun p => Nat.eqb (fst p) sym) (combine ORDER read) with
  | Some p => snd p
  | None => 0
  end.

(** The run-length coded code lengths of a dynamic block ([total] of
    them), held reversed. *)
Fixpoint read_lengths (fuel : nat) (lencode : huffman) (total : nat)
         (lengths_rev : list N) (s : stream) : option (list N * stream) :=
  if (total <=? length lengths_rev)%nat then Some (rev lengths_rev, s)
  else
    match fuel with
    | O => None
    | S fuel' =>
        '(symbol, s) <- decode lencode s;;
        if symbol <? 16
        then read_lengths fuel' lencode total (symbol :: lengths_rev) s
        else
          '(prev, bits, base) <-
            (if symbol =? 16 then
               match lengths_rev with
               | [] => None
               | l :: _ => Some (l, 2%nat, 3)
               end
             else if symbol =? 17 then Some (0, 3%nat, 3)
             else Some (0, 7%nat, 11));;
          '(more, s) <- read_bits bits s;;
          let times := N.to_nat (base + more) in
          if (total <? length lengths_rev + times)%nat then None
          else read_lengths fuel' lencode total
                            (repeat prev times ++ lengths_rev) s
    end.

(** A code that is complete, or has a single code of one bit. *)
Definition usable (h : huffman) (n : nat) : bool :=
  let left := left_over h in
  (left =? 0)%Z
  || ((0 <? left)%Z
      && (Z.of_nat n =? nth 0 (h_count h) 0 + nth 1 (h_count h) 0)%Z).

Definition dynamic (s : stream) (out_rev : bytes) : option (stream * bytes) :=
  '(hlit, s) <- read_bits 5 s;;
  '(hdist, s) <- read_bits 5 s;;
  '(hclen, s) <- read_bits 4 s;;
  let nlen := N.to_nat (hlit + 257) in
  let ndist := N.to_nat (hdist + 1) in
  let ncode := N.to_nat (hclen + 4) in
  if (286 <? nlen)%nat || (30 <? ndist)%nat then None
  else
    '(read, s) <- read_code_lengths ncode s;;
    let clcode := construct (map (code_length_of read) (seq 0 19)) in
    if negb (left_over clcode =? 0)%Z then None
    else
      '(lengths, s) <- read_lengths (S (nlen + ndist)) clcode (nlen + ndist) [] s;;
      if nth 256 lengths 0 =? 0 then None
      else
        let lencode := construct (firstn nlen lengths) in
        let distcode := construct (skipn nlen lengths) in
        if negb (usable lencode nlen) || negb (usable distcode ndist) then None
        else codes (S (bit_count s)) lencode distcode s out_rev.

(** The blocks of a deflate stream, up to the one marked final. *)
Fixpoint blocks (fuel : nat) (s : stream) (out_rev : bytes)
  : option (stream * bytes) :=
  match fuel with
  | O => None
  | S fuel' =>
      '(final, s) <- read_bit s;;
      '(type, s) <- read_bits 2 s;;
      '(s, out_rev) <-
        (if type =? 0 then stored s out_rev
         else if type =? 1
              then codes (S (bit_count s)) FIXED_LENCODE FIXED_DISTCODE s out_rev
         else if type =? 2 then dynamic s out_rev
         else None);;
      if final =? 1 then Some (s, out_rev) else blocks fuel' s out_rev
  end.

Definition inflate (data : bytes) : option (stream * bytes) :=
  let s := {| s_bytes := data; s_bit := 0 |} in
  '(s, out_rev) <- blocks (S (bit_count s)) s [];;
  Some (s, rev out_rev).

Definition adler32 (data : bytes) : N :=
  let (a, b) := fold_left (fun (ab : N * N) x =>
                             let a := (fst ab + x) mod 65521 in
                             (a, (snd ab + a) mod 65521))
                          data (1, 0) in
  b * 65536 + a.

(** The zlib wrapper: the two header bytes, the deflate stream and the
    big-endian Adler-32 of the output; what follows is ignored. *)
Definition decompress (data : bytes) : option bytes :=
  match data with
  | cmf :: flg :: body =>
      if negb ((cmf * 256 + flg) mod 31 =? 0) then None
      else if negb (N.land cmf 0x0F =? 8) then None
      else if 7 <? N.shiftr cmf 4 then None
      else if N.testbit flg 5 then None
      else
        '(s, out) <- inflate body;;
        match align s with
        | c3 :: c2 :: c1 :: c0 :: _ =>
            if ((c3 * 256 + c2) * 256 + c1) * 256 + c0 =? adler32 out
            then Some out else None
        | _ => None
        end
  | _ => None
  end.

End Zlib.

(** ** The services of the Python runtime the analyzer calls

    [zlib.decompress] and the Shift-JIS codec are not part of the
    repository: the analyzer is modelled over any implementation of them.
    [zlib_decompress] is [None] where [zlib.decompress] raises;
    [shift_jis_decode] is [bytes.decode('shift-jis', errors='ignore')], of
    which only the ASCII range is fixed here (the double-byte table is the
    codec's). *)
Class PyRuntime : Type := {
  zlib_decompress : bytes -> option bytes;
  shift_jis_decode : bytes -> str;
  shift_jis_ascii : forall b : byte, b < 0x80 -> shift_jis_decode [b] = [b]
}.

(** ** The analyzer *)
Module SEFAnalyzer.

Import Re.

(** The opening token of an RTF document. *)
Definition RTF_TOKEN : str := lit "{\rtf".

(** *** Data model *)

(** An entry of the outline: the dict with keys 'title' and 'level'. *)
Record hierarchy_item : Type := {
  h_title : str;
  h_level : Z
}.

(** A chapter dict.  The keys 'level' and 'rtf_index' are absent from the
    dicts of some paths: [None] is an absent key. *)
Record chapter : Type := {
  title : str;
  content : str;
  level : option Z;
  start_pos : Z;
  end_pos : Z;
  size : Z;
  rtf_index : option Z
}.

(** An extracted RTF document (an entry of [rtf_documents]). *)
Record rtf_document : Type := {
  d_rtf_index : Z;
  d_start_pos : Z;
  d_end_pos : Z;
  d_rtf_content : str;
  d_plain_content : str;
  d_size : Z
}.

(** What [analyze_file] reports on success. *)
Record analysis : Type := {
  a_chapters : list chapter;
  a_hierarchy : list hierarchy_item;
  a_file_size : Z
}.

(** The exceptions raised inside [analyze_file]; its handler turns each
    into the failure dict carrying the exception's message. *)
Inductive failure : Type :=
| TooSmall                     (* ValueError: file too small *)
| BadMagic (magic : N)         (* ValueError: invalid magic number *)
| PayloadNotFound              (* ValueError: ZLIB data not found *)
| DecompressionFailure         (* zlib.error *)
| ZeroDivisionError.           (* raised by the equal split of no items *)

Inductive result (A : Type) : Type :=
| Ok (value : A)
| Raised (e : failure).
Arguments Ok {A} value.
Arguments Raised {A} e.

(** *** [_find_zlib_start]: the first adjacent pair 0x78, 0x01 *)

(** [i] is the offset of the head of [data] in the buffer; the loop
    [for i in range(len(data) - 1)] looks at the pairs of neighbours. *)
Fixpoint find_zlib_from (i : Z) (data : bytes) : Z :=
  match data with
  | b0 :: ((b1 :: _) as rest) =>
      if (b0 =? 0x78) && (b1 =? 0x01) then i
      else find_zlib_from (i + 1)%Z rest
  | _ => (-1)%Z
  end.

Definition _find_zlib_start (data : bytes) : Z := find_zlib_from 0%Z data.

(** *** [_split_plain_rtf] *)

Definition _split_plain_rtf (text : str) : str * str :=
  let rtf_start := Py.find text RTF_TOKEN 0%Z in
  if (rtf_start =? -1)%Z then (text, [])
  else
    let plain_part := Py.slice_to text (Z.to_nat rtf_start) in
    let rtf_part := Py.slice_from text (Z.to_nat rtf_start) in
    (plain_part, rtf_part).

(** *** [_parse_hierarchy] *)

(** The loop over the characters of a line: a tab adds a level, every
    fourth space counted so far adds a level, anything else ends the
    scan. *)
Fixpoint scan_indent (line : str) (level space_count : Z) : Z :=
  match line with
  | [] => level
  | c :: rest =>
      if c =? TAB then scan_indent rest (level + 1)%Z space_count
      else if c =? SPACE then
        let space_count := (space_count + 1)%Z in
        if (space_count mod 4 =? 0)%Z
        then scan_indent rest (level + 1)%Z space_count
        else scan_indent rest level space_count
      else level
  end.

(** The body of the loop over the lines, [hierarchy] being the list built
    so far. *)
Definition parse_line (hierarchy : list hierarchy_item) (line : str)
  : list hierarchy_item :=
  let line := Py.rstrip line in
  if is_empty line then hierarchy
  else
    let level := scan_indent line 0%Z 0%Z in
    let clean_line := Py.lstrip_chars [TAB; SPACE] line in
    if negb (is_empty clean_line)
    then hierarchy ++ [{| h_title := clean_line; h_level := level |}]
    else hierarchy.

Definition _parse_hierarchy (plain_part : str) : list hierarchy_item :=
  let lines := Py.split LF plain_part in
  fold_left parse_line lines [].

(** *** [_extract_complete_rtf] *)

(** The while loop: [rest] is [rtf_data[pos:]]. *)
Fixpoint scan_braces (rtf_data : str) (start_pos : nat) (rest : str)
         (pos : nat) (brace_count : Z) : str :=
  match rest with
  | [] => Py.slice_from rtf_data start_pos
  | c :: rest' =>
      if c =? LBRACE then
        scan_braces rtf_data start_pos rest' (pos + 1) (brace_count + 1)%Z
      else if c =? RBRACE then
        let brace_count := (brace_count - 1)%Z in
        if (brace_count =? 0)%Z then Py.slice rtf_data start_pos (pos + 1)
        else scan_braces rtf_data start_pos rest' (pos + 1) brace_count
      else scan_braces rtf_data start_pos rest' (pos + 1) brace_count
  end.

Definition _extract_complete_rtf (rtf_data : str) (start_pos : nat) : str :=
  if (length rtf_data <=? start_pos)%nat then []
  else if negb (Py.startswith (Py.slice_from rtf_data start_pos) RTF_TOKEN) then []
  else scan_braces rtf_data start_pos (Py.slice_from rtf_data start_pos)
         start_pos 0%Z.

(** The loop that collects the offsets of the token: each round searches
    from one past the previous hit, so the rounds are at most one more
    than the length of the text. *)
Fixpoint rtf_starts_loop (fuel : nat) (rtf_data : str) (pos : Z) : list Z :=
  match fuel with
  | O => []
  | S fuel' =>
      let rtf_pos := Py.find rtf_data RTF_TOKEN pos in
      if (rtf_pos =? -1)%Z then []
      else rtf_pos :: rtf_starts_loop fuel' rtf_data (rtf_pos + 1)%Z
  end.

Definition rtf_starts (rtf_data : str) : list Z :=
  rtf_starts_loop (S (length rtf_data)) rtf_data 0%Z.

(** [enumerate]. *)
Definition enumerate {A} (l : list A) : list (nat * A) :=
  combine (seq 0 (length l)) l.

(** The fixed texts: the title of the single chapter of a file without
    outline, and the content of a chapter without document. *)
Definition MAIN_TEXT_TITLE : str :=
  [0x30E1; 0x30A4; 0x30F3; 0x30C6; 0x30AD; 0x30B9; 0x30C8].
Definition NO_CONTENT : str :=
  [0xFF08; 0x5BFE; 0x5FDC; 0x3059; 0x308B; 0x30B3; 0x30F3; 0x30C6; 0x30F3;
   0x30C4; 0x304C; 0x3042; 0x308A; 0x307E; 0x305B; 0x3093; 0xFF09].
(** The generated title of the equal split: U+7AE0 and a number. *)
Definition generated_title (n : nat) : str :=
  0x7AE0 :: lit (NilZero.string_of_uint (Nat.to_uint n)).

(** *** [_rtf_to_plain_text] *)

Definition cat (rs : list regex) : regex := fold_right Seq Eps rs.

Definition SQUOTE : char := 39.
Definition SEMICOLON : char := 59.

(** The pattern "\\'[0-9a-fA-F]{2}". *)
Definition HEX_ESCAPE : regex :=
  cat [one BACKSLASH; one SQUOTE; Chr hexdigit; Chr hexdigit].
(** The pattern "(?:\\'[0-9a-fA-F]{2})+". *)
Definition HEX_RUN : regex := Plus HEX_ESCAPE.

Definition not_brace : regex := noneof [LBRACE; RBRACE].

(** The pattern "\{\\TAG" N "(?:\{" N "\}" N ")*\}", where N is "[^{}]*", for TAG
    fonttbl or colortbl. *)
Definition TABLE_BLOCK (tag : string) : regex :=
  cat [one LBRACE; one BACKSLASH; Lit (lit tag); Star not_brace;
       Star (cat [one LBRACE; Star not_brace; one RBRACE; Star not_brace]);
       one RBRACE].

(** The pattern "\\[a-zA-Z]+\d+". *)
Definition NUMBERED_WORD : regex :=
  cat [one BACKSLASH; Plus (Chr alpha); Plus (Chr Py.isdecimal)].
(** The pattern "\\[a-zA-Z]+\d+(?:\s+\\[a-zA-Z]+\d+)*". *)
Definition NUMBERED_WORDS : regex :=
  cat [NUMBERED_WORD; Star (cat [Plus (Chr Py.isspace); NUMBERED_WORD])].
(** The pattern "\\[a-zA-Z]+". *)
Definition CONTROL_WORD : regex := cat [one BACKSLASH; Plus (Chr alpha)].
(** The pattern "\\[^a-zA-Z]". *)
Definition OTHER_ESCAPE : regex :=
  cat [one BACKSLASH; Chr (fun c => negb (alpha c))].
(** The pattern "[{}]". *)
Definition BRACE : regex := oneof [LBRACE; RBRACE].
(** The pattern ";+". *)
Definition SEMICOLONS : regex := Plus (one SEMICOLON).

Definition date_unit : regex := oneof [NEN; GATSU; NICHI].

(** The pattern "(?<!__DATE_PATTERN_)(?<![年月日])[0-9]+(?![年月日])(?!__)(?:\s+[0-9]+)*\s*". *)
Definition LAYOUT_NUMBERS : regex :=
  cat [NotBehind 15 (Lit (lit "__DATE_PATTERN_"));
       NotBehind 1 date_unit;
       Plus (Chr digit09);
       NotAhead date_unit;
       NotAhead (Lit (lit "__"));
       Star (cat [Plus (Chr Py.isspace); Plus (Chr digit09)]);
       Star (Chr Py.isspace)].

(** The patterns "[ \t]+", "^\s+" and "\s+$" (both under re.MULTILINE)
    and "\n\s*\n\s*\n+". *)
Definition BLANKS : regex := Plus (oneof [SPACE; TAB]).
Definition LINE_HEAD_SPACE : regex := cat [Bol; Plus (Chr Py.isspace)].
Definition LINE_TAIL_SPACE : regex := cat [Plus (Chr Py.isspace); Eol].
Definition BLANK_LINES : regex :=
  cat [one LF; Star (Chr Py.isspace); one LF; Star (Chr Py.isspace);
       Plus (one LF)].

(** [int(h, 16)] for a string of hexadecimal digits. *)
Definition hex_value (c : char) : N :=
  if digit09 c then c - 48
  else if in_range 97 102 c then c - 87
  else c - 55.
Definition int16 (h : str) : N := fold_left (fun v c => 16 * v + hex_value c) h 0.

Section WithRuntime.
Context {rt : PyRuntime}.

(** The callback of step 1: the byte run of a sequence of hex escapes,
    decoded as Shift-JIS.  With errors='ignore' the decoder does not
    raise, so the callback's handler is never entered. *)
Definition decode_sjis_hex_sequence (hex_sequence : str) : str :=
  let hex_pairs := map (fun e => skipn 2 e) (findall HEX_ESCAPE hex_sequence) in
  let byte_array := map int16 hex_pairs in
  shift_jis_decode byte_array.

(** Step 8 of the conversion (source comment 5, second substitution). *)
Definition strip_layout_numbers (text : str) : str :=
  sub LAYOUT_NUMBERS [SPACE] text.

Definition _rtf_to_plain_text (rtf_content : str) : str :=
  if is_empty rtf_content then []
  else
    let text := rtf_content in
    let text := sub_with HEX_RUN decode_sjis_hex_sequence text in
    let text := sub (TABLE_BLOCK "fonttbl") [] text in
    let text := sub (TABLE_BLOCK "colortbl") [] text in
    let text := sub NUMBERED_WORDS [SPACE] text in
    let text := sub CONTROL_WORD [SPACE] text in
    let text := sub OTHER_ESCAPE [] text in
    let text := sub BRACE [] text in
    let text := sub SEMICOLONS [SPACE] text in
    let text := strip_layout_numbers text in
    let text := Py.replace text [CR; LF] [LF] in
    let text := Py.replace text [CR] [LF] in
    let text := sub BLANKS [SPACE] text in
    let text := sub LINE_HEAD_SPACE [] text in
    let text := sub LINE_TAIL_SPACE [] text in
    let text := sub BLANK_LINES [LF; LF] text in
    Py.strip text.


(** *** [_decode_text]

    With errors='ignore' the inner decoding does not raise, so neither
    handler of the source is entered. *)
Fixpoint _decode_text (data : bytes) : str :=
  match data with
  | [] => []
  | b :: rest =>
      if b =? 0 then _decode_text rest
      else
        match rest with
        | b' :: rest' =>
            if 0x81 <=? b
            then shift_jis_decode [b; b'] ++ _decode_text rest'
            else shift_jis_decode [b] ++ _decode_text rest
        | [] => shift_jis_decode [b]
        end
  end.

(** *** [_fallback_equal_split] *)

Definition equal_split_chapter (rtf_data : str)
           (chapter_items : list hierarchy_item)
           (rtf_len chapter_count rtf_chunk_size : Z) (i : nat) : chapter :=
  let rtf_start := (Z.of_nat i * rtf_chunk_size)%Z in
  let rtf_end := if (Z.of_nat i <? chapter_count - 1)%Z
                 then ((Z.of_nat i + 1) * rtf_chunk_size)%Z else rtf_len in
  let rtf_chunk := Py.slice rtf_data (Z.to_nat rtf_start) (Z.to_nat rtf_end) in
  let content := _rtf_to_plain_text rtf_chunk in
  let title := match nth_error chapter_items i with
               | Some item => h_title item
               | None => generated_title (i + 1)
               end in
  {| title := title; content := content; level := None;
     start_pos := rtf_start; end_pos := rtf_end; size := len content;
     rtf_index := None |}.

Definition _fallback_equal_split (rtf_data plain_text : str)
           (chapter_items : list hierarchy_item) : result (list chapter) :=
  let rtf_len := len rtf_data in
  let chapter_count := len chapter_items in
  if (chapter_count =? 0)%Z then Raised ZeroDivisionError
  else
    let rtf_chunk_size := (rtf_len / chapter_count)%Z in
    Ok (map (equal_split_chapter rtf_data chapter_items
               rtf_len chapter_count rtf_chunk_size)
            (seq 0 (length chapter_items))).

(** *** [_complete_hierarchy_split_chapters] *)

(** The documents: one per recorded start, extracted by brace balance
    and converted. *)
Definition extract_document (rtf_data : str) (entry : nat * Z) : rtf_document :=
  let (i, start_pos) := entry in
  let rtf_content := _extract_complete_rtf rtf_data (Z.to_nat start_pos) in
  let end_pos := (start_pos + len rtf_content)%Z in
  let plain_content := _rtf_to_plain_text rtf_content in
  {| d_rtf_index := Z.of_nat i; d_start_pos := start_pos;
     d_end_pos := end_pos; d_rtf_content := rtf_content;
     d_plain_content := plain_content; d_size := len plain_content |}.

Definition rtf_documents (rtf_data : str) : list rtf_document :=
  map (extract_document rtf_data) (enumerate (rtf_starts rtf_data)).

(** The chapter of the outline entry at index [i]: built from the
    document at the same index when there is one. *)
Definition pair_chapter (documents : list rtf_document)
           (entry : nat * hierarchy_item) : chapter :=
  let (i, hierarchy_item) := entry in
  let title := h_title hierarchy_item in
  let level := h_level hierarchy_item in
  match nth_error documents i with
  | Some doc =>
      {| title := title; content := d_plain_content doc;
         level := Some level; start_pos := d_start_pos doc;
         end_pos := d_end_pos doc; size := len (d_plain_content doc);
         rtf_index := Some (d_rtf_index doc) |}
  | None =>
      {| title := title; content := NO_CONTENT; level := Some level;
         start_pos := 0%Z; end_pos := 0%Z; size := 0%Z;
         rtf_index := Some (-1)%Z |}
  end.

Definition pair_chapters (documents : list rtf_document)
           (hierarchy : list hierarchy_item) : list chapter :=
  map (pair_chapter documents) (enumerate hierarchy).

Definition _complete_hierarchy_split_chapters (rtf_data plain_text : str)
           (hierarchy : list hierarchy_item) : result (list chapter) :=
  let documents := rtf_documents rtf_data in
  let chapters := pair_chapters documents hierarchy in
  if is_empty chapters
  then _fallback_equal_split rtf_data plain_text hierarchy
  else Ok chapters.

(** *** [_split_chapters] *)

Definition _split_chapters (rtf_data : str) (hierarchy : list hierarchy_item)
  : result (list chapter) :=
  if is_empty hierarchy then
    let content := _rtf_to_plain_text rtf_data in
    Ok [{| title := MAIN_TEXT_TITLE; content := content; level := Some 0%Z;
           start_pos := 0%Z; end_pos := len rtf_data; size := len content;
           rtf_index := None |}]
  else _complete_hierarchy_split_chapters rtf_data [] hierarchy.

(** *** [analyze_file] *)

(** [struct.unpack] of an unsigned little-endian integer. *)
Definition unpack_le (field : bytes) : N :=
  fold_right (fun b v => b + 256 * v) 0 field.

Definition MAGIC : N := 0x0303.

(** The first part of the body of the [try], up to [zlib.decompress].
    The four header fields after the magic are read and printed only
    (reading them cannot raise once the length is at least 16), so they
    are left out. *)
Definition decompress_payload (data : bytes) : result bytes :=
  if (len data <? 16)%Z then Raised TooSmall
  else
    let magic := unpack_le (firstn 2 data) in
    if negb (magic =? MAGIC) then Raised (BadMagic magic)
    else
      let zlib_start := _find_zlib_start data in
      if (zlib_start =? -1)%Z then Raised PayloadNotFound
      else
        let zlib_data := skipn (Z.to_nat zlib_start) data in
        match zlib_decompress zlib_data with
        | None => Raised DecompressionFailure
        | Some decompressed => Ok decompressed
        end.

(** The body of the [try]. *)
Definition analyze_body (data : bytes) : result analysis :=
  match decompress_payload data with
  | Raised e => Raised e
  | Ok decompressed =>
      let text_content := _decode_text decompressed in
      let (plain_part, rtf_part) := _split_plain_rtf text_content in
      let hierarchy := _parse_hierarchy plain_part in
      match _split_chapters rtf_part hierarchy with
      | Raised e => Raised e
      | Ok chapters =>
          Ok {| a_chapters := chapters; a_hierarchy := hierarchy;
                a_file_size := len data |}
      end
  end.

(** The dict [analyze_file] returns: 'success' true with the analysis,
    or 'success' false with the message of the exception caught. *)
Inductive outcome : Type :=
| Success (a : analysis)
| Failure (error : failure).

(** The [except Exception] handler encloses the whole body.  [data] is
    the content of the file read at the start of the body. *)
Definition analyze_file (data : bytes) : outcome :=
  match analyze_body data with
  | Ok a => Success a
  | Raised e => Failure e
  end.


(** *** [_equal_split_chapters] *)

Definition _equal_split_chapters (rtf_data plain_text : str)
           (chapter_items : list hierarchy_item) : result (list chapter) :=
  _complete_hierarchy_split_chapters rtf_data plain_text chapter_items.

(** *** [_analyze_rtf_structure] *)

(** The dict of the three lists of offsets. *)
Record rtf_structure : Type := {
  paragraphs : list Z;
  page_breaks : list Z;
  sections : list Z
}.

(** The patterns "\\par\s*", "\\page\s*" and "\\sect\s*". *)
Definition MARKER (word : string) : regex :=
  cat [one BACKSLASH; Lit (lit word); Star (Chr Py.isspace)].

Definition _analyze_rtf_structure (rtf_data : str) : rtf_structure :=
  {| paragraphs := finditer_starts (MARKER "par") rtf_data;
     page_breaks := finditer_starts (MARKER "page") rtf_data;
     sections := finditer_starts (MARKER "sect") rtf_data |}.

(** *** [_split_rtf_by_natural_boundaries] *)

Definition _split_rtf_by_natural_boundaries (rtf_data : str)
           (structure : rtf_structure) (chapter_items : list hierarchy_item)
  : result (list chapter) :=
  let plain_text := _rtf_to_plain_text rtf_data in
  if (len chapter_items <=? 1)%Z then
    Ok [{| title := match chapter_items with
                    | item :: _ => h_title item
                    | [] => MAIN_TEXT_TITLE
                    end;
           content := plain_text; level := None;
           start_pos := 0%Z; end_pos := len rtf_data; size := len plain_text;
           rtf_index := None |}]
  else if (len chapter_items <=? 5)%Z then
    _equal_split_chapters rtf_data plain_text chapter_items
  else
    _equal_split_chapters rtf_data plain_text chapter_items.

(** *** [_reorder_chapters_by_logical_sequence] *)

Definition ZENPEN : str := [0x524D; 0x7DE8].
Definition CHUUHEN : str := [0x4E2D; 0x7DE8].
Definition KOUHEN : str := [0x5F8C; 0x7DE8].

Definition LOGICAL_ORDER : list str :=
  [ ZENPEN; CHUUHEN; KOUHEN; [0x5E8F; 0x7AE0];
    [0x7B2C; 0x31; 0x7AE0]; [0x7B2C; 0x32; 0x7AE0]; [0x7B2C; 0x33; 0x7AE0];
    [0x7B2C; 0x34; 0x7AE0]; [0x7B2C; 0x35; 0x7AE0]; [0x7D42; 0x7AE0] ].

(** The pattern "\d+". *)
Definition NUMBER : regex := Plus (Chr Py.isdecimal).

(** The sort key of a title; [None] where [int] raises. *)
Definition sort_key_of (title : str) : option Z :=
  match Py.index_of title LOGICAL_ORDER with
  | Some i => Some (Z.of_nat i)
  | None =>
      match findall NUMBER title with
      | number :: _ =>
          match Py.int10 number with
          | Some n => Some (1000 + n)%Z
          | None => None
          end
      | [] => Some 9999%Z
      end
  end.

(** A chapter dict once the key 'sort_key' is set in it. *)
Record keyed_chapter : Type := {
  kc_chapter : chapter;
  sort_key : Z
}.

(** The first loop: the key of each chapter in turn; [None] where the
    loop raises. *)
Fixpoint assign_sort_keys (chapters : list chapter) : option (list keyed_chapter) :=
  match chapters with
  | [] => Some []
  | c :: rest =>
      match sort_key_of (title c) with
      | None => None
      | Some k =>
          match assign_sort_keys rest with
          | None => None
          | Some keyed => Some ({| kc_chapter := c; sort_key := k |} :: keyed)
          end
      end
  end.

(** [None] is the ValueError of [int]. *)
Definition _reorder_chapters_by_logical_sequence (chapters : list chapter)
  : option (list keyed_chapter) :=
  match assign_sort_keys chapters with
  | None => None
  | Some keyed => Some (Py.sorted_by sort_key keyed)
  end.

(** *** [_detect_chapter_title_from_content] *)

Definition GETSUYOUBI : str := [0x6708; 0x66DC; 0x65E5].
Definition KIRITSU_REI : str := [0x8D77; 0x7ACB; 0x3001; 0x793C].
Definition THIRD_DAY : str :=
  [0x5973; 0x6027; 0x5316; 0x3057; 0x3066; 0xFF13; 0x65E5; 0x76EE].
Definition BURAJAA : str := [0x3076; 0x3089; 0x3058; 0x3083; 0x3042].
Definition UNKNOWN : str := lit "Unknown".

(** The three pattern tests of the inner loop: whether it returns. *)
Definition pattern_detected (title content_start : str) : bool :=
  if Py.str_eqb title ZENPEN
     && (Py.contains content_start ZENPEN || Py.contains content_start GETSUYOUBI)
  then true
  else if Py.str_eqb title CHUUHEN
          && (Py.contains content_start CHUUHEN
              || Py.contains content_start KIRITSU_REI)
  then true
  else if Py.str_eqb title KOUHEN
          && (Py.contains content_start KOUHEN
              || Py.contains content_start THIRD_DAY
              || Py.contains content_start BURAJAA)
  then true
  else false.

(** The loop over the characters of a title: whether it returns. *)
Fixpoint detect_by_chars (chars title content_start : str) : bool :=
  match chars with
  | [] => false
  | char :: rest =>
      if Py.contains content_start [char] && (0 <? len (Py.strip [char]))%Z
      then if pattern_detected title content_start then true
           else detect_by_chars rest title content_start
      else detect_by_chars rest title content_start
  end.

(** The loop over the titles: the title returned, if one is. *)
Fixpoint detect_in_titles (possible_titles : list str) (content_start : str)
  : option str :=
  match possible_titles with
  | [] => None
  | title :: rest =>
      if Py.contains content_start title then Some title
      else if detect_by_chars title title content_start then Some title
      else detect_in_titles rest content_start
  end.

Definition _detect_chapter_title_from_content (content : str)
           (chapter_items : list hierarchy_item) : str :=
  let possible_titles := map h_title chapter_items in
  let content_start := Py.slice_to content 200 in
  match detect_in_titles possible_titles content_start with
  | Some title => title
  | None =>
      match possible_titles with
      | title :: _ => title
      | [] => UNKNOWN
      end
  end.

(** *** [_alternative_rtf_decode] *)

(** The patterns "([0-9a-fA-F]{4,})" and "[U+3041-U+3093 U+30A1-U+30F6
    U+30FC U+4E00-U+9FAF]+". *)
Definition HEX_WORD : regex :=
  cat [Chr hexdigit; Chr hexdigit; Chr hexdigit; Chr hexdigit; Star (Chr hexdigit)].
Definition japanese (c : char) : bool :=
  in_range 0x3041 0x3093 c || in_range 0x30A1 0x30F6 c || (c =? 0x30FC)
  || in_range 0x4E00 0x9FAF c.
Definition JAPANESE_RUN : regex := Plus (Chr japanese).

Definition EXTRACTION_FAILED : str :=
  [0x30C6; 0x30AD; 0x30B9; 0x30C8; 0x62BD; 0x51FA; 0x306B; 0x5931; 0x6557;
   0x3057; 0x307E; 0x3057; 0x305F].

(** [bytes.fromhex] of an even number of hexadecimal digits. *)
Fixpoint fromhex (hex_str : str) : bytes :=
  match hex_str with
  | h1 :: h2 :: rest => int16 [h1; h2] :: fromhex rest
  | _ => []
  end.

(** The body of the loop over the hex words, [text_parts] being the list
    built so far. *)
Definition decode_hex_word (text_parts : list str) (hex_str : str) : list str :=
  if (len hex_str mod 2 =? 0)%Z then
    let byte_data := fromhex hex_str in
    let decoded_text := shift_jis_decode byte_data in
    if negb (is_empty decoded_text) && (0 <? len (Py.strip decoded_text))%Z
    then text_parts ++ [decoded_text]
    else text_parts
  else text_parts.

(** Nothing in the body of the [try] raises, so the handler that returns
    the decode error message is never entered. *)
Definition _alternative_rtf_decode (rtf_content : str) : str :=
  let hex_matches := findall HEX_WORD rtf_content in
  let text_parts := fold_left decode_hex_word hex_matches [] in
  let result := Py.join [SPACE] text_parts in
  if negb (is_empty (Py.strip result)) then Py.strip result
  else
    let plain_parts := findall JAPANESE_RUN rtf_content in
    if negb (is_empty plain_parts) then Py.join [SPACE] plain_parts
    else EXTRACTION_FAILED.

End WithRuntime.

End SEFAnalyzer.


(** ** The viewer: how the analysis is shown as a tree *)
Module SEFReaderGUI.

Import SEFAnalyzer.

(** The dict [parent_map] from levels to tree items. *)
Definition parent_map : Type := list (Z * nat).

Definition map_get (m : parent_map) (k : Z) : option nat :=
  match List.find (fun e => (fst e =? k)%Z) m with
  | Some e => Some (snd e)
  | None => None
  end.

(** [m[k] = v]. *)
Definition map_set (m : parent_map) (k : Z) (v : nat) : parent_map :=
  (k, v) :: filter (fun e => negb (fst e =? k)%Z) m.

(** The deletion of the keys above [level]. *)
Definition clear_above (m : parent_map) (level : Z) : parent_map :=
  filter (fun e => negb (level <? fst e)%Z) m.

(** The tag of an inserted item. *)
Inductive tag : Type := chapter_tag | folder_tag.

(** An item inserted in the tree view: its parent item ([None] for the
    root), its text, its tag and its column 'unique_id'.  An item is named
    by its rank among the items the call inserts. *)
Record tree_item : Type := {
  ti_parent : option nat;
  ti_text : str;
  ti_tag : tag;
  ti_unique_id : Z
}.

(** The loop [for parent_level in range(level - 1, -1, -1)], [count]
    levels being left to try from [parent_level] down. *)
Fixpoint nearest_level (m : parent_map) (count : nat) (parent_level : Z)
  : option nat :=
  match count with
  | O => None
  | S count' =>
      match map_get m parent_level with
      | Some item => Some item
      | None => nearest_level m count' (parent_level - 1)%Z
      end
  end.

(** The loop over the outline: [i] is the index of the head of
    [hierarchy], [m] the parent map so far; the items inserted, in order. *)
Fixpoint insert_items (n_chapters : Z) (hierarchy : list hierarchy_item)
         (i : nat) (m : parent_map) : list tree_item :=
  match hierarchy with
  | [] => []
  | item :: rest =>
      let level := h_level item in
      let title := h_title item in
      let parent := if (0 <? level)%Z
                    then nearest_level m (Z.to_nat level) (level - 1)%Z
                    else None in
      let has_content := (Z.of_nat i <? n_chapters)%Z in
      let tree_item := i in
      let m := map_set m level tree_item in
      let m := clear_above m level in
      {| ti_parent := parent; ti_text := title;
         ti_tag := if has_content then chapter_tag else folder_tag;
         ti_unique_id := Z.of_nat i |}
        :: insert_items n_chapters rest (S i) m
  end.

(** [populate_tree]: the items it inserts in the (emptied) tree view.  The
    key 'unique_id' it sets in the chapter dicts is read nowhere, and the
    expansion of the tree is display only: both are left out. *)
Definition populate_tree (hierarchy : list hierarchy_item)
           (chapters : list chapter) : list tree_item :=
  insert_items (len chapters) hierarchy 0 [].

(** [on_tree_select]: the chapter shown for a selected item, [None] when
    the message that the chapter is not found is shown instead.  The
    column 'unique_id' always holds an integer, so the handler that
    searches by title is never entered. *)
Definition selected_chapter (current_chapters : list chapter)
           (item : tree_item) : option chapter :=
  let unique_id := ti_unique_id item in
  if (unique_id <? len current_chapters)%Z
  then nth_error current_chapters (Z.to_nat unique_id)
  else None.

End SEFReaderGUI.

(** ** The Shift-JIS codec of the concrete buffers

    The single-byte range of the Shift-JIS codec: an ASCII byte is its
    character, a byte of 0xA1..0xDF is a half-width katakana
    (U+FF61..U+FF9F).  The double-byte table (JIS X
    0208) is not included: any other byte is dropped, as the codec drops a
    byte it cannot decode.  The buffers evaluated below hold ASCII text. *)
Definition single_byte_shift_jis (data : bytes) : str :=
  flat_map (fun b => if b <? 0x80 then [b]
                     else if (0xA1 <=? b) && (b <=? 0xDF) then [0xFEC0 + b]
                     else []) data.

(** * The notions the properties are stated with *)

(** ** Occurrences in a text *)

(** [tok] occurs in [t] at offset [n]. *)
Definition occurs_at (tok t : str) (n : nat) : Prop :=
  exists pre post, t = pre ++ tok ++ post /\ length pre = n.

(** The first occurrence of [tok] in [t] is at offset [n]. *)
Definition first_occurrence (tok t : str) (n : nat) : Prop :=
  occurs_at tok t n /\ forall k, (k < n)%nat -> ~ occurs_at tok t k.

(** ** RtfDocumentExtractor *)

(** The running brace count of a text: +1 for each opening brace, -1 for
    each closing brace. *)
Definition brace_delta (c : char) : Z :=
  if c =? LBRACE then 1%Z else if c =? RBRACE then (-1)%Z else 0%Z.

Definition balance (s : str) : Z :=
  fold_right (fun c n => (brace_delta c + n)%Z) 0%Z s.

(** The nested document used as an example: a document within the braces
    of another. *)
Definition NESTED_RTF : str := lit "{\rtf1 a {\rtf1 b} c}".

(** An outline of two entries, to pair with the documents of [NESTED_RTF]. *)
Definition TWO_ENTRIES : list SEFAnalyzer.hierarchy_item :=
  [ {| SEFAnalyzer.h_title := lit "Outer"; SEFAnalyzer.h_level := 0%Z |};
    {| SEFAnalyzer.h_title := lit "Inner"; SEFAnalyzer.h_level := 1%Z |} ].

(** ** ChapterAssembler *)
Section AssemblyNotions.

Import SEFAnalyzer.
Context {rt : PyRuntime}.

(** The chapter [c] pairs the outline entry [item] with the document [doc]
    found at index [i]. *)
Definition built_from (c : chapter) (item : hierarchy_item)
           (doc : rtf_document) (i : nat) : Prop :=
  title c = h_title item /\ level c = Some (h_level item)
  /\ content c = d_plain_content doc
  /\ start_pos c = d_start_pos doc /\ end_pos c = d_end_pos doc
  /\ size c = d_size doc /\ size c = len (d_plain_content doc)
  /\ rtf_index c = Some (Z.of_nat i) /\ rtf_index c <> Some (-1)%Z.

(** The chapter [c] stands for the outline entry [item] without document. *)
Definition placeholder_for (c : chapter) (item : hierarchy_item) : Prop :=
  title c = h_title item /\ level c = Some (h_level item)
  /\ content c = NO_CONTENT /\ size c = 0%Z
  /\ start_pos c = 0%Z /\ end_pos c = 0%Z
  /\ rtf_index c = Some (-1)%Z.

(** [chapters] pairs the entries of [hierarchy] with the documents of
    [rtf_text] by position, placeholders standing in once the documents
    have run out. *)
Definition paired_by_position (rtf_text : str) (hierarchy : list hierarchy_item)
           (chapters : list chapter) : Prop :=
  let H := length hierarchy in
  let D := length (rtf_documents rtf_text) in
  length chapters = H
  /\ (forall i, (i < Nat.min H D)%nat ->
        exists c item doc,
          nth_error chapters i = Some c /\ nth_error hierarchy i = Some item
          /\ nth_error (rtf_documents rtf_text) i = Some doc
          /\ built_from c item doc i)
  /\ (forall i, (D <= i < H)%nat ->
        exists c item,
          nth_error chapters i = Some c /\ nth_error hierarchy i = Some item
          /\ placeholder_for c item).

(** What [_split_chapters] returns for a non-empty outline. *)
Definition assembled_by_position (rtf_text : str)
           (hierarchy : list hierarchy_item) : Prop :=
  exists chapters,
    _split_chapters rtf_text hierarchy = Ok chapters
    /\ paired_by_position rtf_text hierarchy chapters.

End AssemblyNotions.

(** An outline of three entries and an RTF part of two documents. *)
Definition THREE_ENTRIES : list SEFAnalyzer.hierarchy_item :=
  [ {| SEFAnalyzer.h_title := lit "Outline"; SEFAnalyzer.h_level := 0%Z |};
    {| SEFAnalyzer.h_title := lit "Section A"; SEFAnalyzer.h_level := 1%Z |};
    {| SEFAnalyzer.h_title := lit "Section B"; SEFAnalyzer.h_level := 1%Z |} ].
Definition TWO_DOCUMENTS : str := lit "{\rtf1 A content}{\rtf1 B content}".

(** ** HierarchyParser *)

Definition is_indent (c : char) : bool := (c =? TAB) || (c =? SPACE).

(** The leading tabs and spaces of a line. *)
Fixpoint indent_prefix (line : str) : str :=
  match line with
  | c :: rest => if is_indent c then c :: indent_prefix rest else []
  | [] => []
  end.

Definition count (c : char) (s : str) : Z := len (filter (N.eqb c) s).

(** The level of a line: its leading tabs, plus a quarter (rounded down) of
    its leading spaces all together. *)
Definition indent_level (line : str) : Z :=
  (count TAB (indent_prefix line) + count SPACE (indent_prefix line) / 4)%Z.

(** The node of a line already trimmed on the right. *)
Definition node_of (line : str) : SEFAnalyzer.hierarchy_item :=
  {| SEFAnalyzer.h_title := Py.lstrip_chars [TAB; SPACE] line;
     SEFAnalyzer.h_level := indent_level line |}.

Definition non_blank (line : str) : bool := negb (is_empty line).

(** The level rule in the words of the specification: one per leading tab
    and one per complete run of four consecutive leading spaces, a shorter
    run of spaces adding nothing; [run] is the length of the run of spaces
    that ends at the head of [prefix]. *)
Fixpoint level_by_runs (run : nat) (prefix : str) : Z :=
  match prefix with
  | [] => 0%Z
  | c :: rest =>
      if c =? SPACE then
        if (run =? 3)%nat then (1 + level_by_runs 0 rest)%Z
        else level_by_runs (S run) rest
      else if c =? TAB then (1 + level_by_runs 0 rest)%Z
      else 0%Z
  end.

Definition level_as_specified (line : str) : Z := level_by_runs 0 line.

(** Two spaces, a tab, two spaces, then a title. *)
Definition MIXED_INDENT : str := [SPACE; SPACE; TAB; SPACE; SPACE] ++ lit "X".

(** ** Header, payload and decompression *)

(** The byte pair [_find_zlib_start] looks for. *)
Definition SIGNATURE : bytes := [0x78; 0x01].

(** A header of 16 bytes: the magic 0x0303 (little-endian), then zeros. *)
Definition HEADER : bytes := [3; 3; 0; 0; 0; 0; 0; 0; 0; 0; 0; 0; 0; 0; 0; 0].

(** The zlib streams of the one-letter text "a": as [zlib.compress] gives
    it by default (signature 0x78, 0x9C), and stored (level 0, signature
    0x78, 0x01). *)
Definition LETTER_A : bytes := [97].
Definition LETTER_A_DEFAULT : bytes :=
  [0x78; 0x9c; 0x4b; 0x04; 0x00; 0x00; 0x62; 0x00; 0x62].
Definition LETTER_A_STORED : bytes :=
  [0x78; 0x01; 0x01; 0x01; 0x00; 0xfe; 0xff; 0x61; 0x00; 0x62; 0x00; 0x62].

(** The text of the end-to-end scenario, and its Shift-JIS encoding (the
    text is ASCII: each character is one byte). *)
Definition SCENARIO_TEXT : str :=
  lit "Outline" ++ [LF; TAB] ++ lit "Section A" ++ [LF; TAB] ++ lit "Section B"
    ++ [LF] ++ TWO_DOCUMENTS.
Definition SCENARIO_BYTES : bytes := SCENARIO_TEXT.

(** Its zlib streams: by default, and stored. *)
Definition SCENARIO_DEFAULT : bytes :=
  [0x78; 0x9c; 0xf3; 0x2f; 0x2d; 0xc9; 0xc9; 0xcc; 0x4b; 0xe5; 0xe2; 0x0c;
   0x4e; 0x4d; 0x2e; 0xc9; 0xcc; 0xcf; 0x53; 0x70; 0x44; 0x30; 0x9d; 0xb8;
   0xaa; 0x63; 0x8a; 0x4a; 0xd2; 0x0c; 0x15; 0x1c; 0x15; 0x92; 0xf3; 0xf3;
   0x4a; 0x52; 0xf3; 0x4a; 0x6a; 0xa1; 0x02; 0x4e; 0x70; 0x01; 0x00; 0xb7;
   0x71; 0x16; 0x19].
Definition SCENARIO_STORED : bytes :=
  [0x78; 0x01; 0x01; 0x40; 0x00; 0xbf; 0xff] ++ SCENARIO_BYTES
    ++ [0xb7; 0x71; 0x16; 0x19].

(** The chapters the analyzer makes of the scenario. *)
Definition SCENARIO_CHAPTERS : list SEFAnalyzer.chapter :=
  [ {| SEFAnalyzer.title := lit "Outline";
       SEFAnalyzer.content := lit "A content";
       SEFAnalyzer.level := Some 0%Z;
       SEFAnalyzer.start_pos := 0%Z; SEFAnalyzer.end_pos := 17%Z;
       SEFAnalyzer.size := 9%Z; SEFAnalyzer.rtf_index := Some 0%Z |};
    {| SEFAnalyzer.title := lit "Section A";
       SEFAnalyzer.content := lit "B content";
       SEFAnalyzer.level := Some 1%Z;
       SEFAnalyzer.start_pos := 17%Z; SEFAnalyzer.end_pos := 34%Z;
       SEFAnalyzer.size := 9%Z; SEFAnalyzer.rtf_index := Some 1%Z |};
    {| SEFAnalyzer.title := lit "Section B";
       SEFAnalyzer.content := SEFAnalyzer.NO_CONTENT;
       SEFAnalyzer.level := Some 1%Z;
       SEFAnalyzer.start_pos := 0%Z; SEFAnalyzer.end_pos := 0%Z;
       SEFAnalyzer.size := 0%Z; SEFAnalyzer.rtf_index := Some (-1)%Z |} ].

(** The outcome of the scenario in the words of the specification: three
    chapters, the first the placeholder, the second and third carrying the
    two contents. *)
Definition scenario_as_specified (o : SEFAnalyzer.outcome) : Prop :=
  exists a c1 c2 c3,
    o = SEFAnalyzer.Success a
    /\ SEFAnalyzer.a_hierarchy a = THREE_ENTRIES
    /\ SEFAnalyzer.a_chapters a = [c1; c2; c3]
    /\ SEFAnalyzer.rtf_index c1 = Some (-1)%Z
    /\ SEFAnalyzer.content c2 = lit "A content"
    /\ SEFAnalyzer.content c3 = lit "B content".

(** A buffer of a header without the signature and a zlib stream that
    starts with it and decompresses to [payload]. *)
Definition signed_container {rt : PyRuntime} (header z payload : bytes) : Prop :=
  length header = 16%nat
  /\ SEFAnalyzer.unpack_le (firstn 2 header) = SEFAnalyzer.MAGIC
  /\ (forall n, ~ occurs_at SIGNATURE header n)
  /\ firstn 2 z = SIGNATURE
  /\ zlib_decompress z = Some payload.

(** A date as an RTF document: 2024, U+5E74, 1, U+6708, 15, U+65E5. *)
Definition DATE_TEXT : str :=
  lit "2024" ++ [NEN] ++ lit "1" ++ [GATSU] ++ lit "15" ++ [NICHI].
Definition DATE_RTF : str := lit "{\rtf1 " ++ DATE_TEXT ++ lit "}".

(** A header with the magic that contains the pair 0x78, 0x01. *)
Definition HEADER_WITH_PAIR : bytes :=
  [3; 3; 0x78; 0x01; 0; 0; 0; 0; 0; 0; 0; 0; 0; 0; 0; 0].

(** ** The loops of the matcher *)

(** A continuation is entered at or after the position the match starts
    from. *)
Definition advances (body : Re.cont -> Re.cont) : Prop :=
  forall k pre suf z,
    body k pre suf = Some z ->
    exists pre' suf', k pre' suf' = Some z /\ (length suf' <= length suf)%nat.

(** A matcher sees its continuation through its results only. *)
Definition extensional (body : Re.cont -> Re.cont) : Prop :=
  forall k1 k2, (forall pre suf, k1 pre suf = k2 pre suf) ->
                forall pre suf, body k1 pre suf = body k2 pre suf.

(** What is left to do in a round of [re.sub]. *)
Definition rounds_left (must_advance : bool) (suf : str) : nat :=
  2 * length suf + (if must_advance then 0 else 1).

(** ** The tree of the viewer *)

(** Entry [j] is the nearest entry before entry [i] with a smaller level. *)
Definition nearest_shallower (levels : list Z) (i j : nat) : Prop :=
  exists lj li,
    (j < i)%nat /\ nth_error levels j = Some lj /\ nth_error levels i = Some li
    /\ (lj < li)%Z
    /\ forall k lk, (j < k < i)%nat -> nth_error levels k = Some lk -> (li <= lk)%Z.

(** No entry before entry [i] has a smaller level. *)
Definition no_shallower (levels : list Z) (i : nat) : Prop :=
  forall li, nth_error levels i = Some li ->
  forall k lk, (k < i)%nat -> nth_error levels k = Some lk -> (li <= lk)%Z.

(** The parent an item of the tree should have. *)
Definition parent_of_entry (levels : list Z) (i : nat) (parent : option nat) : Prop :=
  match parent with
  | Some j => nearest_shallower levels i j
  | None => no_shallower levels i
  end.

(** What the parent map holds once the entries of levels [done] are
    inserted: at each level, the last entry of that level that no entry of
    a smaller or equal level follows. *)
Definition tracks_open_entries (done : list Z) (m : SEFReaderGUI.parent_map) : Prop :=
  forall k j,
    SEFReaderGUI.map_get m k = Some j
    <-> nth_error done j = Some k
        /\ forall j' l', (j < j')%nat -> nth_error done j' = Some l' -> (k < l')%Z.

(** The tree of an outline: every item is as [populate_tree] should
    insert it. *)
Definition tree_of_outline (hierarchy : list SEFAnalyzer.hierarchy_item)
           (n_chapters : Z) (tree : list SEFReaderGUI.tree_item) : Prop :=
  length tree = length hierarchy
  /\ forall i item node,
      nth_error hierarchy i = Some item -> nth_error tree i = Some node ->
      SEFReaderGUI.ti_text node = SEFAnalyzer.h_title item
      /\ SEFReaderGUI.ti_unique_id node = Z.of_nat i
      /\ SEFReaderGUI.ti_tag node
         = (if (Z.of_nat i <? n_chapters)%Z
            then SEFReaderGUI.chapter_tag else SEFReaderGUI.folder_tag)
      /\ parent_of_entry (map SEFAnalyzer.h_level hierarchy) i
                         (SEFReaderGUI.ti_parent node).

(** Every item of the tree is tagged as chapter, and selecting it shows
    the chapter at the item's rank, whose title is the item's text. *)
Definition selects_own_chapter (chapters : list SEFAnalyzer.chapter)
           (tree : list SEFReaderGUI.tree_item) : Prop :=
  forall i node,
    nth_error tree i = Some node ->
    SEFReaderGUI.ti_tag node = SEFReaderGUI.chapter_tag
    /\ exists c,
        SEFReaderGUI.selected_chapter chapters node = Some c
        /\ nth_error chapters i = Some c
        /\ SEFAnalyzer.title c = SEFReaderGUI.ti_text node.

(** ** The logical order of the chapters *)

(** The sort key of [title] is [k]. *)
Definition has_key (k : Z) (title : str) : bool :=
  match SEFAnalyzer.sort_key_of title with
  | Some k' => (k' =? k)%Z
  | None => false
  end.

(** The first run of digits of a title outside the listed ones is longer
    than what [int] accepts. *)
Definition number_too_long (title : str) : Prop :=
  Py.index_of title SEFAnalyzer.LOGICAL_ORDER = None
  /\ exists number rest,
      Re.findall SEFAnalyzer.NUMBER title = number :: rest
      /\ (Py.INT_MAX_STR_DIGITS < length number)%nat.

(** A chapter that holds a title only. *)
Definition titled (t : str) : SEFAnalyzer.chapter :=
  {| SEFAnalyzer.title := t; SEFAnalyzer.content := [];
     SEFAnalyzer.level := None; SEFAnalyzer.start_pos := 0%Z;
     SEFAnalyzer.end_pos := 0%Z; SEFAnalyzer.size := 0%Z;
     SEFAnalyzer.rtf_index := None |}.

(** Three chapters out of order: "Notes", then the last and the first of
    the listed parts. *)
Definition SHUFFLED_PARTS : list SEFAnalyzer.chapter :=
  [ titled (lit "Notes"); titled SEFAnalyzer.KOUHEN; titled SEFAnalyzer.ZENPEN ].

(** ** Text free of RTF syntax *)

(** A character the conversion has no rule for: no backslash, brace,
    semicolon, ASCII digit or whitespace. *)
Definition plain_char (c : char) : bool :=
  negb (c =? BACKSLASH) && negb (c =? LBRACE) && negb (c =? RBRACE)
  && negb (c =? SEFAnalyzer.SEMICOLON) && negb (Re.digit09 c)
  && negb (Py.isspace c).

(** The pattern [r] matches nowhere in a text of characters [ok]: at the
    end of the text, and before a character [ok], it fails. *)
Definition fails_on (r : Re.regex) (ok : char -> bool) : Prop :=
  forall k pre suf,
    match suf with [] => True | c :: _ => ok c = true end ->
    Re.m r k pre suf = None.

(** ** The detection of a chapter title *)

(** A title is accepted for the start of a content: it occurs there, or
    one of its characters that is not whitespace occurs there and one of the
    three pattern tests holds for it. *)
Definition title_accepted (content_start title : str) : bool :=
  Py.contains content_start title
  || (existsb (fun c => Py.contains content_start [c] && negb (Py.isspace c)) title
      && SEFAnalyzer.pattern_detected title content_start).

(** ** The characters of a converted text *)

(** A continuation is entered at a position whose text to come is an end
    of the text to come where the match starts. *)
Definition stays (body : Re.cont -> Re.cont) : Prop :=
  forall k pre suf z,
    body k pre suf = Some z ->
    exists pre' suf' w, k pre' suf' = Some z /\ suf = w ++ suf'.

(** The pattern [r] matches at every character of the class [p], also
    when the match has to advance. *)
Definition matches_at (r : Re.regex) (p : char -> bool) : Prop :=
  forall must_advance pre c suf,
    p c = true ->
    Re.m r (fun pre' suf' =>
              if must_advance && (length suf' =? length (c :: suf))%nat
              then None else Some (pre', suf')) pre (c :: suf) <> None.

(** ** The structure of an RTF text *)

(** The control word a marker pattern starts with. *)
Definition marker_token (word : string) : str := BACKSLASH :: lit word.

(** [l] lists, in increasing order, the offsets at which [tok] occurs in
    [t]. *)
Definition offsets_of (tok t : str) (l : list Z) : Prop :=
  StronglySorted Z.lt l
  /\ forall z, In z l <-> exists n, z = Z.of_nat n /\ occurs_at tok t n.

(** ** The runtime of the concrete buffers *)

#[export] Instance reference_runtime : PyRuntime.
Proof.
  refine {| zlib_decompress := Zlib.decompress;
            shift_jis_decode := single_byte_shift_jis;
            shift_jis_ascii := _ |}.
  intros b Hb. unfold single_byte_shift_jis. simpl.
  apply N.ltb_lt in Hb. now rewrite Hb.
Defined.

(** * Properties *)

(** ** Searching a text *)
Section Searching.

Import Py.

Lemma startswith_app (p s : str) : startswith (p ++ s) p = true.
Proof.
  induction p as [|c p IH]; simpl; [reflexivity|].
  now rewrite N.eqb_refl, IH.
Qed.

Lemma startswith_inv (p : str) : forall s,
  startswith s p = true -> exists post, s = p ++ post.
Proof.
  induction p as [|c p IH]; intros s H.
  - now exists s.
  - destruct s as [|d s]; simpl in H; [discriminate|].
    apply andb_prop in H as [Hc Hs]. apply N.eqb_eq in Hc. subst d.
    destruct (IH _ Hs) as [post ->]. now exists post.
Qed.

Lemma startswith_nil (p : str) : p <> [] -> startswith [] p = false.
Proof. destruct p; [congruence | reflexivity]. Qed.

Lemma occurs_at_startswith (tok t : str) (n : nat) :
  occurs_at tok t n <-> (n <= length t)%nat /\ startswith (skipn n t) tok = true.
Proof.
  split.
  - intros (pre & post & -> & <-). split.
    + rewrite length_app. lia.
    + rewrite skipn_app, skipn_all, Nat.sub_diag. simpl. apply startswith_app.
  - intros [Hn H]. apply startswith_inv in H as [post Hpost].
    exists (firstn n t), post. split.
    + rewrite <- Hpost. symmetry. apply firstn_skipn.
    + apply firstn_length_le, Hn.
Qed.

Lemma occurs_at_bound (tok t : str) (n : nat) :
  occurs_at tok t n -> (n + length tok <= length t)%nat.
Proof.
  intros (pre & post & -> & <-). rewrite !length_app. lia.
Qed.

(** What [find_from] returns: -1 when no suffix of [s] starts with [sub],
    else [i] plus the least offset of a suffix that does. *)
Lemma find_from_cases (sub : str) : forall (s : str) (i : Z),
  (find_from sub i s = (-1)%Z
   /\ forall n, startswith (skipn n s) sub = false)
  \/ (exists n, find_from sub i s = (i + Z.of_nat n)%Z
      /\ (n <= length s)%nat
      /\ startswith (skipn n s) sub = true
      /\ forall k, (k < n)%nat -> startswith (skipn k s) sub = false).
Proof.
  induction s as [|c s IH]; intros i; simpl.
  - destruct (startswith [] sub) eqn:E.
    + right. exists 0%nat. rewrite Z.add_0_r. repeat split; auto. lia.
    + left. split; [reflexivity|]. intros n. now rewrite skipn_nil.
  - destruct (startswith (c :: s) sub) eqn:E.
    + right. exists 0%nat. rewrite Z.add_0_r. repeat split; auto; lia.
    + destruct (IH (i + 1)%Z) as [[H1 H2] | (n & H1 & H2 & H3 & H4)].
      * left. split; [exact H1|]. intros [|n]; [exact E | apply H2].
      * right. exists (S n). repeat split.
        -- rewrite H1. lia.
        -- simpl. lia.
        -- exact H3.
        -- intros [|k] Hk; [exact E | apply H4; lia].
Qed.

(** [find] from a start offset inside the text. *)
Lemma find_cases (t sub : str) (start : nat) :
  (find t sub (Z.of_nat start) = (-1)%Z
   /\ forall n, (start <= n)%nat -> startswith (skipn n t) sub = false)
  \/ (exists n, find t sub (Z.of_nat start) = Z.of_nat n
      /\ (start <= n)%nat
      /\ (n <= Nat.max start (length t))%nat
      /\ startswith (skipn n t) sub = true
      /\ forall k, (start <= k < n)%nat -> startswith (skipn k t) sub = false).
Proof.
  unfold find. rewrite Nat2Z.id.
  destruct (find_from_cases sub (skipn start t) (Z.of_nat start))
    as [[H1 H2] | (n & H1 & H2 & H3 & H4)].
  - left. split; [exact H1|]. intros n Hn.
    replace n with (start + (n - start))%nat by lia.
    rewrite Nat.add_comm, <- skipn_skipn. apply H2.
  - right. exists (start + n)%nat. rewrite length_skipn in H2.
    repeat split.
    + rewrite H1. lia.
    + lia.
    + lia.
    + rewrite Nat.add_comm, <- skipn_skipn. exact H3.
    + intros k Hk. replace k with (start + (k - start))%nat by lia.
      rewrite Nat.add_comm, <- skipn_skipn. apply H4. lia.
Qed.

End Searching.

(** ** SectionSplitter *)
Section SectionSplitter.

Import SEFAnalyzer.

Lemma rtf_token_not_nil : RTF_TOKEN <> [].
Proof. discriminate. Qed.

(** The two cases of [_split_plain_rtf]. *)
Lemma split_plain_rtf_cases (t : str) :
  ((forall n, ~ occurs_at RTF_TOKEN t n) /\ _split_plain_rtf t = (t, []))
  \/ (exists n, first_occurrence RTF_TOKEN t n
      /\ _split_plain_rtf t = (firstn n t, skipn n t)).
Proof.
  unfold _split_plain_rtf.
  destruct (find_cases t RTF_TOKEN 0) as [[H1 H2] | (n & H1 & _ & Hn & H3 & H4)];
    simpl Z.of_nat in H1; rewrite H1.
  - left. split; [|reflexivity].
    intros n Hocc. apply occurs_at_startswith in Hocc as [_ Hocc].
    rewrite H2 in Hocc; [discriminate | lia].
  - right. exists n.
    assert (Hne : (Z.of_nat n =? -1)%Z = false) by (apply Z.eqb_neq; lia).
    rewrite Hne, Nat2Z.id. split; [|reflexivity].
    split.
    + apply occurs_at_startswith. split; [lia | exact H3].
    + intros k Hk Hocc. apply occurs_at_startswith in Hocc as [_ Hocc].
      rewrite H4 in Hocc; [discriminate | lia].
Qed.

(** C8: [_split_plain_rtf] cuts the decoded text in two without dropping a
    character: the two parts concatenate to the text; when the token
    occurs, the plain part is the text strictly before its first occurrence
    and the RTF part is the text from there on; when it does not, the plain
    part is the whole text and the RTF part is empty. *)
Theorem split_plain_rtf_partition (t : str) :
  let plain_text := fst (_split_plain_rtf t) in
  let rtf_text := snd (_split_plain_rtf t) in
  plain_text ++ rtf_text = t
  /\ (forall n, first_occurrence RTF_TOKEN t n ->
        plain_text = firstn n t /\ rtf_text = skipn n t)
  /\ ((exists n, occurs_at RTF_TOKEN t n) ->
        exists n, first_occurrence RTF_TOKEN t n
                  /\ plain_text = firstn n t /\ rtf_text = skipn n t)
  /\ ((forall n, ~ occurs_at RTF_TOKEN t n) -> plain_text = t /\ rtf_text = []).
Proof.
  cbv zeta.
  destruct (split_plain_rtf_cases t) as [[Habs ->] | (n & [Hocc Hfirst] & ->)];
    simpl.
  - repeat split.
    + apply app_nil_r.
    + exfalso. destruct H as [H _]. exact (Habs _ H).
    + exfalso. destruct H as [H _]. exact (Habs _ H).
    + intros [k Hk]. exfalso. exact (Habs _ Hk).
  - assert (Huniq : forall k, first_occurrence RTF_TOKEN t k -> k = n).
    { intros k [Hk Hkfirst].
      destruct (Nat.lt_trichotomy k n) as [Hlt | [Heq | Hgt]]; [|exact Heq|].
      - exfalso. exact (Hfirst _ Hlt Hk).
      - exfalso. exact (Hkfirst _ Hgt Hocc). }
    split; [apply firstn_skipn|].
    split; [|split].
    + intros k Hk. apply Huniq in Hk. subst k. split; reflexivity.
    + intros _. exists n. repeat split; assumption.
    + intros Habs. exfalso. exact (Habs _ Hocc).
Qed.

End SectionSplitter.

(** ** RtfDocumentExtractor *)

Section RtfDocumentExtractor.

Import Py SEFAnalyzer.

Lemma balance_firstn_S (c : char) (s : str) (k : nat) :
  balance (firstn (S k) (c :: s)) = (brace_delta c + balance (firstn k s))%Z.
Proof. reflexivity. Qed.

(** The loop stops at the first closing brace that brings a positive count
    back to zero. *)
Lemma scan_braces_closed (rtf : str) (start : nat) : forall rest pos bc k,
  (0 < bc)%Z ->
  (k < length rest)%nat ->
  (bc + balance (firstn (S k) rest) = 0)%Z ->
  (forall j, (j < k)%nat -> (bc + balance (firstn (S j) rest))%Z <> 0%Z) ->
  scan_braces rtf start rest pos bc = slice rtf start (pos + k + 1).
Proof.
  induction rest as [|c rest IH]; intros pos bc k Hbc Hk Hzero Hfirst.
  - simpl in Hk. lia.
  - rewrite balance_firstn_S in Hzero. simpl scan_braces.
    unfold brace_delta in Hzero.
    assert (Hstep : forall bc', (0 < bc')%Z -> (bc' = bc + brace_delta c)%Z ->
              (k <> 0)%nat ->
              scan_braces rtf start rest (pos + 1) bc'
              = slice rtf start (pos + k + 1)).
    { intros bc' Hpos Hbc' Hk0. destruct k as [|k]; [congruence|].
      replace (pos + S k + 1)%nat with (pos + 1 + k + 1)%nat by lia.
      apply IH; [exact Hpos | simpl in Hk; lia | |].
      - specialize (balance_firstn_S c rest (S k)) as E.
        rewrite Hbc'. unfold brace_delta.
        change (firstn (S (S k)) (c :: rest)) with (c :: firstn (S k) rest) in *.
        simpl balance in *. unfold brace_delta in *. lia.
      - intros j Hj. specialize (Hfirst (S j) ltac:(lia)).
        rewrite balance_firstn_S in Hfirst. lia. }
    destruct (c =? LBRACE) eqn:EL.
    + apply Hstep; [lia | unfold brace_delta; rewrite EL; lia |].
      intros ->. simpl in Hzero. lia.
    + destruct (c =? RBRACE) eqn:ER.
      * destruct (bc - 1 =? 0)%Z eqn:E0.
        -- apply Z.eqb_eq in E0. destruct k as [|k].
           ++ now rewrite Nat.add_0_r.
           ++ exfalso. apply (Hfirst 0%nat ltac:(lia)).
              simpl. unfold brace_delta. rewrite EL, ER. lia.
        -- apply Z.eqb_neq in E0.
           apply Hstep; [lia | unfold brace_delta; rewrite EL, ER; lia |].
           intros ->. simpl in Hzero. lia.
      * apply Hstep; [lia | unfold brace_delta; rewrite EL, ER; lia |].
        intros ->. simpl in Hzero. lia.
Qed.

(** When the count never comes back to zero the loop runs to the end of
    the text. *)
Lemma scan_braces_open (rtf : str) (start : nat) : forall rest pos bc,
  (0 < bc)%Z ->
  (forall j, (j < length rest)%nat -> (bc + balance (firstn (S j) rest))%Z <> 0%Z) ->
  scan_braces rtf start rest pos bc = slice_from rtf start.
Proof.
  induction rest as [|c rest IH]; intros pos bc Hbc Hopen; [reflexivity|].
  simpl scan_braces.
  assert (H0 := Hopen 0%nat ltac:(simpl; lia)).
  simpl in H0. unfold brace_delta in H0.
  assert (Hstep : forall bc', (0 < bc')%Z -> (bc' = bc + brace_delta c)%Z ->
            scan_braces rtf start rest (pos + 1) bc' = slice_from rtf start).
  { intros bc' Hpos Hbc'. apply IH; [exact Hpos|].
    intros j Hj. specialize (Hopen (S j) ltac:(simpl; lia)).
    rewrite balance_firstn_S in Hopen. lia. }
  destruct (c =? LBRACE) eqn:EL.
  - apply Hstep; [lia | unfold brace_delta; rewrite EL; lia].
  - destruct (c =? RBRACE) eqn:ER.
    + destruct (bc - 1 =? 0)%Z eqn:E0.
      * apply Z.eqb_eq in E0. lia.
      * apply Z.eqb_neq in E0.
        apply Hstep; [lia | unfold brace_delta; rewrite EL, ER; lia].
    + apply Hstep; [lia | unfold brace_delta; rewrite EL, ER; lia].
Qed.

(** At an occurrence of the token the extraction enters its loop, whose
    first character is the opening brace of the token. *)
Lemma extract_at_token (rtf : str) (start : nat) :
  occurs_at RTF_TOKEN rtf start ->
  exists rest, skipn start rtf = LBRACE :: rest
               /\ _extract_complete_rtf rtf start
                  = scan_braces rtf start rest (start + 1) 1%Z.
Proof.
  intros Hocc. pose proof (occurs_at_bound _ _ _ Hocc) as Hb.
  apply occurs_at_startswith in Hocc as [_ Hsw].
  unfold _extract_complete_rtf, slice_from.
  change (length RTF_TOKEN) with 5%nat in Hb.
  destruct (length rtf <=? start)%nat eqn:E; [apply Nat.leb_le in E; lia|].
  rewrite Hsw. simpl negb. cbv iota.
  destruct (startswith_inv _ _ Hsw) as [post Hpost].
  rewrite Hpost. exists (skipn 1 RTF_TOKEN ++ post). split; reflexivity.
Qed.

(** C5: at an occurrence of the token, the extracted document runs from
    the start offset through the first position [p] where the running brace
    count, counted from the start offset, is back at 0 (that closing brace
    included); when the count is not back at 0 before the end of the text,
    the document is the rest of the text from the start offset; and the
    document extracted from a text with a nested group that closes at the
    last brace is that whole text. *)
Theorem extract_complete_rtf_by_brace_balance :
  (forall (rtf_text : str) (start : nat),
      occurs_at RTF_TOKEN rtf_text start ->
      (forall p,
          (start <= p < length rtf_text)%nat ->
          balance (slice rtf_text start (p + 1)) = 0%Z ->
          (forall q, (start <= q < p)%nat ->
                     balance (slice rtf_text start (q + 1)) <> 0%Z) ->
          _extract_complete_rtf rtf_text start = slice rtf_text start (p + 1))
      /\ ((forall p, (start <= p < length rtf_text)%nat ->
                     balance (slice rtf_text start (p + 1)) <> 0%Z) ->
          _extract_complete_rtf rtf_text start = slice_from rtf_text start))
  /\ _extract_complete_rtf (lit "{\rtf1 text {nested} more}") 0
     = lit "{\rtf1 text {nested} more}".
Proof.
  split; [|reflexivity].
  intros rtf start Hocc.
  destruct (extract_at_token _ _ Hocc) as (rest & Hrest & ->).
  assert (Hlen : length rtf = (start + S (length rest))%nat).
  { rewrite <- (firstn_skipn start rtf) at 1.
    pose proof (occurs_at_bound _ _ _ Hocc).
    rewrite length_app, firstn_length_le, Hrest by lia. reflexivity. }
  assert (Hbal : forall p, (start <= p)%nat ->
            balance (slice rtf start (p + 1))
            = (1 + balance (firstn (p - start) rest))%Z).
  { intros p Hp. unfold slice. rewrite Hrest.
    replace (p + 1 - start)%nat with (S (p - start)) by lia.
    reflexivity. }
  split.
  - intros p Hp Hzero Hfirst.
    rewrite Hbal in Hzero by lia.
    destruct (p - start)%nat as [|k] eqn:Ek; [simpl in Hzero; lia|].
    replace (p + 1)%nat with (start + 1 + k + 1)%nat by lia.
    apply scan_braces_closed; [lia | lia | exact Hzero |].
    intros j Hj. specialize (Hfirst (start + S j)%nat ltac:(lia)).
    rewrite Hbal in Hfirst by lia.
    replace (start + S j - start)%nat with (S j) in Hfirst by lia.
    exact Hfirst.
  - intros Hopen. apply scan_braces_open; [lia|].
    intros j Hj. specialize (Hopen (start + S j)%nat ltac:(lia)).
    rewrite Hbal in Hopen by lia.
    replace (start + S j - start)%nat with (S j) in Hopen by lia.
    exact Hopen.
Qed.

End RtfDocumentExtractor.

(** ** Discovery of the documents *)

Section DocumentDiscovery.

Import Py SEFAnalyzer.
Context {rt : PyRuntime}.

(** The loop records exactly the offsets at or after [pos] where the text
    goes on with the token, provided its fuel covers the rest of the text. *)
Lemma rtf_starts_loop_spec (rtf : str) : forall fuel pos,
  (length rtf < fuel + pos)%nat ->
  forall z, In z (rtf_starts_loop fuel rtf (Z.of_nat pos))
            <-> exists n, z = Z.of_nat n /\ (pos <= n)%nat
                          /\ startswith (skipn n rtf) RTF_TOKEN = true.
Proof.
  induction fuel as [|fuel IH]; intros pos Hfuel z.
  - cbn [rtf_starts_loop In]. split; [tauto|]. intros (n & _ & Hn & Hsw).
    rewrite skipn_all2 in Hsw by lia. discriminate.
  - cbn [rtf_starts_loop].
    destruct (find_cases rtf RTF_TOKEN pos)
      as [[H1 H2] | (n & H1 & Hn & _ & H3 & H4)]; rewrite H1.
    + cbn [Z.eqb Pos.eqb In]. split; [tauto|]. intros (n & _ & Hn & Hsw).
      rewrite H2 in Hsw by lia. discriminate.
    + assert (Hne : (Z.of_nat n =? -1)%Z = false) by (apply Z.eqb_neq; lia).
      rewrite Hne. replace (Z.of_nat n + 1)%Z with (Z.of_nat (S n)) by lia.
      cbn [In]. rewrite IH by lia. split.
      * intros [<- | (k & -> & Hk & Hsw)].
        -- exists n. auto.
        -- exists k. repeat split; [lia | exact Hsw].
      * intros (k & -> & Hk & Hsw).
        destruct (Nat.lt_trichotomy k n) as [Hlt | [-> | Hgt]].
        -- rewrite H4 in Hsw by lia. discriminate.
        -- now left.
        -- right. exists k. repeat split; [lia | exact Hsw].
Qed.

Lemma rtf_starts_loop_sorted (rtf : str) : forall fuel pos,
  StronglySorted Z.lt (rtf_starts_loop fuel rtf (Z.of_nat pos))
  /\ Forall (fun z => (Z.of_nat pos <= z)%Z) (rtf_starts_loop fuel rtf (Z.of_nat pos)).
Proof.
  induction fuel as [|fuel IH]; intros pos; cbn [rtf_starts_loop].
  - split; constructor.
  - destruct (find_cases rtf RTF_TOKEN pos)
      as [[H1 _] | (n & H1 & Hn & _)]; rewrite H1.
    + cbn [Z.eqb Pos.eqb]. split; constructor.
    + assert (Hne : (Z.of_nat n =? -1)%Z = false) by (apply Z.eqb_neq; lia).
      rewrite Hne. replace (Z.of_nat n + 1)%Z with (Z.of_nat (S n)) by lia.
      destruct (IH (S n)) as [Hs Hf]. split.
      * constructor; [exact Hs|].
        eapply Forall_impl; [|exact Hf]. simpl. intros; lia.
      * constructor; [lia|].
        eapply Forall_impl; [|exact Hf]. simpl. intros; lia.
Qed.

(** Every occurrence of the token is a recorded start, and nothing else. *)
Lemma rtf_starts_occurrences (rtf : str) (z : Z) :
  In z (rtf_starts rtf)
  <-> exists n, z = Z.of_nat n /\ occurs_at RTF_TOKEN rtf n.
Proof.
  unfold rtf_starts. change 0%Z with (Z.of_nat 0).
  rewrite rtf_starts_loop_spec by lia. split.
  - intros (n & -> & _ & Hsw). exists n. split; [reflexivity|].
    apply occurs_at_startswith. split; [|exact Hsw].
    destruct (Nat.le_gt_cases n (length rtf)) as [H | H]; [exact H|].
    rewrite skipn_all2 in Hsw by lia. discriminate.
  - intros (n & -> & Hocc). exists n.
    apply occurs_at_startswith in Hocc as [_ Hsw]. repeat split; [lia | exact Hsw].
Qed.

Lemma map_snd_enumerate {A} (l : list A) : map snd (enumerate l) = l.
Proof.
  unfold enumerate. generalize 0%nat.
  induction l as [|x l IH]; intros n; simpl; [reflexivity|].
  now rewrite IH.
Qed.

Lemma map_fst_enumerate {A} (l : list A) : map fst (enumerate l) = seq 0 (length l).
Proof.
  unfold enumerate. generalize 0%nat.
  induction l as [|x l IH]; intros n; simpl; [reflexivity|].
  now rewrite IH.
Qed.

Lemma document_starts (rtf : str) :
  map d_start_pos (rtf_documents rtf) = rtf_starts rtf.
Proof.
  unfold rtf_documents. rewrite map_map.
  rewrite <- (map_snd_enumerate (rtf_starts rtf)) at 2.
  apply map_ext. now intros [i s].
Qed.

(** The loop of the extraction returns at least one character. *)
Lemma scan_braces_nonempty (rtf : str) (start : nat) : forall rest pos bc,
  (start < length rtf)%nat -> (start <= pos)%nat ->
  (length rest + pos = length rtf)%nat ->
  (0 < length (scan_braces rtf start rest pos bc))%nat.
Proof.
  assert (Hslice : forall pos, (start <= pos < length rtf)%nat ->
            (0 < length (slice rtf start (pos + 1)))%nat).
  { intros pos Hp. unfold slice. rewrite length_firstn, length_skipn. lia. }
  induction rest as [|c rest IH]; intros pos bc Hs Hp Hl; simpl.
  - unfold slice_from. rewrite length_skipn. lia.
  - simpl in Hl.
    destruct (c =? LBRACE); [apply IH; lia|].
    destruct (c =? RBRACE); [|apply IH; lia].
    destruct (bc - 1 =? 0)%Z; [apply Hslice; lia | apply IH; lia].
Qed.

Lemma extract_nonempty (rtf : str) (n : nat) :
  occurs_at RTF_TOKEN rtf n ->
  (0 < len (_extract_complete_rtf rtf n))%Z.
Proof.
  intros Hocc. pose proof (occurs_at_bound _ _ _ Hocc) as Hb.
  change (length RTF_TOKEN) with 5%nat in Hb.
  destruct (extract_at_token _ _ Hocc) as (rest & Hrest & ->).
  unfold len. apply (Nat2Z.inj_lt 0). apply scan_braces_nonempty; [lia | lia |].
  assert (E := f_equal (@length char) Hrest).
  rewrite length_skipn in E. simpl in E. lia.
Qed.

End DocumentDiscovery.

(** ** ChapterAssembler *)

Section ChapterAssembler.

Import Py SEFAnalyzer.
Context {rt : PyRuntime}.

(** C10: every occurrence of the token is recorded as a document start
    and nothing else is; the documents' start offsets are strictly
    increasing and each document ends after its start; a token nested in
    the braces of an earlier document is a document of its own whose extent
    lies inside the earlier one, and it is paired with the outline entry at
    its index. *)
Theorem every_token_starts_a_document :
  (forall rtf_text : str,
      (forall z, In z (rtf_starts rtf_text)
                 <-> exists n, z = Z.of_nat n /\ occurs_at RTF_TOKEN rtf_text n)
      /\ map d_start_pos (rtf_documents rtf_text) = rtf_starts rtf_text
      /\ StronglySorted Z.lt (map d_start_pos (rtf_documents rtf_text))
      /\ Forall (fun d => (d_start_pos d < d_end_pos d)%Z)
                (rtf_documents rtf_text))
  /\ (exists outer inner,
         rtf_documents NESTED_RTF = [outer; inner]
         /\ d_rtf_content outer = NESTED_RTF
         /\ d_rtf_content inner = lit "{\rtf1 b}"
         /\ (d_start_pos outer < d_start_pos inner)%Z
         /\ (d_start_pos inner < d_end_pos outer)%Z
         /\ (d_end_pos inner < d_end_pos outer)%Z)
  /\ (exists c_outer c_inner,
         _split_chapters NESTED_RTF TWO_ENTRIES = Ok [c_outer; c_inner]
         /\ title c_inner = lit "Inner" /\ content c_inner = lit "b"
         /\ start_pos c_inner = 9%Z /\ end_pos c_inner = 18%Z
         /\ rtf_index c_inner = Some 1%Z
         /\ start_pos c_outer = 0%Z /\ end_pos c_outer = 21%Z).
Proof.
  split; [|split].
  - intros rtf. split; [apply rtf_starts_occurrences|].
    split; [apply document_starts|]. split.
    + rewrite document_starts. unfold rtf_starts. change 0%Z with (Z.of_nat 0).
      apply rtf_starts_loop_sorted.
    + unfold rtf_documents. apply Forall_forall. intros d Hd.
      apply in_map_iff in Hd as ([i s] & <- & Hin).
      apply in_combine_r in Hin.
      apply rtf_starts_occurrences in Hin as (n & -> & Hocc).
      cbn [extract_document d_start_pos d_end_pos]. rewrite Nat2Z.id.
      pose proof (extract_nonempty _ _ Hocc). lia.
  - eexists _, _. split; [vm_compute; reflexivity|].
    vm_compute. repeat split; reflexivity.
  - eexists _, _. split; [vm_compute; reflexivity|].
    vm_compute. repeat split; reflexivity.
Qed.

Lemma nth_error_enumerate {A} (l : list A) (i : nat) :
  nth_error (enumerate l) i = option_map (pair i) (nth_error l i).
Proof.
  unfold enumerate. change i with (0 + i)%nat at 2. generalize 0%nat.
  revert i. induction l as [|x l IH]; intros [|i] s; simpl; try reflexivity.
  - now rewrite Nat.add_0_r.
  - rewrite IH. now rewrite Nat.add_succ_r.
Qed.

Lemma length_enumerate {A} (l : list A) : length (enumerate l) = length l.
Proof. unfold enumerate. rewrite length_combine, length_seq. lia. Qed.

Lemma length_pair_chapters documents hierarchy :
  length (pair_chapters documents hierarchy) = length hierarchy.
Proof. unfold pair_chapters. now rewrite length_map, length_enumerate. Qed.

Lemma nth_error_pair_chapters documents hierarchy i :
  nth_error (pair_chapters documents hierarchy) i
  = option_map (fun item => pair_chapter documents (i, item)) (nth_error hierarchy i).
Proof.
  unfold pair_chapters. rewrite nth_error_map, nth_error_enumerate.
  now destruct (nth_error hierarchy i).
Qed.

Lemma nth_error_rtf_documents rtf i doc :
  nth_error (rtf_documents rtf) i = Some doc ->
  d_rtf_index doc = Z.of_nat i /\ d_size doc = len (d_plain_content doc).
Proof.
  unfold rtf_documents. rewrite nth_error_map, nth_error_enumerate.
  destruct (nth_error (rtf_starts rtf) i); simpl; [|discriminate].
  intros [= <-]. split; reflexivity.
Qed.

(** With an outline entry to pair, the pairing is not empty: the guard of
    the equal split is false. *)
Lemma pair_chapters_not_empty documents item hierarchy :
  is_empty (pair_chapters documents (item :: hierarchy)) = false.
Proof. reflexivity. Qed.

(** C1: for a non-empty outline the assembly returns the positional
    pairing, which has one chapter per outline entry; the guard of the
    equal split is then false, so that branch is not taken.  For an empty
    outline it returns a single chapter with the fixed title, level 0,
    start offset 0 and end offset the length of the RTF part. *)
Theorem split_chapters_count (rtf_text : str) (hierarchy : list hierarchy_item) :
  match hierarchy with
  | _ :: _ =>
      is_empty (pair_chapters (rtf_documents rtf_text) hierarchy) = false
      /\ (forall plain_text,
            _complete_hierarchy_split_chapters rtf_text plain_text hierarchy
            = Ok (pair_chapters (rtf_documents rtf_text) hierarchy))
      /\ exists chapters,
          _split_chapters rtf_text hierarchy = Ok chapters
          /\ chapters = pair_chapters (rtf_documents rtf_text) hierarchy
          /\ length chapters = length hierarchy
  | [] =>
      exists c,
        _split_chapters rtf_text hierarchy = Ok [c]
        /\ title c = MAIN_TEXT_TITLE /\ level c = Some 0%Z
        /\ start_pos c = 0%Z /\ end_pos c = len rtf_text
  end.
Proof.
  destruct hierarchy as [|item hierarchy].
  - eexists. split; [reflexivity|]. repeat split.
  - split; [apply pair_chapters_not_empty|]. split; [reflexivity|].
    eexists. split; [reflexivity|]. split; [reflexivity|].
    apply length_pair_chapters.
Qed.

(** C2: for an outline of [H > 0] entries and an RTF part with [D]
    documents, the assembly returns [H] chapters; chapter [i < min H D] has
    the title and level of entry [i] and the content, offsets and size of
    document [i], its size the length of the converted content and its
    source index [i], not the sentinel; chapter [i] with [D <= i < H] is the
    placeholder: the fixed message, size 0, offsets 0 and the sentinel -1. *)
Theorem chapters_paired_by_position (rtf_text : str)
        (hierarchy : list hierarchy_item) :
  (0 < length hierarchy)%nat ->
  assembled_by_position rtf_text hierarchy.
Proof.
  intros HH. destruct hierarchy as [|item0 hierarchy]; [simpl in HH; lia|].
  exists (pair_chapters (rtf_documents rtf_text) (item0 :: hierarchy)).
  split; [reflexivity|].
  set (h := item0 :: hierarchy). unfold paired_by_position. cbv zeta.
  split; [apply length_pair_chapters|]. split.
  - intros i Hi.
    destruct (nth_error h i) as [item|] eqn:Eh;
      [|apply nth_error_None in Eh; lia].
    destruct (nth_error (rtf_documents rtf_text) i) as [doc|] eqn:Ed;
      [|apply nth_error_None in Ed; lia].
    exists (pair_chapter (rtf_documents rtf_text) (i, item)), item, doc.
    rewrite nth_error_pair_chapters, Eh. split; [reflexivity|].
    split; [reflexivity|]. split; [reflexivity|].
    destruct (nth_error_rtf_documents _ _ _ Ed) as [Hidx Hsize].
    unfold built_from, pair_chapter. rewrite Ed. cbn.
    rewrite Hidx, Hsize. repeat split. intros [= E]. lia.
  - intros i Hi.
    destruct (nth_error h i) as [item|] eqn:Eh;
      [|apply nth_error_None in Eh; lia].
    assert (Ed : nth_error (rtf_documents rtf_text) i = None)
      by (apply nth_error_None; lia).
    exists (pair_chapter (rtf_documents rtf_text) (i, item)), item.
    rewrite nth_error_pair_chapters, Eh. split; [reflexivity|].
    split; [reflexivity|].
    unfold placeholder_for, pair_chapter. rewrite Ed. cbn. repeat split.
Qed.

End ChapterAssembler.

(** C2 at an outline of three entries and an RTF part of two documents. *)
Lemma chapters_paired_by_position_witness :
  (0 < length THREE_ENTRIES)%nat
  /\ assembled_by_position (rt := reference_runtime) TWO_DOCUMENTS THREE_ENTRIES.
Proof.
  split.
  - simpl. lia.
  - apply (chapters_paired_by_position (rt := reference_runtime)
             TWO_DOCUMENTS THREE_ENTRIES).
    simpl. lia.
Defined.

(** ** HierarchyParser *)

Section HierarchyParser.

Import Py SEFAnalyzer.

Lemma count_cons (c d : char) (s : str) :
  count c (d :: s) = ((if N.eqb c d then 1 else 0) + count c s)%Z.
Proof.
  unfold count, len. simpl. destruct (c =? d); simpl length; lia.
Qed.

Lemma count_nonneg (c : char) (s : str) : (0 <= count c s)%Z.
Proof. unfold count, len. lia. Qed.

(** The scan of the indentation, from any state of its two counters. *)
Lemma scan_indent_spec : forall (line : str) (level space_count : Z),
  (0 <= space_count)%Z ->
  scan_indent line level space_count
  = (level + count TAB (indent_prefix line)
     + ((space_count + count SPACE (indent_prefix line)) / 4 - space_count / 4))%Z.
Proof.
  induction line as [|c line IH]; intros level sc Hsc.
  - cbn [scan_indent indent_prefix]. change (count TAB []) with 0%Z.
    change (count SPACE []) with 0%Z. rewrite !Z.add_0_r. lia.
  - cbn [scan_indent indent_prefix]. unfold is_indent.
    destruct (c =? TAB) eqn:ET.
    + apply N.eqb_eq in ET. subst c. cbn [orb].
      rewrite IH by lia. rewrite !count_cons.
      change (TAB =? TAB) with true. change (SPACE =? TAB) with false.
      cbv iota. rewrite Z.add_0_l. lia.
    + destruct (c =? SPACE) eqn:ES.
      * apply N.eqb_eq in ES. subst c. cbn [orb].
        rewrite !count_cons.
        change (TAB =? SPACE) with false. change (SPACE =? SPACE) with true.
        cbv iota. rewrite Z.add_0_l. pose proof (count_nonneg SPACE (indent_prefix line)) as Hc.
        set (s := count SPACE (indent_prefix line)) in *.
        set (t := count TAB (indent_prefix line)) in *.
        replace (sc + (1 + s))%Z with (sc + 1 + s)%Z by lia.
        destruct ((sc + 1) mod 4 =? 0)%Z eqn:EM.
        -- apply Z.eqb_eq in EM. rewrite IH by lia. fold s t.
           assert ((sc + 1) / 4 = sc / 4 + 1)%Z
             by (revert EM; Z.div_mod_to_equations; lia).
           lia.
        -- apply Z.eqb_neq in EM. rewrite IH by lia. fold s t.
           assert ((sc + 1) / 4 = sc / 4)%Z
             by (revert EM; Z.div_mod_to_equations; lia).
           lia.
      * cbn [orb]. change (count TAB []) with 0%Z.
        change (count SPACE []) with 0%Z. rewrite !Z.add_0_r. lia.
Qed.

Lemma scan_indent_level (line : str) : scan_indent line 0 0 = indent_level line.
Proof.
  rewrite scan_indent_spec by lia. unfold indent_level.
  change (0 / 4)%Z with 0%Z. rewrite Z.add_0_l, Z.sub_0_r. reflexivity.
Qed.

Lemma dropwhile_head (p : char -> bool) : forall s c s',
  dropwhile p s = c :: s' -> p c = false.
Proof.
  induction s as [|d s IH]; intros c s' H; simpl in H; [discriminate|].
  destruct (p d) eqn:E; [eauto|]. now injection H as -> _.
Qed.

Lemma dropwhile_keeps_last (p : char -> bool) (c : char) : forall s,
  p c = false -> dropwhile p (s ++ [c]) <> [].
Proof.
  induction s as [|d s IH]; intros Hc; simpl.
  - now rewrite Hc.
  - destruct (p d); [auto | discriminate].
Qed.

(** A line that is not blank once trimmed on the right keeps a title once
    its leading tabs and spaces are stripped too. *)
Lemma title_not_empty (line : str) :
  is_empty (rstrip line) = false ->
  is_empty (lstrip_chars [TAB; SPACE] (rstrip line)) = false.
Proof.
  unfold rstrip, lstrip_chars.
  destruct (dropwhile isspace (rev line)) as [|c d] eqn:E; [discriminate|].
  intros _. apply dropwhile_head in E. simpl rev.
  match goal with |- is_empty ?x = false => destruct x eqn:E' end; [|reflexivity].
  exfalso. revert E'. apply dropwhile_keeps_last.
  simpl. rewrite orb_false_r. apply orb_false_intro; apply N.eqb_neq; intros ->;
    discriminate.
Qed.

Lemma parse_line_spec (hierarchy : list hierarchy_item) (line : str) :
  parse_line hierarchy line
  = hierarchy ++ map node_of (filter non_blank [rstrip line]).
Proof.
  unfold parse_line. cbn [filter]. unfold non_blank.
  destruct (is_empty (rstrip line)) eqn:E; simpl.
  - now rewrite app_nil_r.
  - rewrite title_not_empty by exact E. simpl.
    now rewrite scan_indent_level.
Qed.

Lemma parse_lines_spec : forall (lines : list str) (hierarchy : list hierarchy_item),
  fold_left parse_line lines hierarchy
  = hierarchy ++ map node_of (filter non_blank (map rstrip lines)).
Proof.
  induction lines as [|line lines IH]; intros hierarchy; simpl.
  - now rewrite app_nil_r.
  - rewrite IH, parse_line_spec. cbn [filter].
    destruct (non_blank (rstrip line)); simpl.
    + now rewrite <- app_assoc.
    + now rewrite app_nil_r.
Qed.

(** C4, as the code has it: every line that is not blank once trimmed on
    the right gives one node, in line order; its title is the trimmed line
    without its leading tabs and spaces, and its level is the number of tabs
    in the leading run of tabs and spaces plus the number of spaces in that
    run divided by four, rounded down (the spaces are counted all together,
    also across tabs).  Two tabs give level 2, eight spaces level 2, three
    spaces level 0. *)
Theorem parse_hierarchy_levels :
  (forall plain_text : str,
      _parse_hierarchy plain_text
      = map node_of (filter non_blank (map rstrip (split LF plain_text))))
  /\ _parse_hierarchy ([TAB; TAB] ++ lit "Alpha")
     = [{| h_title := lit "Alpha"; h_level := 2 |}]
  /\ _parse_hierarchy (lit "        Beta")
     = [{| h_title := lit "Beta"; h_level := 2 |}]
  /\ _parse_hierarchy (lit "   Gamma")
     = [{| h_title := lit "Gamma"; h_level := 0 |}].
Proof.
  split; [|repeat split; reflexivity].
  intros plain_text. unfold _parse_hierarchy. now rewrite parse_lines_spec.
Qed.

(** C4 as it is stated fails on an indentation that mixes tabs and
    spaces: two spaces, a tab and two spaces make no run of four spaces, so
    the stated rule gives level 1, and the parser gives level 2. *)
Lemma mixed_indent_level :
  level_as_specified MIXED_INDENT = 1%Z
  /\ _parse_hierarchy MIXED_INDENT = [{| h_title := lit "X"; h_level := 2 |}]
  /\ map h_level (_parse_hierarchy MIXED_INDENT) <> [level_as_specified MIXED_INDENT].
Proof.
  split; [reflexivity|]. split; [reflexivity|]. discriminate.
Qed.

End HierarchyParser.

(** ** Header, payload and decompression *)

Section Container.

Import Py SEFAnalyzer.
Context {rt : PyRuntime}.

Lemma find_zlib_from_find_from : forall (data : bytes) (i : Z),
  find_zlib_from i data = find_from SIGNATURE i data.
Proof.
  induction data as [|b0 data IH]; intros i; [reflexivity|].
  destruct data as [|b1 data].
  - simpl. now rewrite andb_false_r.
  - change (find_zlib_from i (b0 :: b1 :: data))
      with (if (b0 =? 0x78) && (b1 =? 0x01) then i
            else find_zlib_from (i + 1) (b1 :: data)).
    change (find_from SIGNATURE i (b0 :: b1 :: data))
      with (if (b0 =? 0x78) && ((b1 =? 0x01) && true) then i
            else find_from SIGNATURE (i + 1) (b1 :: data)).
    rewrite andb_true_r, IH. reflexivity.
Qed.

(** What [_find_zlib_start] returns: -1 without the pair, else the offset
    of its first occurrence. *)
Lemma find_zlib_start_cases (data : bytes) :
  (_find_zlib_start data = (-1)%Z /\ forall n, ~ occurs_at SIGNATURE data n)
  \/ (exists n, _find_zlib_start data = Z.of_nat n
                /\ first_occurrence SIGNATURE data n).
Proof.
  unfold _find_zlib_start. rewrite find_zlib_from_find_from.
  destruct (find_from_cases SIGNATURE data 0)
    as [[H1 H2] | (n & H1 & Hn & H3 & H4)].
  - left. split; [exact H1|]. intros n Hocc.
    apply occurs_at_startswith in Hocc as [_ Hocc]. now rewrite H2 in Hocc.
  - right. exists n. split; [rewrite H1; lia|]. split.
    + apply occurs_at_startswith. auto.
    + intros k Hk Hocc. apply occurs_at_startswith in Hocc as [_ Hocc].
      now rewrite H4 in Hocc.
Qed.

Lemma find_zlib_start_absent (data : bytes) :
  (forall n, ~ occurs_at SIGNATURE data n) <-> _find_zlib_start data = (-1)%Z.
Proof.
  destruct (find_zlib_start_cases data) as [[H1 H2] | (n & H1 & [Hocc _])].
  - tauto.
  - split; [intros H; exfalso; exact (H _ Hocc) | lia].
Qed.

Lemma split_chapters_ok (rtf_text : str) (hierarchy : list hierarchy_item) :
  exists chapters, _split_chapters rtf_text hierarchy = Ok chapters.
Proof. destruct hierarchy; eexists; reflexivity. Qed.

(** The body raises only what its first part raises. *)
Lemma analyze_body_raised (data : bytes) (e : failure) :
  analyze_body data = Raised e <-> decompress_payload data = Raised e.
Proof.
  unfold analyze_body. destruct (decompress_payload data) as [d|e'];
    [|split; intros [= ->]; reflexivity].
  destruct (_split_plain_rtf (_decode_text d)) as [plain rtf].
  destruct (split_chapters_ok rtf (_parse_hierarchy plain)) as [chapters ->].
  split; discriminate.
Qed.

Lemma analyze_file_failure (data : bytes) (e : failure) :
  analyze_file data = Failure e <-> decompress_payload data = Raised e.
Proof.
  rewrite <- analyze_body_raised. unfold analyze_file.
  destruct (analyze_body data); split; congruence.
Qed.

(** C6, as the code has it: the analysis fails with TooSmall exactly when
    the buffer is shorter than 16 bytes; a buffer of at least 16 bytes whose
    little-endian 16-bit value at offset 0 is not the magic fails with
    BadMagic; a buffer of at least 16 bytes with the magic and without the
    pair 0x78, 0x01 fails with PayloadNotFound; and whatever the body raises
    is what the call returns as its failure. *)
Theorem header_failures (data : bytes) :
  (analyze_file data = Failure TooSmall <-> (len data < 16)%Z)
  /\ ((16 <= len data)%Z ->
      unpack_le (firstn 2 data) <> MAGIC ->
      analyze_file data = Failure (BadMagic (unpack_le (firstn 2 data))))
  /\ ((16 <= len data)%Z ->
      unpack_le (firstn 2 data) = MAGIC ->
      (forall n, ~ occurs_at SIGNATURE data n) ->
      analyze_file data = Failure PayloadNotFound)
  /\ (forall e, analyze_body data = Raised e -> analyze_file data = Failure e).
Proof.
  split; [|split; [|split]].
  - rewrite analyze_file_failure. unfold decompress_payload.
    destruct (len data <? 16)%Z eqn:E.
    + apply Z.ltb_lt in E. tauto.
    + apply Z.ltb_ge in E. split; [|lia]. intros H. exfalso.
      destruct (negb _); [discriminate|].
      destruct (_ =? -1)%Z; [discriminate|].
      destruct (zlib_decompress _); discriminate.
  - intros Hlen Hmagic. apply analyze_file_failure. unfold decompress_payload.
    apply Z.ltb_ge in Hlen. rewrite Hlen.
    apply N.eqb_neq in Hmagic. now rewrite Hmagic.
  - intros Hlen Hmagic Habsent. apply analyze_file_failure.
    unfold decompress_payload.
    apply Z.ltb_ge in Hlen. rewrite Hlen.
    apply N.eqb_eq in Hmagic. rewrite Hmagic.
    apply find_zlib_start_absent in Habsent. now rewrite Habsent.
  - intros e He. unfold analyze_file. now rewrite He.
Qed.

Lemma startswith_app_long (p : str) : forall s t,
  (length p <= length s)%nat -> startswith (s ++ t) p = startswith s p.
Proof.
  induction p as [|c p IH]; intros s t H; [reflexivity|].
  destruct s as [|d s]; simpl in H; [lia|].
  simpl. rewrite IH by lia. reflexivity.
Qed.

Lemma find_from_skip (sub : str) : forall (a b : str) (i : Z),
  (forall n, (n < length a)%nat -> startswith (skipn n (a ++ b)) sub = false) ->
  find_from sub i (a ++ b) = find_from sub (i + len a)%Z b.
Proof.
  induction a as [|c a IH]; intros b i H.
  - unfold len. simpl. now rewrite Z.add_0_r.
  - pose proof (H 0%nat ltac:(simpl; lia)) as H0. cbn [skipn app] in H0.
    cbn [app find_from]. rewrite H0.
    rewrite IH.
    + f_equal. unfold len. simpl length. lia.
    + intros n Hn. apply (H (S n)). simpl. lia.
Qed.

(** In a signed container the payload is found right after the header
    and decompresses to the payload. *)
Lemma signed_container_located (header z payload : bytes) :
  signed_container header z payload ->
  _find_zlib_start (header ++ z) = 16%Z
  /\ skipn 16 (header ++ z) = z
  /\ decompress_payload (header ++ z) = Ok payload.
Proof.
  intros (Hlen & Hmagic & Habsent & Hsig & Hz).
  assert (Hz2 : exists rest, z = 0x78 :: 0x01 :: rest).
  { destruct z as [|z0 [|z1 rest]]; try discriminate.
    injection Hsig as -> ->. now exists rest. }
  destruct Hz2 as [rest ->].
  assert (Hstart : _find_zlib_start (header ++ 0x78 :: 0x01 :: rest) = 16%Z).
  { unfold _find_zlib_start. rewrite find_zlib_from_find_from, find_from_skip.
    - unfold len. rewrite Hlen. reflexivity.
    - intros n Hn. rewrite skipn_app.
      replace (n - length header)%nat with 0%nat by lia. cbn [skipn].
      destruct (Nat.eq_dec n 15) as [-> | Hne].
      + destruct (skipn 15 header) as [|x [|y l]] eqn:E;
          assert (El := f_equal (@length byte) E);
          rewrite length_skipn, Hlen in El; simpl in El; try lia.
        simpl. now rewrite andb_false_r.
      + rewrite startswith_app_long
          by (rewrite length_skipn; change (length SIGNATURE) with 2%nat; lia).
        destruct (startswith (skipn n header) SIGNATURE) eqn:E; [|reflexivity].
        exfalso. apply (Habsent n). apply occurs_at_startswith. split; [lia | exact E]. }
  assert (Hskip : skipn 16 (header ++ 0x78 :: 0x01 :: rest) = 0x78 :: 0x01 :: rest).
  { rewrite skipn_app, skipn_all2 by lia. rewrite Hlen. reflexivity. }
  split; [exact Hstart|]. split; [exact Hskip|].
  unfold decompress_payload. rewrite Hstart.
  set (z := 0x78 :: 0x01 :: rest) in *.
  assert (Hl : (len (header ++ z) <? 16)%Z = false).
  { apply Z.ltb_ge. unfold len. rewrite length_app. lia. }
  rewrite Hl.
  assert (Hm : firstn 2 (header ++ z) = firstn 2 header).
  { rewrite firstn_app. replace (2 - length header)%nat with 0%nat by lia.
    simpl firstn at 2. apply app_nil_r. }
  rewrite Hm, Hmagic. change (MAGIC =? MAGIC) with true. cbn [negb].
  change (16 =? -1)%Z with false. cbv iota.
  change (Z.to_nat 16) with 16%nat. rewrite Hskip, Hz. reflexivity.
Qed.

(** C9, as the code has it: when the 16-byte header has the magic and
    does not contain the pair 0x78, 0x01, and the zlib stream of [T] starts
    with that pair, the payload is located at offset 16, the bytes handed to
    the decompressor are the stream, and decompression recovers [T]. *)
Theorem decompression_round_trip (header z T : bytes) :
  signed_container header z T ->
  _find_zlib_start (header ++ z) = 16%Z
  /\ skipn 16 (header ++ z) = z
  /\ decompress_payload (header ++ z) = Ok T.
Proof. apply signed_container_located. Qed.

(** ASCII text without NUL decodes to itself. *)
Lemma decode_text_ascii : forall data : bytes,
  Forall (fun b => 0 < b < 0x80) data -> _decode_text data = data.
Proof.
  induction data as [|b data IH]; intros H; [reflexivity|].
  inversion H as [|? ? [Hb0 Hb1] Hrest]; subst.
  cbn [_decode_text].
  destruct (b =? 0) eqn:E0; [apply N.eqb_eq in E0; lia|].
  destruct data as [|b' data'].
  - now apply shift_jis_ascii.
  - destruct (0x81 <=? b) eqn:E1; [apply N.leb_le in E1; lia|].
    rewrite shift_jis_ascii by exact Hb1. rewrite IH by exact Hrest. reflexivity.
Qed.

Lemma scenario_bytes_ascii : Forall (fun b => 0 < b < 0x80) SCENARIO_BYTES.
Proof.
  apply Forall_forall. intros b Hb.
  assert (E : forallb (fun b => (0 <? b) && (b <? 0x80)) SCENARIO_BYTES = true)
    by reflexivity.
  rewrite forallb_forall in E. specialize (E b Hb).
  apply andb_prop in E as [E1 E2].
  apply N.ltb_lt in E1. apply N.ltb_lt in E2. lia.
Qed.

Lemma scenario_split :
  _split_plain_rtf SCENARIO_TEXT
  = (lit "Outline" ++ [LF; TAB] ++ lit "Section A" ++ [LF; TAB]
       ++ lit "Section B" ++ [LF], TWO_DOCUMENTS).
Proof. reflexivity. Qed.

Lemma scenario_chapters :
  _split_chapters TWO_DOCUMENTS THREE_ENTRIES = Ok SCENARIO_CHAPTERS.
Proof. vm_compute. reflexivity. Qed.

(** C3, as the code has it: for a signed container of the scenario's
    text the analysis succeeds with the outline of three entries and three
    chapters paired by position: the first and second carry "A content" and
    "B content", the third is the placeholder. *)
Theorem end_to_end_scenario (header z : bytes) :
  signed_container header z SCENARIO_BYTES ->
  analyze_file (header ++ z)
  = Success {| a_chapters := SCENARIO_CHAPTERS;
               a_hierarchy := THREE_ENTRIES;
               a_file_size := len (header ++ z) |}.
Proof.
  intros H. apply signed_container_located in H as (_ & _ & H).
  unfold analyze_file, analyze_body. rewrite H.
  rewrite decode_text_ascii by apply scenario_bytes_ascii.
  change SCENARIO_BYTES with SCENARIO_TEXT. rewrite scenario_split.
  change (_parse_hierarchy _) with THREE_ENTRIES.
  rewrite scenario_chapters. reflexivity.
Qed.

(** C7 fails on the code: the digits before a date unit are stripped but
    for the last one.  The step turns "2024" before U+5E74 into a space and
    "4"; after U+5E74 it keeps the first digit only; and of the date in
    [DATE_RTF] the conversion keeps "4", not "2024". *)
Theorem date_digits_are_stripped :
  strip_layout_numbers (lit "2024" ++ [NEN]) = [SPACE] ++ lit "4" ++ [NEN]
  /\ strip_layout_numbers ([NEN] ++ lit "2024") = [NEN] ++ lit "2" ++ [SPACE]
  /\ _rtf_to_plain_text DATE_RTF
     = lit "4" ++ [NEN] ++ lit "1" ++ [GATSU] ++ lit "15" ++ [NICHI].
Proof.
  split; [vm_compute; reflexivity|]. split; vm_compute; reflexivity.
Qed.

End Container.

(** ** The properties on concrete buffers *)

Section ConcreteBuffers.

Import SEFAnalyzer.

Lemma header_is_signed (z payload : bytes) :
  firstn 2 z = SIGNATURE ->
  zlib_decompress z = Some payload ->
  signed_container HEADER z payload.
Proof.
  intros Hsig Hz. repeat split; try assumption; try reflexivity.
  apply find_zlib_start_absent. reflexivity.
Qed.

(** C6 as it is stated fails on buffers without the pair 0x78, 0x01 that
    do not pass the header checks: the empty buffer fails with TooSmall and
    sixteen zero bytes fail with BadMagic, not with PayloadNotFound. *)
Lemma buffers_without_pair_fail_earlier :
  (forall n, ~ occurs_at SIGNATURE [] n)
  /\ analyze_file [] = Failure TooSmall
  /\ analyze_file [] <> Failure PayloadNotFound
  /\ (forall n, ~ occurs_at SIGNATURE (repeat 0 16) n)
  /\ analyze_file (repeat 0 16) = Failure (BadMagic 0).
Proof.
  split; [apply find_zlib_start_absent; reflexivity|].
  split; [reflexivity|]. split; [discriminate|].
  split; [apply find_zlib_start_absent; reflexivity | reflexivity].
Qed.

(** C9 as it is stated fails: the stream [zlib.compress] makes of "a" by
    default is a zlib stream of "a", but it does not start with the pair
    0x78, 0x01, and behind a header with the magic the analysis stops with
    PayloadNotFound before the decompression; and behind a header that
    contains the pair, the stored stream of "a" is not what is decompressed:
    the decompression fails. *)
Lemma default_stream_is_not_located :
  zlib_decompress LETTER_A_DEFAULT = Some LETTER_A
  /\ length HEADER = 16%nat
  /\ unpack_le (firstn 2 HEADER) = MAGIC
  /\ decompress_payload (HEADER ++ LETTER_A_DEFAULT) = Raised PayloadNotFound
  /\ analyze_file (HEADER ++ LETTER_A_DEFAULT) = Failure PayloadNotFound
  /\ zlib_decompress LETTER_A_STORED = Some LETTER_A
  /\ length HEADER_WITH_PAIR = 16%nat
  /\ unpack_le (firstn 2 HEADER_WITH_PAIR) = MAGIC
  /\ _find_zlib_start (HEADER_WITH_PAIR ++ LETTER_A_STORED) = 2%Z
  /\ decompress_payload (HEADER_WITH_PAIR ++ LETTER_A_STORED)
     = Raised DecompressionFailure.
Proof. repeat split; vm_compute; reflexivity. Qed.

(** C9 at the header of zeros after the magic and the stored stream of
    "a". *)
Lemma decompression_round_trip_witness :
  signed_container HEADER LETTER_A_STORED LETTER_A
  /\ _find_zlib_start (HEADER ++ LETTER_A_STORED) = 16%Z
  /\ skipn 16 (HEADER ++ LETTER_A_STORED) = LETTER_A_STORED
  /\ decompress_payload (HEADER ++ LETTER_A_STORED) = Ok LETTER_A.
Proof.
  assert (H : signed_container HEADER LETTER_A_STORED LETTER_A)
    by (apply header_is_signed; vm_compute; reflexivity).
  split; [exact H|].
  exact (decompression_round_trip HEADER LETTER_A_STORED LETTER_A H).
Defined.

(** C3 as it is stated fails: on the stored stream of the scenario's text
    the analysis succeeds, but the chapters are paired from the first entry
    on, so the first chapter carries "A content" and the third is the
    placeholder; and on the stream [zlib.compress] makes of the text by
    default, the analysis fails with PayloadNotFound. *)
Lemma scenario_is_paired_from_the_first_entry :
  zlib_decompress SCENARIO_STORED = Some SCENARIO_BYTES
  /\ analyze_file (HEADER ++ SCENARIO_STORED)
     = Success {| a_chapters := SCENARIO_CHAPTERS;
                  a_hierarchy := THREE_ENTRIES;
                  a_file_size := 91 |}
  /\ ~ scenario_as_specified (analyze_file (HEADER ++ SCENARIO_STORED))
  /\ zlib_decompress SCENARIO_DEFAULT = Some SCENARIO_BYTES
  /\ analyze_file (HEADER ++ SCENARIO_DEFAULT) = Failure PayloadNotFound
  /\ ~ scenario_as_specified (analyze_file (HEADER ++ SCENARIO_DEFAULT)).
Proof.
  assert (E : analyze_file (HEADER ++ SCENARIO_STORED)
              = Success {| a_chapters := SCENARIO_CHAPTERS;
                           a_hierarchy := THREE_ENTRIES;
                           a_file_size := 91 |})
    by (vm_compute; reflexivity).
  assert (E' : analyze_file (HEADER ++ SCENARIO_DEFAULT) = Failure PayloadNotFound)
    by (vm_compute; reflexivity).
  split; [vm_compute; reflexivity|]. split; [exact E|].
  split; [|split; [vm_compute; reflexivity|]; split; [exact E'|]].
  - intros (a & c1 & c2 & c3 & Ho & _ & Hc & Hidx & _).
    rewrite E in Ho. injection Ho as <-. cbn [a_chapters] in Hc.
    injection Hc as <- _ _. discriminate Hidx.
  - intros (a & c1 & c2 & c3 & Ho & _). rewrite E' in Ho. discriminate Ho.
Qed.

(** C3 at the header of zeros after the magic and the stored stream of the
    scenario's text. *)
Lemma end_to_end_scenario_witness :
  signed_container HEADER SCENARIO_STORED SCENARIO_BYTES
  /\ analyze_file (HEADER ++ SCENARIO_STORED)
     = Success {| a_chapters := SCENARIO_CHAPTERS;
                  a_hierarchy := THREE_ENTRIES;
                  a_file_size := len (HEADER ++ SCENARIO_STORED) |}.
Proof.
  assert (H : signed_container HEADER SCENARIO_STORED SCENARIO_BYTES)
    by (apply header_is_signed; vm_compute; reflexivity).
  split; [exact H|].
  exact (end_to_end_scenario HEADER SCENARIO_STORED H).
Defined.

End ConcreteBuffers.

(** ** The bounds of the matcher's loops are never reached

    The loops of [Re] are bounded by the length of the text.  The bounds
    are large enough: a larger bound gives the same result. *)
Section LoopBounds.

Import Re.

Lemma star_iter_advances (body : cont -> cont) (k : cont) :
  advances body ->
  forall fuel pre suf z,
    star_iter body k fuel pre suf = Some z ->
    exists pre' suf', k pre' suf' = Some z /\ (length suf' <= length suf)%nat.
Proof.
  intros Hbody. induction fuel as [|fuel IH]; intros pre suf z H; simpl in H.
  - eauto.
  - destruct (body _ pre suf) as [z'|] eqn:E; [|eauto].
    injection H as ->.
    apply Hbody in E as (p1 & s1 & E & Hle).
    destruct (length s1 <? length suf)%nat eqn:Hlt; [|discriminate].
    apply IH in E as (p2 & s2 & E & Hle2). exists p2, s2. split; [exact E | lia].
Qed.

Lemma m_advances (r : regex) : advances (m r).
Proof.
  induction r as [|p|r1 IH1 r2 IH2|r1 IH1|r1 IH1|w r1 IH1| |];
    intros k pre suf z H; cbn [m] in H.
  - eauto.
  - destruct suf as [|c suf]; [discriminate|].
    destruct (p c); [|discriminate]. exists (c :: pre), suf. simpl. auto.
  - apply IH1 in H as (p1 & s1 & H & Hle1).
    apply IH2 in H as (p2 & s2 & H & Hle2). exists p2, s2. split; [exact H | lia].
  - eapply star_iter_advances; eauto.
  - destruct (m r1 _ pre suf); [discriminate | eauto].
  - destruct (length pre <? w)%nat; [eauto|].
    destruct (m r1 _ _ _); [discriminate | eauto].
  - destruct pre as [|c pre]; [eauto|]. destruct (c =? LF); [eauto | discriminate].
  - destruct suf as [|c suf]; [eauto|]. destruct (c =? LF); [eauto | discriminate].
Qed.

Lemma star_iter_ext (body : cont -> cont) :
  extensional body ->
  forall k1 k2, (forall pre suf, k1 pre suf = k2 pre suf) ->
  forall fuel pre suf, star_iter body k1 fuel pre suf = star_iter body k2 fuel pre suf.
Proof.
  intros Hbody k1 k2 Hk. induction fuel as [|fuel IH]; intros pre suf; simpl.
  - apply Hk.
  - rewrite Hk. erewrite Hbody; [reflexivity|].
    intros p s. simpl. now rewrite IH.
Qed.

Lemma m_extensional (r : regex) : extensional (m r).
Proof.
  induction r as [|p|r1 IH1 r2 IH2|r1 IH1|r1 IH1|w r1 IH1| |];
    intros k1 k2 Hk pre suf; cbn [m]; try now rewrite ?Hk.
  - destruct suf as [|c suf]; [reflexivity|]. now rewrite Hk.
  - apply IH1. intros p s. now apply IH2.
  - now apply star_iter_ext.
Qed.

(** The bound of a starred pattern: with more fuel than characters left,
    one more unit of fuel changes nothing. *)
Lemma star_iter_fuel (body : cont -> cont) (k : cont) :
  extensional body ->
  forall fuel pre suf,
    (length suf < fuel)%nat ->
    star_iter body k (S fuel) pre suf = star_iter body k fuel pre suf.
Proof.
  intros Hbody. induction fuel as [|fuel IH]; intros pre suf Hlt; [lia|].
  change (star_iter body k (S (S fuel)) pre suf)
    with (match body (fun pre' suf' =>
                        if (length suf' <? length suf)%nat
                        then star_iter body k (S fuel) pre' suf' else None)
                     pre suf with
          | Some z => Some z
          | None => k pre suf
          end).
  change (star_iter body k (S fuel) pre suf)
    with (match body (fun pre' suf' =>
                        if (length suf' <? length suf)%nat
                        then star_iter body k fuel pre' suf' else None)
                     pre suf with
          | Some z => Some z
          | None => k pre suf
          end).
  erewrite Hbody; [reflexivity|].
  intros p s. simpl. destruct (length s <? length suf)%nat eqn:E; [|reflexivity].
  apply Nat.ltb_lt in E. apply IH. lia.
Qed.

(** A starred pattern as modelled does not depend on its bound. *)
Lemma star_any_fuel (r : regex) (k : cont) (pre suf : str) (n : nat) :
  star_iter (m r) k (S (length suf) + n) pre suf = m (Star r) k pre suf.
Proof.
  cbn [m]. induction n as [|n IH]; [now rewrite Nat.add_0_r|].
  rewrite Nat.add_succ_r, star_iter_fuel; [exact IH | apply m_extensional | lia].
Qed.

Lemma search_eq (r : regex) (must_advance : bool) (skipped_rev pre suf : str) :
  search r must_advance skipped_rev pre suf
  = match m r (fun pre' suf' =>
                 if must_advance && (length suf' =? length suf)%nat
                 then None else Some (pre', suf')) pre suf with
    | Some (pre', suf') =>
        Some {| skipped := rev skipped_rev;
                matched := firstn (length suf - length suf') suf;
                after := (pre', suf') |}
    | None =>
        match suf with
        | [] => None
        | c :: suf1 => search r false (c :: skipped_rev) (c :: pre) suf1
        end
    end.
Proof. destruct suf; reflexivity. Qed.

(** A match found at the position itself leaves less to do. *)
Lemma match_here_decreases (r : regex) (must_advance : bool) (pre suf p s : str) :
  m r (fun pre' suf' =>
         if must_advance && (length suf' =? length suf)%nat
         then None else Some (pre', suf')) pre suf = Some (p, s) ->
  (rounds_left (is_empty (firstn (length suf - length s) suf)) s
   < rounds_left must_advance suf)%nat.
Proof.
  unfold rounds_left. intros E.
  apply m_advances in E as (p' & s' & E & Hle). cbv beta in E.
  destruct (must_advance && (length s' =? length suf)%nat) eqn:Em;
    [discriminate|].
  injection E as <- <-.
  destruct (Nat.eq_dec (length s') (length suf)) as [Heq | Hne].
  - rewrite Heq, Nat.sub_diag. cbn [firstn is_empty].
    rewrite Heq, Nat.eqb_refl, andb_true_r in Em. subst must_advance. lia.
  - destruct (is_empty _); lia.
Qed.

(** A found match leaves less to do. *)
Lemma search_decreases (r : regex) : forall suf must_advance skipped_rev pre f,
  search r must_advance skipped_rev pre suf = Some f ->
  (rounds_left (is_empty (matched f)) (snd (after f))
   < rounds_left must_advance suf)%nat.
Proof.
  induction suf as [|c suf IH]; intros must sk pre f H;
    rewrite search_eq in H;
    match type of H with
    | match ?x with _ => _ end = _ => destruct x as [[p s]|] eqn:E
    end; try discriminate.
  1, 2: injection H as <-; apply match_here_decreases in E; exact E.
  apply IH in H. unfold rounds_left in *. simpl length. destruct must; lia.
Qed.

(** The bound of [re.sub]: with more fuel than there is left to do, one
    more unit of fuel changes nothing. *)
Lemma sub_loop_fuel (r : regex) (repl : str -> str) :
  forall fuel must_advance pre suf,
    (rounds_left must_advance suf < fuel)%nat ->
    sub_loop (S fuel) r repl must_advance pre suf
    = sub_loop fuel r repl must_advance pre suf.
Proof.
  induction fuel as [|fuel IH]; intros must pre suf Hlt; [lia|].
  change (sub_loop (S (S fuel)) r repl must pre suf)
    with (match search r must [] pre suf with
          | None => suf
          | Some f =>
              skipped f ++ repl (matched f)
                ++ sub_loop (S fuel) r repl (is_empty (matched f))
                     (fst (after f)) (snd (after f))
          end).
  change (sub_loop (S fuel) r repl must pre suf)
    with (match search r must [] pre suf with
          | None => suf
          | Some f =>
              skipped f ++ repl (matched f)
                ++ sub_loop fuel r repl (is_empty (matched f))
                     (fst (after f)) (snd (after f))
          end).
  destruct (search r must [] pre suf) as [f|] eqn:E; [|reflexivity].
  apply search_decreases in E. rewrite IH by lia. reflexivity.
Qed.

(** [re.sub] as modelled does not depend on its bound: any larger one
    gives the same text. *)
Lemma sub_with_any_fuel (r : regex) (repl : str -> str) (text : str) (n : nat) :
  sub_loop (2 * length text + 2 + n) r repl false [] text = sub_with r repl text.
Proof.
  unfold sub_with. induction n as [|n IH]; [now rewrite Nat.add_0_r|].
  rewrite Nat.add_succ_r, sub_loop_fuel; [exact IH|].
  unfold rounds_left. lia.
Qed.

End LoopBounds.

(** * Further properties of the analyzer *)

(** ** PayloadLocator and the outcome of the analysis *)
Section Outcome.

Import Py SEFAnalyzer.
Context {rt : PyRuntime}.

Lemma first_occurrence_unique (tok t : str) (n n' : nat) :
  first_occurrence tok t n -> first_occurrence tok t n' -> n = n'.
Proof.
  intros [H1 F1] [H2 F2].
  destruct (Nat.lt_trichotomy n n') as [Hlt | [Heq | Hgt]]; [|exact Heq|].
  - exfalso. exact (F2 _ Hlt H1).
  - exfalso. exact (F1 _ Hgt H2).
Qed.

(** X1: [_find_zlib_start] returns -1 exactly when the buffer holds no
    adjacent pair 0x78, 0x01, and otherwise the offset of the first such
    pair, wherever it lies (in the header too); the offset leaves room for
    the two bytes. *)
Theorem find_zlib_start_first_pair (data : bytes) :
  (_find_zlib_start data = (-1)%Z <-> forall n, ~ occurs_at SIGNATURE data n)
  /\ (forall n, _find_zlib_start data = Z.of_nat n
                <-> first_occurrence SIGNATURE data n)
  /\ (_find_zlib_start data = -1 \/ 0 <= _find_zlib_start data <= len data - 2)%Z.
Proof.
  destruct (find_zlib_start_cases data) as [[H1 H2] | (n & H1 & Hn)].
  - rewrite H1. split; [tauto|]. split.
    + intros n. split; [lia|]. intros [Hocc _]. exfalso. exact (H2 _ Hocc).
    + now left.
  - rewrite H1. split; [|split].
    + split; [lia|]. intros H. exfalso. destruct Hn as [Hocc _]. exact (H _ Hocc).
    + intros n'. split.
      * intros E. apply Nat2Z.inj in E. now subst n'.
      * intros Hn'. f_equal. exact (first_occurrence_unique _ _ _ _ Hn Hn').
    + right. destruct Hn as [Hocc _]. apply occurs_at_bound in Hocc.
      change (length SIGNATURE) with 2%nat in Hocc. unfold len. lia.
Qed.

(** The first part of the body, case by case. *)
Lemma decompress_payload_cases (data : bytes) :
  match decompress_payload data with
  | Raised TooSmall => (len data < 16)%Z
  | Raised (BadMagic magic) =>
      (16 <= len data)%Z /\ magic = unpack_le (firstn 2 data) /\ magic <> MAGIC
  | Raised PayloadNotFound =>
      (16 <= len data)%Z /\ unpack_le (firstn 2 data) = MAGIC
      /\ forall n, ~ occurs_at SIGNATURE data n
  | Raised DecompressionFailure =>
      (16 <= len data)%Z /\ unpack_le (firstn 2 data) = MAGIC
      /\ exists n, first_occurrence SIGNATURE data n
                   /\ zlib_decompress (skipn n data) = None
  | Raised ZeroDivisionError => False
  | Ok payload =>
      (16 <= len data)%Z /\ unpack_le (firstn 2 data) = MAGIC
      /\ exists n, first_occurrence SIGNATURE data n
                   /\ zlib_decompress (skipn n data) = Some payload
  end.
Proof.
  unfold decompress_payload.
  destruct (len data <? 16)%Z eqn:El; [apply Z.ltb_lt in El; exact El|].
  apply Z.ltb_ge in El.
  destruct (unpack_le (firstn 2 data) =? MAGIC) eqn:Em; cbn [negb].
  - apply N.eqb_eq in Em.
    destruct (find_zlib_start_cases data) as [[H1 H2] | (n & H1 & Hn)]; rewrite H1.
    + cbn. auto.
    + assert (Hne : (Z.of_nat n =? -1)%Z = false) by (apply Z.eqb_neq; lia).
      rewrite Hne, Nat2Z.id.
      destruct (zlib_decompress (skipn n data)) eqn:Ez; eauto 6.
  - apply N.eqb_neq in Em. auto.
Qed.

(** X2: the outcome of [analyze_file] tells how far the analysis went:
    TooSmall for fewer than 16 bytes; BadMagic, carrying the value read,
    for a wrong magic; PayloadNotFound without the pair 0x78, 0x01;
    DecompressionFailure when the bytes from the first pair on do not
    decompress; and success otherwise, with the file size, the outline
    parsed from the plain part, and as many chapters as outline entries, or
    one chapter when the outline is empty.  The division by zero of the
    equal split is never the failure. *)
Theorem analyze_file_outcome (data : bytes) :
  match analyze_file data with
  | Failure TooSmall => (len data < 16)%Z
  | Failure (BadMagic magic) =>
      (16 <= len data)%Z /\ magic = unpack_le (firstn 2 data) /\ magic <> MAGIC
  | Failure PayloadNotFound =>
      (16 <= len data)%Z /\ unpack_le (firstn 2 data) = MAGIC
      /\ forall n, ~ occurs_at SIGNATURE data n
  | Failure DecompressionFailure =>
      (16 <= len data)%Z /\ unpack_le (firstn 2 data) = MAGIC
      /\ exists n, first_occurrence SIGNATURE data n
                   /\ zlib_decompress (skipn n data) = None
  | Failure ZeroDivisionError => False
  | Success a =>
      (16 <= len data)%Z /\ unpack_le (firstn 2 data) = MAGIC
      /\ exists n payload,
          first_occurrence SIGNATURE data n
          /\ zlib_decompress (skipn n data) = Some payload
          /\ a_file_size a = len data
          /\ a_hierarchy a
             = _parse_hierarchy (fst (_split_plain_rtf (_decode_text payload)))
          /\ _split_chapters (snd (_split_plain_rtf (_decode_text payload)))
                             (a_hierarchy a) = Ok (a_chapters a)
          /\ length (a_chapters a) = Nat.max 1 (length (a_hierarchy a))
  end.
Proof.
  pose proof (decompress_payload_cases data) as H.
  unfold analyze_file, analyze_body.
  destruct (decompress_payload data) as [payload|e]; [|exact H].
  destruct H as (Hl & Hm & n & Hn & Hz).
  destruct (_split_plain_rtf (_decode_text payload)) as [plain rtf] eqn:Es.
  cbn [fst snd].
  destruct (_parse_hierarchy plain) as [|item hierarchy] eqn:Eh.
  - cbn. split; [exact Hl|]. split; [exact Hm|]. exists n, payload.
    rewrite Es. cbn [fst snd]. rewrite Eh.
    split; [exact Hn|]. split; [exact Hz|]. repeat split.
  - change (_split_chapters rtf (item :: hierarchy))
      with (Ok (pair_chapters (rtf_documents rtf) (item :: hierarchy))).
    cbv iota.
    split; [exact Hl|]. split; [exact Hm|]. exists n, payload.
    cbn [a_file_size a_hierarchy a_chapters].
    rewrite Es. cbn [fst snd]. rewrite Eh.
    split; [exact Hn|]. split; [exact Hz|]. split; [reflexivity|].
    split; [reflexivity|]. split; [reflexivity|].
    rewrite length_pair_chapters. simpl. lia.
Qed.

(** X3: on bytes below 0x80 [_decode_text] drops the NUL bytes and
    keeps every other byte as the character of the same code. *)
Theorem decode_text_ascii_drops_nul (data : bytes) :
  Forall (fun b => b < 0x80) data ->
  _decode_text data = filter (fun b => negb (b =? 0)) data.
Proof.
  induction data as [|b data IH]; intros H; [reflexivity|].
  inversion H as [|? ? Hb Hrest]; subst. specialize (IH Hrest).
  cbn [_decode_text filter].
  destruct (b =? 0) eqn:E0; cbn [negb]; [exact IH|].
  destruct data as [|b' data'].
  - now apply shift_jis_ascii.
  - destruct (0x81 <=? b) eqn:E1; [apply N.leb_le in E1; lia|].
    rewrite shift_jis_ascii by exact Hb. rewrite IH. reflexivity.
Qed.

End Outcome.

(** X3 at the bytes of "a", NUL, "b". *)
Lemma decode_text_ascii_drops_nul_witness :
  Forall (fun b => b < 0x80) [97; 0; 98]
  /\ SEFAnalyzer._decode_text [97; 0; 98]
     = filter (fun b => negb (b =? 0)) [97; 0; 98].
Proof.
  assert (H : Forall (fun b => b < 0x80) [97; 0; 98])
    by (repeat constructor).
  split; [exact H|].
  exact (decode_text_ascii_drops_nul [97; 0; 98] H).
Defined.

(** ** The two parts of the text and the outline *)
Section PartsAndOutline.

Import Py SEFAnalyzer.

Lemma occurs_at_firstn (tok t : str) (n k : nat) :
  occurs_at tok (firstn n t) k ->
  occurs_at tok t k /\ (k + length tok <= n)%nat.
Proof.
  intros Hocc. pose proof (occurs_at_bound _ _ _ Hocc) as Hb.
  rewrite length_firstn in Hb. split; [|lia].
  destruct Hocc as (pre & post & E & Hk).
  exists pre, (post ++ skipn n t). split; [|exact Hk].
  rewrite <- (firstn_skipn n t) at 1. rewrite E, <- !app_assoc. reflexivity.
Qed.

Lemma find_from_hit (sub s : str) (i : Z) :
  startswith s sub = true -> find_from sub i s = i.
Proof. intros H. destruct s; simpl; now rewrite H. Qed.

(** X4: the plain part returned by [_split_plain_rtf] never contains the
    token, and the RTF part is either empty or starts with the token, in
    which case the first document start recorded in it is offset 0. *)
Theorem split_parts_shape (t : str) :
  (forall n, ~ occurs_at RTF_TOKEN (fst (_split_plain_rtf t)) n)
  /\ (snd (_split_plain_rtf t) = []
      \/ (startswith (snd (_split_plain_rtf t)) RTF_TOKEN = true
          /\ exists rest, rtf_starts (snd (_split_plain_rtf t)) = 0%Z :: rest)).
Proof.
  destruct (split_plain_rtf_cases t) as [[Habs ->] | (n & [Hocc Hfirst] & ->)];
    cbn [fst snd].
  - split; [exact Habs | now left].
  - split.
    + intros k Hk. apply occurs_at_firstn in Hk as [Hk Hb].
      change (length RTF_TOKEN) with 5%nat in Hb.
      apply (Hfirst k); [lia | exact Hk].
    + right. apply occurs_at_startswith in Hocc as [_ Hsw].
      split; [exact Hsw|].
      unfold rtf_starts. cbn [rtf_starts_loop]. unfold find.
      cbn [Z.to_nat skipn]. rewrite find_from_hit by exact Hsw.
      cbn [Z.eqb]. eauto.
Qed.

Lemma dropwhile_incl (p : char -> bool) (c : char) : forall s,
  In c (dropwhile p s) -> In c s.
Proof.
  induction s as [|d s IH]; simpl; [tauto|].
  destruct (p d); simpl; tauto.
Qed.

Lemma dropwhile_idem (p : char -> bool) : forall s,
  dropwhile p (dropwhile p s) = dropwhile p s.
Proof.
  induction s as [|d s IH]; simpl; [reflexivity|].
  destruct (p d) eqn:E; [exact IH|]. simpl. now rewrite E.
Qed.

Lemma dropwhile_last (p : char -> bool) (c : char) : forall s,
  p c = false -> exists s', dropwhile p (s ++ [c]) = s' ++ [c].
Proof.
  induction s as [|d s IH]; intros Hc; simpl.
  - rewrite Hc. now exists [].
  - destruct (p d); [auto|]. now exists (d :: s).
Qed.

Lemma rstrip_incl (c : char) (s : str) : In c (rstrip s) -> In c s.
Proof.
  unfold rstrip. rewrite <- in_rev. intros H.
  apply dropwhile_incl in H. now apply in_rev.
Qed.

(** A text trimmed on the right is empty or ends with a character that is
    not whitespace. *)
Lemma rstrip_last (s : str) :
  rstrip s = [] \/ exists s' c, rstrip s = s' ++ [c] /\ isspace c = false.
Proof.
  unfold rstrip. destruct (dropwhile isspace (rev s)) as [|c d] eqn:E.
  - now left.
  - right. exists (rev d), c. split; [reflexivity|].
    eapply dropwhile_head; eauto.
Qed.

Lemma rstrip_fixed (s : str) (c : char) :
  isspace c = false -> rstrip (s ++ [c]) = s ++ [c].
Proof.
  intros Hc. unfold rstrip. rewrite rev_app_distr. simpl. rewrite Hc.
  simpl. now rewrite rev_involutive.
Qed.

Lemma split_no_sep (sep : char) : forall s line,
  In line (split sep s) -> ~ In sep line.
Proof.
  induction s as [|c s IH]; intros line H; simpl in H.
  - destruct H as [<- | []]. tauto.
  - destruct (c =? sep) eqn:E.
    + destruct H as [<- | H]; [tauto | now apply IH].
    + destruct (split sep s) as [|l ls] eqn:Es.
      * destruct H as [<- | []]. intros [-> | []]. now rewrite N.eqb_refl in E.
      * destruct H as [<- | H].
        -- intros [-> | Hin]; [now rewrite N.eqb_refl in E|].
           apply (IH l); [now left | exact Hin].
        -- apply IH. now right.
Qed.

Lemma length_split (sep : char) : forall s,
  length (split sep s) = S (length (filter (N.eqb sep) s)).
Proof.
  induction s as [|c s IH]; [reflexivity|]. simpl.
  rewrite (N.eqb_sym sep c). destruct (c =? sep); simpl.
  - now rewrite IH.
  - destruct (split sep s); simpl in *; lia.
Qed.

(** X5: every node [_parse_hierarchy] emits has a non-empty title that
    does not start with a tab or a space, does not end with whitespace and
    holds no line feed, and a level that is not negative; and there are no
    more nodes than lines. *)
Theorem parse_hierarchy_nodes (plain_text : str) :
  Forall (fun node =>
            h_title node <> []
            /\ lstrip_chars [TAB; SPACE] (h_title node) = h_title node
            /\ rstrip (h_title node) = h_title node
            /\ ~ In LF (h_title node)
            /\ (0 <= h_level node)%Z)
         (_parse_hierarchy plain_text)
  /\ (length (_parse_hierarchy plain_text)
      <= S (length (filter (N.eqb LF) plain_text)))%nat.
Proof.
  unfold _parse_hierarchy. rewrite parse_lines_spec. cbn [app]. split.
  - apply Forall_forall. intros node Hnode.
    apply in_map_iff in Hnode as (line & <- & Hline).
    apply filter_In in Hline as [Hline Hnb].
    apply in_map_iff in Hline as (raw & <- & Hraw).
    unfold non_blank in Hnb. apply negb_true_iff in Hnb.
    cbn [node_of h_title h_level].
    pose proof (title_not_empty raw Hnb) as Ht.
    destruct (rstrip_last raw) as [E | (s' & c & E & Hc)];
      [rewrite E in Hnb; discriminate|].
    split; [|split; [|split; [|split]]].
    + intros E0. rewrite E0 in Ht. discriminate.
    + apply dropwhile_idem.
    + unfold lstrip_chars. rewrite E.
      destruct (dropwhile_last (fun c0 => existsb (N.eqb c0) [TAB; SPACE]) c s')
        as [s'' ->].
      * simpl. rewrite orb_false_r.
        apply orb_false_intro; apply N.eqb_neq; intros ->; discriminate.
      * now apply rstrip_fixed.
    + intros Hin. apply dropwhile_incl, rstrip_incl in Hin.
      exact (split_no_sep _ _ _ Hraw Hin).
    + unfold indent_level.
      pose proof (count_nonneg TAB (indent_prefix (rstrip raw))).
      pose proof (count_nonneg SPACE (indent_prefix (rstrip raw))).
      pose proof (Z.div_pos (count SPACE (indent_prefix (rstrip raw))) 4).
      lia.
  - rewrite length_map. etransitivity; [apply filter_length_le|].
    rewrite length_map, length_split. lia.
Qed.

End PartsAndOutline.

(** ** The extracted documents *)
Section ExtractedDocuments.

Import Py SEFAnalyzer.
Context {rt : PyRuntime}.

(** The loop of the extraction returns the text from the start offset up
    to an offset at or after the one it scans from. *)
Lemma scan_braces_shape (rtf : str) (start : nat) : forall rest pos bc,
  (length rest + pos = length rtf)%nat ->
  exists e, (pos <= e <= length rtf)%nat
            /\ scan_braces rtf start rest pos bc = slice rtf start e.
Proof.
  induction rest as [|c rest IH]; intros pos bc Hl; simpl in *.
  - exists (length rtf). split; [lia|].
    unfold slice, slice_from. rewrite firstn_all2; [reflexivity|].
    rewrite length_skipn. lia.
  - assert (Hnext : forall bc', exists e, (pos <= e <= length rtf)%nat
              /\ scan_braces rtf start rest (pos + 1) bc' = slice rtf start e).
    { intros bc'. destruct (IH (pos + 1)%nat bc' ltac:(lia)) as (e & He & E).
      exists e. split; [lia | exact E]. }
    destruct (c =? LBRACE); [apply Hnext|].
    destruct (c =? RBRACE); [|apply Hnext].
    destruct (bc - 1 =? 0)%Z; [|apply Hnext].
    exists (pos + 1)%nat. split; [lia | reflexivity].
Qed.

Lemma startswith_firstn (s p : str) (n : nat) :
  startswith s p = true -> (length p <= n)%nat -> startswith (firstn n s) p = true.
Proof.
  intros H Hn. apply startswith_inv in H as [post ->].
  rewrite firstn_app. rewrite firstn_all2 by lia. apply startswith_app.
Qed.

(** What the extraction returns, with or without the token at the start
    offset. *)
Lemma extract_cases (rtf : str) (start : nat) :
  (~ occurs_at RTF_TOKEN rtf start /\ _extract_complete_rtf rtf start = [])
  \/ (occurs_at RTF_TOKEN rtf start
      /\ exists e, (start + 5 <= e <= length rtf)%nat
                   /\ _extract_complete_rtf rtf start = slice rtf start e).
Proof.
  destruct (startswith (skipn start rtf) RTF_TOKEN) eqn:Hsw.
  - right.
    assert (Hocc : occurs_at RTF_TOKEN rtf start).
    { apply occurs_at_startswith. split; [|exact Hsw].
      destruct (Nat.le_gt_cases start (length rtf)) as [H | H]; [exact H|].
      rewrite skipn_all2 in Hsw by lia. discriminate. }
    split; [exact Hocc|].
    pose proof (occurs_at_bound _ _ _ Hocc) as Hb.
    change (length RTF_TOKEN) with 5%nat in Hb.
    destruct (extract_at_token _ _ Hocc) as (rest & Hrest & ->).
    destruct (startswith_inv _ _ Hsw) as [post Hpost].
    rewrite Hpost in Hrest. injection Hrest as <-.
    change (scan_braces rtf start (skipn 1 RTF_TOKEN ++ post) (start + 1) 1)
      with (scan_braces rtf start post (start + 1 + 1 + 1 + 1 + 1) 1).
    destruct (scan_braces_shape rtf start post (start + 1 + 1 + 1 + 1 + 1) 1)
      as (e & He & E).
    + assert (El := f_equal (@length N) Hpost).
      rewrite length_skipn, length_app in El.
      change (length RTF_TOKEN) with 5%nat in El. lia.
    + exists e. split; [lia | exact E].
  - left. split.
    + intros Hocc. apply occurs_at_startswith in Hocc as [_ Hocc]. congruence.
    + unfold _extract_complete_rtf, slice_from. rewrite Hsw.
      now destruct (length rtf <=? start)%nat.
Qed.

(** X6: [_extract_complete_rtf] returns the empty string exactly when the
    token does not occur at the start offset (past the end of the text
    included); otherwise it returns the text from the start offset up to
    some end offset within the text, which holds at least the token and
    starts with it. *)
Theorem extract_complete_rtf_edges (rtf_text : str) (start : nat) :
  (_extract_complete_rtf rtf_text start = []
   <-> ~ occurs_at RTF_TOKEN rtf_text start)
  /\ (occurs_at RTF_TOKEN rtf_text start ->
      exists e, (start + 5 <= e <= length rtf_text)%nat
                /\ _extract_complete_rtf rtf_text start = slice rtf_text start e
                /\ startswith (_extract_complete_rtf rtf_text start) RTF_TOKEN = true)
  /\ exists rest, skipn start rtf_text = _extract_complete_rtf rtf_text start ++ rest.
Proof.
  destruct (extract_cases rtf_text start) as [[Hno E] | (Hocc & e & He & E)];
    rewrite E.
  - split; [tauto|]. split; [tauto|]. now exists (skipn start rtf_text).
  - assert (Hlen : length (slice rtf_text start e) = (e - start)%nat).
    { unfold slice. rewrite length_firstn, length_skipn. lia. }
    split; [|split].
    + split; [|tauto]. intros E0. rewrite E0 in Hlen. simpl in Hlen. lia.
    + intros _. exists e. split; [exact He|]. split; [reflexivity|].
      unfold slice. apply startswith_firstn.
      * now apply occurs_at_startswith in Hocc.
      * change (length RTF_TOKEN) with 5%nat. lia.
    + exists (skipn (e - start) (skipn start rtf_text)). unfold slice.
      symmetry. apply firstn_skipn.
Qed.

(** X7: the documents discovered in a text are numbered from 0 in the
    order of their starts; each starts at an occurrence of the token and
    ends within the text, at least five characters later; its raw content
    is the text between its two offsets and starts with the token; and its
    size is the length of its converted content. *)
Theorem rtf_documents_offsets (rtf_text : str) (i : nat) (doc : rtf_document) :
  nth_error (rtf_documents rtf_text) i = Some doc ->
  d_rtf_index doc = Z.of_nat i
  /\ exists s e,
      d_start_pos doc = Z.of_nat s /\ d_end_pos doc = Z.of_nat e
      /\ occurs_at RTF_TOKEN rtf_text s
      /\ (s + 5 <= e <= length rtf_text)%nat
      /\ d_rtf_content doc = slice rtf_text s e
      /\ startswith (d_rtf_content doc) RTF_TOKEN = true
      /\ d_plain_content doc = _rtf_to_plain_text (d_rtf_content doc)
      /\ d_size doc = len (d_plain_content doc).
Proof.
  unfold rtf_documents. rewrite nth_error_map, nth_error_enumerate.
  destruct (nth_error (rtf_starts rtf_text) i) as [z|] eqn:Ez; [|discriminate].
  cbn [option_map]. intros [= <-]. split; [reflexivity|].
  apply nth_error_In, rtf_starts_occurrences in Ez as (s & -> & Hocc).
  cbn [extract_document d_start_pos d_end_pos d_rtf_content d_plain_content d_size].
  rewrite Nat2Z.id.
  destruct (extract_cases rtf_text s) as [[Hno _] | (_ & e & He & E)]; [tauto|].
  exists s, e. rewrite E.
  assert (Hlen : length (slice rtf_text s e) = (e - s)%nat).
  { unfold slice. rewrite length_firstn, length_skipn. lia. }
  repeat split; try tauto; try lia.
  - unfold len. rewrite Hlen. lia.
  - unfold slice. apply startswith_firstn.
    + now apply occurs_at_startswith in Hocc.
    + change (length RTF_TOKEN) with 5%nat. lia.
Qed.

Lemma strongly_sorted_nth_error (l : list Z) :
  StronglySorted Z.lt l ->
  forall i j x y, (i < j)%nat -> nth_error l i = Some x -> nth_error l j = Some y ->
                  (x < y)%Z.
Proof.
  induction 1 as [|a l Hs IH Hall]; intros i j x y Hij Hi Hj.
  - destruct i; discriminate.
  - destruct j as [|j]; [lia|]. simpl in Hj. destruct i as [|i].
    + injection Hi as <-. rewrite Forall_forall in Hall.
      apply Hall. eapply nth_error_In; eauto.
    + simpl in Hi. apply (IH i j x y); [lia | exact Hi | exact Hj].
Qed.

(** A document starts at an offset counted from the left. *)
Lemma rtf_documents_start (rtf_text : str) (i : nat) (doc : rtf_document) :
  nth_error (rtf_documents rtf_text) i = Some doc ->
  exists s, d_start_pos doc = Z.of_nat s.
Proof.
  unfold rtf_documents. rewrite nth_error_map, nth_error_enumerate.
  destruct (nth_error (rtf_starts rtf_text) i) as [z|] eqn:Ez; [|discriminate].
  cbn [option_map]. intros [= <-].
  apply nth_error_In, rtf_starts_occurrences in Ez as (s & -> & _).
  now exists s.
Qed.

(** X8: in the chapters the 1:1 split returns, the placeholders come
    last: a chapter before a chapter built from a document is built from a
    document too, each carries the index of its document as source index,
    and their start offsets increase strictly. *)
Theorem chapters_follow_documents (rtf_text plain_text : str)
        (hierarchy : list hierarchy_item) (chapters : list chapter) :
  _complete_hierarchy_split_chapters rtf_text plain_text hierarchy = Ok chapters ->
  forall i j ci cj,
    (i < j)%nat ->
    nth_error chapters i = Some ci -> nth_error chapters j = Some cj ->
    rtf_index cj <> Some (-1)%Z ->
    rtf_index ci = Some (Z.of_nat i) /\ rtf_index cj = Some (Z.of_nat j)
    /\ (0 <= start_pos ci < start_pos cj)%Z.
Proof.
  intros Hsplit i j ci cj Hij Hi Hj Hreal.
  destruct hierarchy as [|item0 hierarchy]; [discriminate|].
  injection Hsplit as <-.
  rewrite nth_error_pair_chapters in Hi, Hj.
  destruct (nth_error (item0 :: hierarchy) i) as [hi|]; [|discriminate].
  destruct (nth_error (item0 :: hierarchy) j) as [hj|]; [|discriminate].
  cbn [option_map pair_chapter] in Hi, Hj.
  destruct (nth_error (rtf_documents rtf_text) j) as [dj|] eqn:Edj;
    [|injection Hj as <-; cbn in Hreal; congruence].
  destruct (nth_error (rtf_documents rtf_text) i) as [di|] eqn:Edi;
    [|apply nth_error_None in Edi;
      assert (nth_error (rtf_documents rtf_text) j <> None) by congruence;
      apply nth_error_Some in H; lia].
  injection Hi as <-. injection Hj as <-. cbn [rtf_index start_pos].
  destruct (nth_error_rtf_documents _ _ _ Edi) as [Ii _].
  destruct (nth_error_rtf_documents _ _ _ Edj) as [Ij _].
  destruct (rtf_documents_start _ _ _ Edi) as [si Si].
  rewrite Ii, Ij. split; [reflexivity|]. split; [reflexivity|].
  split; [lia|].
  pose proof (document_starts rtf_text) as Hstarts.
  eapply (strongly_sorted_nth_error (map d_start_pos (rtf_documents rtf_text))).
  - rewrite Hstarts. unfold rtf_starts. change 0%Z with (Z.of_nat 0).
    apply rtf_starts_loop_sorted.
  - exact Hij.
  - rewrite nth_error_map, Edi. reflexivity.
  - rewrite nth_error_map, Edj. reflexivity.
Qed.

End ExtractedDocuments.

(** X7 at the nested text and its inner document. *)
Lemma rtf_documents_offsets_witness :
  nth_error (SEFAnalyzer.rtf_documents NESTED_RTF) 1
  = Some {| SEFAnalyzer.d_rtf_index := 1; SEFAnalyzer.d_start_pos := 9;
            SEFAnalyzer.d_end_pos := 18;
            SEFAnalyzer.d_rtf_content := lit "{\rtf1 b}";
            SEFAnalyzer.d_plain_content := lit "b";
            SEFAnalyzer.d_size := 1 |}
  /\ exists s e,
      9%Z = Z.of_nat s /\ 18%Z = Z.of_nat e
      /\ occurs_at SEFAnalyzer.RTF_TOKEN NESTED_RTF s
      /\ (s + 5 <= e <= length NESTED_RTF)%nat
      /\ lit "{\rtf1 b}" = Py.slice NESTED_RTF s e.
Proof.
  assert (H : nth_error (SEFAnalyzer.rtf_documents NESTED_RTF) 1
              = Some {| SEFAnalyzer.d_rtf_index := 1; SEFAnalyzer.d_start_pos := 9;
                        SEFAnalyzer.d_end_pos := 18;
                        SEFAnalyzer.d_rtf_content := lit "{\rtf1 b}";
                        SEFAnalyzer.d_plain_content := lit "b";
                        SEFAnalyzer.d_size := 1 |})
    by (vm_compute; reflexivity).
  split; [exact H|].
  destruct (rtf_documents_offsets NESTED_RTF 1 _ H)
    as (_ & s & e & Hs & He & Hocc & Hb & Hc & _).
  exists s, e. auto.
Defined.

(** X8 at the scenario and its first two chapters. *)
Lemma chapters_follow_documents_witness :
  SEFAnalyzer._complete_hierarchy_split_chapters TWO_DOCUMENTS [] THREE_ENTRIES
  = SEFAnalyzer.Ok SCENARIO_CHAPTERS
  /\ exists ci cj,
      nth_error SCENARIO_CHAPTERS 0 = Some ci
      /\ nth_error SCENARIO_CHAPTERS 1 = Some cj
      /\ SEFAnalyzer.rtf_index ci = Some 0%Z
      /\ SEFAnalyzer.rtf_index cj = Some 1%Z
      /\ (0 <= SEFAnalyzer.start_pos ci < SEFAnalyzer.start_pos cj)%Z.
Proof.
  assert (H : SEFAnalyzer._complete_hierarchy_split_chapters
                TWO_DOCUMENTS [] THREE_ENTRIES
              = SEFAnalyzer.Ok SCENARIO_CHAPTERS)
    by (vm_compute; reflexivity).
  split; [exact H|].
  eexists _, _. split; [reflexivity|]. split; [reflexivity|].
  apply (chapters_follow_documents TWO_DOCUMENTS [] THREE_ENTRIES
           SCENARIO_CHAPTERS H 0%nat 1%nat).
  - lia.
  - reflexivity.
  - reflexivity.
  - discriminate.
Defined.

(** ** The equal split and the splits that lead to it *)
Section EqualSplit.

Import Py SEFAnalyzer.
Context {rt : PyRuntime}.

Lemma nth_error_map_seq {A} (f : nat -> A) (n i : nat) :
  nth_error (map f (seq 0 n)) i = if (i <? n)%nat then Some (f i) else None.
Proof.
  rewrite nth_error_map.
  destruct (i <? n)%nat eqn:E.
  - apply Nat.ltb_lt in E. rewrite nth_error_seq.
    apply Nat.ltb_lt in E. rewrite E. reflexivity.
  - apply Nat.ltb_ge in E.
    assert (H : nth_error (seq 0 n) i = None)
      by (apply nth_error_None; rewrite length_seq; lia).
    now rewrite H.
Qed.

(** X9: [_fallback_equal_split] raises ZeroDivisionError for an empty
    list of items.  For [n > 0] items it returns [n] chapters without level
    and source index, titled from the items in order, that cut the text in
    consecutive ranges: chapter [i] starts at [i] times the chunk size
    (length divided by [n], rounded down), each chapter ends where the next
    starts, the first starts at 0 and the last ends at the end of the text
    (so it takes the remainder of the division); its content is the
    conversion of its range. *)
Theorem fallback_equal_split_ranges (rtf_data plain_text : str)
        (chapter_items : list hierarchy_item) :
  match chapter_items with
  | [] =>
      _fallback_equal_split rtf_data plain_text chapter_items
      = Raised ZeroDivisionError
  | _ :: _ =>
      exists chapters,
        _fallback_equal_split rtf_data plain_text chapter_items = Ok chapters
        /\ length chapters = length chapter_items
        /\ forall i c,
            nth_error chapters i = Some c ->
            (exists item, nth_error chapter_items i = Some item
                          /\ title c = h_title item)
            /\ level c = None /\ rtf_index c = None
            /\ start_pos c
               = (Z.of_nat i * (len rtf_data / len chapter_items))%Z
            /\ (0 <= start_pos c <= end_pos c)%Z
            /\ (end_pos c <= len rtf_data)%Z
            /\ (S i = length chapter_items -> end_pos c = len rtf_data)
            /\ (forall c', nth_error chapters (S i) = Some c' ->
                           start_pos c' = end_pos c)
            /\ content c
               = _rtf_to_plain_text
                   (slice rtf_data (Z.to_nat (start_pos c)) (Z.to_nat (end_pos c)))
            /\ size c = len (content c)
  end.
Proof.
  destruct chapter_items as [|item0 items]; [reflexivity|].
  set (l := item0 :: items).
  assert (Hn : (0 < len l)%Z) by (unfold len, l; simpl length; lia).
  unfold _fallback_equal_split.
  assert (E0 : (len l =? 0)%Z = false) by (apply Z.eqb_neq; lia).
  rewrite E0. eexists. split; [reflexivity|].
  split; [now rewrite length_map, length_seq|].
  set (q := (len rtf_data / len l)%Z).
  assert (Hq : (0 <= q)%Z)
    by (apply Z.div_pos; [unfold len; lia | exact Hn]).
  assert (Hqn : (len l * q <= len rtf_data)%Z)
    by (apply Z.mul_div_le; lia).
  intros i c Hc. rewrite nth_error_map_seq in Hc.
  destruct (i <? length l)%nat eqn:Ei; [|discriminate].
  apply Nat.ltb_lt in Ei. injection Hc as <-.
  cbn [equal_split_chapter title level rtf_index start_pos end_pos content size].
  destruct (nth_error l i) as [item|] eqn:El;
    [|apply nth_error_None in El; lia].
  assert (Hend : (Z.of_nat i * q
                  <= (if (Z.of_nat i <? len l - 1)%Z
                      then (Z.of_nat i + 1) * q else len rtf_data)
                  <= len rtf_data)%Z).
  { unfold len in *. destruct (Z.of_nat i <? Z.of_nat (length l) - 1)%Z eqn:Elt.
    - apply Z.ltb_lt in Elt. nia.
    - apply Z.ltb_ge in Elt. nia. }
  split; [eauto|]. split; [reflexivity|]. split; [reflexivity|].
  split; [reflexivity|]. split; [nia|]. split; [lia|]. split; [|split].
  - intros Hlast.
    assert (Elt : (Z.of_nat i <? len l - 1)%Z = false)
      by (apply Z.ltb_ge; unfold len; lia).
    now rewrite Elt.
  - intros c' Hc'. rewrite nth_error_map_seq in Hc'.
    destruct (S i <? length l)%nat eqn:Ei'; [|discriminate].
    apply Nat.ltb_lt in Ei'. injection Hc' as <-.
    cbn [equal_split_chapter start_pos].
    assert (Elt : (Z.of_nat i <? len l - 1)%Z = true)
      by (apply Z.ltb_lt; unfold len; lia).
    rewrite Elt. f_equal. lia.
  - split; reflexivity.
Qed.

(** X10: the 1:1 split, and [_equal_split_chapters] which only calls it,
    raise exactly when they are given no item, and then the division by
    zero of the equal split; with items they return the positional pairing,
    so the equal split never supplies their chapters.  [_split_chapters]
    never raises. *)
Theorem one_to_one_split_raises (rtf_data plain_text : str)
        (items : list hierarchy_item) :
  (forall e, _complete_hierarchy_split_chapters rtf_data plain_text items = Raised e
             <-> items = [] /\ e = ZeroDivisionError)
  /\ (forall e, _equal_split_chapters rtf_data plain_text items = Raised e
                <-> items = [] /\ e = ZeroDivisionError)
  /\ (items <> [] ->
      _equal_split_chapters rtf_data plain_text items
      = Ok (pair_chapters (rtf_documents rtf_data) items))
  /\ (forall e, _split_chapters rtf_data items <> Raised e).
Proof.
  assert (H : forall e,
             _complete_hierarchy_split_chapters rtf_data plain_text items = Raised e
             <-> items = [] /\ e = ZeroDivisionError).
  { intros e. destruct items as [|item items].
    - cbn. split; [intros [= <-]; auto | intros [_ ->]; reflexivity].
    - change (_complete_hierarchy_split_chapters rtf_data plain_text (item :: items))
        with (Ok (pair_chapters (rtf_documents rtf_data) (item :: items))).
      split; [discriminate | intros [[=] _]]. }
  split; [exact H|]. split; [exact H|]. split.
  - destruct items; [congruence | reflexivity].
  - intros e. destruct (split_chapters_ok rtf_data items) as [chapters ->].
    discriminate.
Qed.

(** X11: [_split_rtf_by_natural_boundaries] never raises and does not
    look at the structure it is given.  With at most one item it returns a
    single chapter over the whole text, titled from the item or with the
    fixed title, without level; with more items it returns the positional
    pairing, one chapter per item. *)
Theorem natural_boundaries_split (rtf_data : str) (structure : rtf_structure)
        (chapter_items : list hierarchy_item) :
  exists chapters,
    _split_rtf_by_natural_boundaries rtf_data structure chapter_items = Ok chapters
    /\ length chapters = Nat.max 1 (length chapter_items)
    /\ match chapter_items with
       | _ :: _ :: _ =>
           chapters = pair_chapters (rtf_documents rtf_data) chapter_items
       | few =>
           chapters
           = [{| title := match few with
                          | item :: _ => h_title item
                          | [] => MAIN_TEXT_TITLE
                          end;
                 content := _rtf_to_plain_text rtf_data; level := None;
                 start_pos := 0; end_pos := len rtf_data;
                 size := len (_rtf_to_plain_text rtf_data);
                 rtf_index := None |}]
       end.
Proof.
  unfold _split_rtf_by_natural_boundaries.
  destruct chapter_items as [|item1 [|item2 items]].
  - eexists. split; [reflexivity|]. split; reflexivity.
  - eexists. split; [reflexivity|]. split; reflexivity.
  - set (l := item1 :: item2 :: items).
    assert (E1 : (len l <=? 1)%Z = false)
      by (apply Z.leb_gt; unfold len, l; simpl length; lia).
    rewrite E1.
    exists (pair_chapters (rtf_documents rtf_data) l). split.
    + now destruct (len l <=? 5)%Z.
    + split; [|reflexivity]. rewrite length_pair_chapters.
      unfold l. simpl length. lia.
Qed.

End EqualSplit.

(** ** The tree of the viewer *)
Section OutlineTree.

Import SEFAnalyzer SEFReaderGUI.

Lemma map_get_filter (g : Z -> bool) (k : Z) : forall m : parent_map,
  map_get (filter (fun e => g (fst e)) m) k
  = if g k then map_get m k else None.
Proof.
  unfold map_get. induction m as [|e m IH]; simpl.
  - now destruct (g k).
  - destruct (g (fst e)) eqn:Eg; simpl.
    + destruct (fst e =? k)%Z eqn:Ek; [|exact IH].
      apply Z.eqb_eq in Ek. rewrite <- Ek, Eg. reflexivity.
    + rewrite IH. destruct (fst e =? k)%Z eqn:Ek; [|reflexivity].
      apply Z.eqb_eq in Ek. rewrite <- Ek, Eg. reflexivity.
Qed.

(** The parent map after an item is recorded at its level and the deeper
    levels are cleared. *)
Lemma map_get_update (m : parent_map) (level : Z) (item : nat) (k : Z) :
  map_get (clear_above (map_set m level item) level) k
  = if (k =? level)%Z then Some item
    else if (level <? k)%Z then None
    else map_get m k.
Proof.
  unfold clear_above, map_set. cbn [filter fst].
  rewrite Z.ltb_irrefl. cbn [negb].
  unfold map_get at 1. cbn [List.find fst snd].
  rewrite (Z.eqb_sym level k).
  destruct (k =? level)%Z eqn:Ek; [reflexivity|].
  change (match List.find (fun e => (fst e =? k)%Z) ?l with
          | Some e => Some (snd e) | None => None end) with (map_get l k).
  rewrite (map_get_filter (fun key => negb (level <? key)%Z)).
  rewrite (map_get_filter (fun key => negb (key =? level)%Z)).
  rewrite Ek. now destruct (level <? k)%Z.
Qed.

(** The search of the parent level, downwards from [parent_level]. *)
Lemma nearest_level_spec (m : parent_map) : forall (tries : nat) parent_level,
  match nearest_level m tries parent_level with
  | Some j =>
      exists k, (parent_level - Z.of_nat tries < k <= parent_level)%Z
                /\ map_get m k = Some j
                /\ forall k', (k < k' <= parent_level)%Z -> map_get m k' = None
  | None =>
      forall k, (parent_level - Z.of_nat tries < k <= parent_level)%Z ->
                map_get m k = None
  end.
Proof.
  induction tries as [|tries IH]; intros pl; cbn [nearest_level].
  - intros k Hk. lia.
  - destruct (map_get m pl) as [j|] eqn:E.
    + exists pl. split; [lia|]. split; [exact E|]. intros k' Hk'. lia.
    + specialize (IH (pl - 1)%Z).
      destruct (nearest_level m tries (pl - 1)) as [j|].
      * destruct IH as (k & Hk & Hget & Hnone). exists k.
        split; [lia|]. split; [exact Hget|]. intros k' Hk'.
        destruct (Z.eq_dec k' pl) as [-> | Hne]; [exact E | apply Hnone; lia].
      * intros k Hk.
        destruct (Z.eq_dec k pl) as [-> | Hne]; [exact E | apply IH; lia].
Qed.

(** With no open entry at the levels from [lo] up to [level], every entry
    from [jmin] on that is deeper than [lo] is at least as deep as [level]. *)
Lemma open_entries_are_deep (done : list Z) (m : parent_map) (lo level : Z)
      (jmin : nat) :
  tracks_open_entries done m ->
  (forall k, (lo < k < level)%Z -> map_get m k = None) ->
  (forall j l, (jmin <= j)%nat -> nth_error done j = Some l -> (lo < l)%Z) ->
  forall j l, (jmin <= j)%nat -> nth_error done j = Some l -> (level <= l)%Z.
Proof.
  intros Hinv Hnone Hlo.
  assert (H : forall d j l, (j + d = length done)%nat -> (jmin <= j)%nat ->
                            nth_error done j = Some l -> (level <= l)%Z).
  { induction d as [d IH] using lt_wf_ind. intros j l Hd Hj Hl.
    destruct (Z_lt_le_dec l level) as [Hlt | Hge]; [|exact Hge].
    exfalso.
    assert (Hget : map_get m l = Some j).
    { apply Hinv. split; [exact Hl|]. intros j' l' Hj' Hl'.
      assert (Hlen : (j' < length done)%nat)
        by (apply nth_error_Some; congruence).
      pose proof (IH (length done - j')%nat ltac:(lia) j' l' ltac:(lia)
                     ltac:(lia) Hl').
      lia. }
    rewrite Hnone in Hget; [discriminate|].
    split; [exact (Hlo _ _ Hj Hl) | exact Hlt]. }
  intros j l Hj Hl.
  assert (Hlen : (j < length done)%nat) by (apply nth_error_Some; congruence).
  apply (H (length done - j)%nat j l); [lia | exact Hj | exact Hl].
Qed.

(** The parent found for an entry of level [level] that follows the
    entries of levels [done]. *)
Lemma parent_found (done : list Z) (m : parent_map) (level : Z) (tail : list Z) :
  tracks_open_entries done m ->
  Forall (fun l => (0 <= l)%Z) done ->
  (0 <= level)%Z ->
  parent_of_entry (done ++ level :: tail) (length done)
    (if (0 <? level)%Z then nearest_level m (Z.to_nat level) (level - 1)%Z
     else None).
Proof.
  intros Hinv Hnonneg Hlevel.
  assert (Hi : nth_error (done ++ level :: tail) (length done) = Some level)
    by (rewrite nth_error_app2, Nat.sub_diag by lia; reflexivity).
  assert (Hpre : forall k, (k < length done)%nat ->
            nth_error (done ++ level :: tail) k = nth_error done k)
    by (intros k Hk; apply nth_error_app1; exact Hk).
  rewrite Forall_forall in Hnonneg.
  destruct (0 <? level)%Z eqn:Epos.
  - apply Z.ltb_lt in Epos.
    pose proof (nearest_level_spec m (Z.to_nat level) (level - 1)) as Hsearch.
    rewrite Z2Nat.id in Hsearch by lia.
    destruct (nearest_level m (Z.to_nat level) (level - 1)) as [j|].
    + destruct Hsearch as (k & Hk & Hget & Hnone).
      apply Hinv in Hget as [Hj Hafter].
      assert (Hjlen : (j < length done)%nat)
        by (apply nth_error_Some; congruence).
      exists k, level. split; [exact Hjlen|]. split; [now rewrite Hpre|].
      split; [exact Hi|]. split; [lia|].
      intros j' l' Hj' Hl'. rewrite Hpre in Hl' by lia.
      apply (open_entries_are_deep done m k level (S j) Hinv) with (j := j');
        [ | | lia | exact Hl'].
      * intros k' Hk'. apply Hnone. lia.
      * intros j0 l0 Hj0 Hl0. apply (Hafter j0 l0); [lia | exact Hl0].
    + intros li Hli k lk Hk Hlk. rewrite Hi in Hli. injection Hli as <-.
      rewrite Hpre in Hlk by exact Hk.
      apply (open_entries_are_deep done m (-1) level 0 Hinv) with (j := k);
        [ | | lia | exact Hlk].
      * intros k' Hk'. apply Hsearch. lia.
      * intros j0 l0 _ Hl0. apply nth_error_In, Hnonneg in Hl0. lia.
  - apply Z.ltb_ge in Epos.
    intros li Hli k lk Hk Hlk. rewrite Hi in Hli. injection Hli as <-.
    rewrite Hpre in Hlk by exact Hk. apply nth_error_In, Hnonneg in Hlk. lia.
Qed.

(** The parent map keeps tracking the open entries. *)
Lemma tracks_open_entries_step (done : list Z) (m : parent_map) (level : Z) :
  tracks_open_entries done m ->
  tracks_open_entries (done ++ [level])
    (clear_above (map_set m level (length done)) level).
Proof.
  intros Hinv k j. rewrite map_get_update.
  assert (Hlast : nth_error (done ++ [level]) (length done) = Some level)
    by (rewrite nth_error_app2, Nat.sub_diag by lia; reflexivity).
  assert (Hlen : forall j0 l0, nth_error (done ++ [level]) j0 = Some l0 ->
            ((j0 < length done)%nat /\ nth_error done j0 = Some l0)
            \/ (j0 = length done /\ l0 = level)).
  { intros j0 l0 H.
    destruct (Nat.lt_ge_cases j0 (length done)) as [Hlt | Hge].
    - left. rewrite nth_error_app1 in H by exact Hlt. auto.
    - right. assert (H0 : (j0 < length (done ++ [level]))%nat)
        by (apply nth_error_Some; congruence).
      rewrite length_app in H0. simpl in H0.
      assert (j0 = length done) by lia. subst j0.
      rewrite Hlast in H. injection H as <-. auto. }
  destruct (k =? level)%Z eqn:Ek.
  - apply Z.eqb_eq in Ek. subst k. split.
    + intros [= <-]. split; [exact Hlast|].
      intros j' l' Hj' Hl'. apply Hlen in Hl' as [[? _] | [? _]]; lia.
    + intros [Hj Hafter]. f_equal.
      apply Hlen in Hj as [[Hj _] | [Hj _]]; [|now symmetry].
      pose proof (Hafter (length done) level Hj Hlast). lia.
  - apply Z.eqb_neq in Ek.
    assert (Hold : forall j0, nth_error (done ++ [level]) j0 = Some k ->
              (j0 < length done)%nat /\ nth_error done j0 = Some k).
    { intros j0 H. apply Hlen in H as [H | [_ H]]; [exact H | congruence]. }
    destruct (level <? k)%Z eqn:El.
    + apply Z.ltb_lt in El. split; [discriminate|].
      intros [Hj Hafter]. apply Hold in Hj as [Hj _].
      pose proof (Hafter (length done) level Hj Hlast). lia.
    + apply Z.ltb_ge in El. rewrite (Hinv k j). split.
      * intros [Hj Hafter].
        assert (Hjlen : (j < length done)%nat)
          by (apply nth_error_Some; congruence).
        split; [now rewrite nth_error_app1|].
        intros j' l' Hj' Hl'. apply Hlen in Hl' as [[_ Hl'] | [_ ->]];
          [exact (Hafter _ _ Hj' Hl') | lia].
      * intros [Hj Hafter]. apply Hold in Hj as [Hjlen Hj].
        split; [exact Hj|]. intros j' l' Hj' Hl'.
        assert (Hj'len : (j' < length done)%nat)
          by (apply nth_error_Some; congruence).
        apply (Hafter j' l' Hj'). now rewrite nth_error_app1.
Qed.

(** The items inserted for the entries [rest] that follow the entries of
    levels [done]. *)
Lemma insert_items_spec (n_chapters : Z) : forall rest done m,
  tracks_open_entries done m ->
  Forall (fun l => (0 <= l)%Z) done ->
  Forall (fun item => (0 <= h_level item)%Z) rest ->
  length (insert_items n_chapters rest (length done) m) = length rest
  /\ forall p item node,
      nth_error rest p = Some item ->
      nth_error (insert_items n_chapters rest (length done) m) p = Some node ->
      ti_text node = h_title item
      /\ ti_unique_id node = Z.of_nat (length done + p)
      /\ ti_tag node = (if (Z.of_nat (length done + p) <? n_chapters)%Z
                        then chapter_tag else folder_tag)
      /\ parent_of_entry (done ++ map h_level rest) (length done + p)
                         (ti_parent node).
Proof.
  induction rest as [|item0 rest IH]; intros done m Hinv Hdone Hrest.
  - split; [reflexivity|]. intros [|p] item node H; discriminate.
  - inversion Hrest as [|? ? Hlevel Hrest']; subst.
    specialize (IH (done ++ [h_level item0])
                   (clear_above (map_set m (h_level item0) (length done))
                                (h_level item0))
                   (tracks_open_entries_step _ _ _ Hinv)).
    assert (Hdone' : Forall (fun l => (0 <= l)%Z) (done ++ [h_level item0]))
      by (apply Forall_app; split; [exact Hdone | now constructor]).
    specialize (IH Hdone' Hrest').
    rewrite length_app in IH. simpl length in IH.
    rewrite Nat.add_1_r in IH. destruct IH as [IHlen IH].
    cbn [insert_items]. split; [simpl; now rewrite IHlen|].
    intros [|p] item node Hitem Hnode.
    + injection Hitem as <-. injection Hnode as <-.
      cbn [ti_text ti_unique_id ti_tag ti_parent]. rewrite Nat.add_0_r.
      split; [reflexivity|]. split; [reflexivity|]. split; [reflexivity|].
      cbn [map]. apply parent_found; assumption.
    + cbn [nth_error] in Hitem, Hnode.
      destruct (IH p item node Hitem Hnode) as (Ht & Hu & Hg & Hp).
      replace (length done + S p)%nat with (S (length done) + p)%nat by lia.
      split; [exact Ht|]. split; [exact Hu|]. split; [exact Hg|].
      cbn [map]. rewrite <- app_assoc in Hp. exact Hp.
Qed.

(** X12: for an outline whose levels are not negative, [populate_tree]
    inserts one item per entry, in order, with the entry's title as text
    and its index as unique id, tagged as chapter when a chapter exists at
    that index and as folder otherwise; the parent of an item is the
    nearest entry before it with a smaller level, and the root when there
    is none. *)
Theorem populate_tree_parents (hierarchy : list hierarchy_item)
        (chapters : list chapter) :
  Forall (fun item => (0 <= h_level item)%Z) hierarchy ->
  tree_of_outline hierarchy (len chapters) (populate_tree hierarchy chapters).
Proof.
  intros Hlevels. unfold populate_tree, tree_of_outline.
  assert (Hinv : tracks_open_entries [] []).
  { intros k j. split; [discriminate|]. intros [H _]. destruct j; discriminate. }
  exact (insert_items_spec (len chapters) hierarchy [] [] Hinv
                           (Forall_nil _) Hlevels).
Qed.

(** The levels of a parsed outline are not negative. *)
Lemma parse_hierarchy_levels_nonneg (plain_text : str) :
  Forall (fun item => (0 <= h_level item)%Z) (_parse_hierarchy plain_text).
Proof.
  unfold _parse_hierarchy. rewrite parse_lines_spec. cbn [app].
  apply Forall_forall. intros node Hnode.
  apply in_map_iff in Hnode as (line & <- & _).
  cbn [node_of h_level]. unfold indent_level.
  pose proof (count_nonneg TAB (indent_prefix line)).
  pose proof (count_nonneg SPACE (indent_prefix line)).
  pose proof (Z.div_pos (count SPACE (indent_prefix line)) 4).
  lia.
Qed.

Context {rt : PyRuntime}.

(** What a successful analysis holds: the outline parsed from a text, and
    the chapters split for that outline. *)
Lemma analyze_file_success (data : bytes) (a : analysis) :
  analyze_file data = Success a ->
  exists plain_part rtf_part,
    a_hierarchy a = _parse_hierarchy plain_part
    /\ _split_chapters rtf_part (a_hierarchy a) = Ok (a_chapters a).
Proof.
  unfold analyze_file, analyze_body.
  destruct (decompress_payload data) as [payload|e]; [|discriminate].
  destruct (_split_plain_rtf (_decode_text payload)) as [plain_part rtf_part].
  destruct (_split_chapters rtf_part (_parse_hierarchy plain_part))
    as [chapters|e] eqn:E; [|discriminate].
  intros [= <-]. exists plain_part, rtf_part. cbn [a_hierarchy a_chapters].
  split; [reflexivity | exact E].
Qed.

(** X13: after a successful analysis, the tree the viewer builds from the
    outline and the chapters of the analysis has one item per outline entry,
    each under the nearest entry before it with a smaller level; every item
    is tagged as chapter, and selecting it shows the chapter at its rank,
    whose title is the item's text.  With an empty outline the tree has no
    item, although the analysis holds one chapter. *)
Theorem analysed_file_tree (data : bytes) (a : analysis) :
  analyze_file data = Success a ->
  tree_of_outline (a_hierarchy a) (len (a_chapters a))
                  (populate_tree (a_hierarchy a) (a_chapters a))
  /\ selects_own_chapter (a_chapters a)
                         (populate_tree (a_hierarchy a) (a_chapters a))
  /\ (a_hierarchy a = [] ->
      populate_tree (a_hierarchy a) (a_chapters a) = []
      /\ length (a_chapters a) = 1%nat).
Proof.
  intros Ha. apply analyze_file_success in Ha as (plain_part & rtf_part & Hh & Hc).
  assert (Htree : tree_of_outline (a_hierarchy a) (len (a_chapters a))
                    (populate_tree (a_hierarchy a) (a_chapters a))).
  { assert (Hinv : tracks_open_entries [] []).
    { intros k j. split; [discriminate|]. intros [H _]. destruct j; discriminate. }
    refine (insert_items_spec (len (a_chapters a)) (a_hierarchy a) [] [] Hinv
                              (Forall_nil _) _).
    rewrite Hh. apply parse_hierarchy_levels_nonneg. }
  split; [exact Htree|].
  destruct (a_hierarchy a) as [|item hierarchy] eqn:Eh.
  - unfold _split_chapters in Hc. cbn [is_empty] in Hc. injection Hc as Hc.
    split.
    + intros [|i] node H; discriminate H.
    + intros _. split; [reflexivity|]. now rewrite <- Hc.
  - split; [|discriminate].
    change (_split_chapters rtf_part (item :: hierarchy))
      with (Ok (pair_chapters (rtf_documents rtf_part) (item :: hierarchy)))
      in Hc.
    injection Hc as Hc.
    destruct Htree as [Hlen Hitems]. intros i node Hnode.
    assert (Hi : (i < length (item :: hierarchy))%nat)
      by (rewrite <- Hlen; apply nth_error_Some; congruence).
    destruct (nth_error (item :: hierarchy) i) as [entry|] eqn:Eentry;
      [|apply nth_error_None in Eentry; lia].
    destruct (Hitems i entry node Eentry Hnode) as (Ht & Hu & Hg & _).
    assert (Hn : len (a_chapters a) = Z.of_nat (length (item :: hierarchy)))
      by (rewrite <- Hc; unfold len; now rewrite length_pair_chapters).
    assert (Hlt : (Z.of_nat i <? len (a_chapters a))%Z = true)
      by (apply Z.ltb_lt; lia).
    rewrite Hlt in Hg. split; [exact Hg|].
    exists (pair_chapter (rtf_documents rtf_part) (i, entry)).
    assert (Hth : nth_error (a_chapters a) i
                  = Some (pair_chapter (rtf_documents rtf_part) (i, entry)))
      by (rewrite <- Hc, nth_error_pair_chapters, Eentry; reflexivity).
    split; [|split; [exact Hth|]].
    + unfold selected_chapter. rewrite Hu, Hlt, Nat2Z.id. exact Hth.
    + rewrite Ht. unfold pair_chapter.
      now destruct (nth_error (rtf_documents rtf_part) i).
Qed.

End OutlineTree.

(** X12 at the outline of three entries and the chapters of the scenario. *)
Lemma populate_tree_parents_witness :
  Forall (fun item => (0 <= SEFAnalyzer.h_level item)%Z) THREE_ENTRIES
  /\ tree_of_outline THREE_ENTRIES (len SCENARIO_CHAPTERS)
       (SEFReaderGUI.populate_tree THREE_ENTRIES SCENARIO_CHAPTERS).
Proof.
  assert (H : Forall (fun item => (0 <= SEFAnalyzer.h_level item)%Z) THREE_ENTRIES)
    by (repeat constructor; simpl; lia).
  split; [exact H|].
  exact (populate_tree_parents THREE_ENTRIES SCENARIO_CHAPTERS H).
Defined.

(** X13 at the header of zeros after the magic and the stored stream of the
    scenario's text. *)
Lemma analysed_file_tree_witness :
  SEFAnalyzer.analyze_file (HEADER ++ SCENARIO_STORED)
  = SEFAnalyzer.Success {| SEFAnalyzer.a_chapters := SCENARIO_CHAPTERS;
                           SEFAnalyzer.a_hierarchy := THREE_ENTRIES;
                           SEFAnalyzer.a_file_size := 91 |}
  /\ tree_of_outline THREE_ENTRIES (len SCENARIO_CHAPTERS)
       (SEFReaderGUI.populate_tree THREE_ENTRIES SCENARIO_CHAPTERS)
  /\ selects_own_chapter SCENARIO_CHAPTERS
       (SEFReaderGUI.populate_tree THREE_ENTRIES SCENARIO_CHAPTERS).
Proof.
  assert (E : SEFAnalyzer.analyze_file (HEADER ++ SCENARIO_STORED)
              = SEFAnalyzer.Success
                  {| SEFAnalyzer.a_chapters := SCENARIO_CHAPTERS;
                     SEFAnalyzer.a_hierarchy := THREE_ENTRIES;
                     SEFAnalyzer.a_file_size := 91 |})
    by (vm_compute; reflexivity).
  split; [exact E|].
  destruct (analysed_file_tree (HEADER ++ SCENARIO_STORED) _ E) as (H1 & H2 & _).
  split; [exact H1 | exact H2].
Defined.

(** ** The logical order of the chapters *)
Section LogicalOrder.

Import Py SEFAnalyzer.

Lemma insert_by_perm {A} (key : A -> Z) (x : A) : forall l,
  Permutation (insert_by key x l) (x :: l).
Proof.
  induction l as [|y l IH]; simpl; [reflexivity|].
  destruct (key x <=? key y)%Z; [reflexivity|].
  rewrite IH. apply perm_swap.
Qed.

Lemma sorted_by_perm {A} (key : A -> Z) : forall l,
  Permutation (sorted_by key l) l.
Proof.
  induction l as [|x l IH]; simpl; [reflexivity|].
  rewrite insert_by_perm. now constructor.
Qed.

Lemma insert_by_sorted {A} (key : A -> Z) (x : A) : forall l,
  StronglySorted (fun a b => (key a <= key b)%Z) l ->
  StronglySorted (fun a b => (key a <= key b)%Z) (insert_by key x l).
Proof.
  induction l as [|y l IH]; intros Hs; simpl.
  - constructor; constructor.
  - inversion Hs as [|? ? Hl Hy]; subst.
    destruct (key x <=? key y)%Z eqn:E.
    + apply Z.leb_le in E. constructor; [exact Hs|].
      constructor; [exact E|].
      eapply Forall_impl; [|exact Hy]. intros a Ha. simpl in Ha. lia.
    + apply Z.leb_gt in E. constructor; [apply IH; exact Hl|].
      apply (Permutation_Forall (Permutation_sym (insert_by_perm key x l))).
      constructor; [lia | exact Hy].
Qed.

Lemma sorted_by_sorted {A} (key : A -> Z) : forall l,
  StronglySorted (fun a b => (key a <= key b)%Z) (sorted_by key l).
Proof.
  induction l as [|x l IH]; simpl; [constructor|].
  apply insert_by_sorted, IH.
Qed.

(** The sort is stable: the elements of one key keep their order. *)
Lemma insert_by_filter {A} (key : A -> Z) (k : Z) (x : A) : forall l,
  filter (fun a => (key a =? k)%Z) (insert_by key x l)
  = filter (fun a => (key a =? k)%Z) (x :: l).
Proof.
  induction l as [|y l IH]; simpl; [reflexivity|].
  destruct (key x <=? key y)%Z eqn:E; [reflexivity|].
  apply Z.leb_gt in E. simpl. rewrite IH. simpl.
  destruct (key x =? k)%Z eqn:Ex; [|reflexivity].
  apply Z.eqb_eq in Ex.
  assert (Ey : (key y =? k)%Z = false) by (apply Z.eqb_neq; lia).
  now rewrite Ey.
Qed.

Lemma sorted_by_filter {A} (key : A -> Z) (k : Z) : forall l,
  filter (fun a => (key a =? k)%Z) (sorted_by key l)
  = filter (fun a => (key a =? k)%Z) l.
Proof.
  induction l as [|x l IH]; simpl; [reflexivity|].
  rewrite insert_by_filter. simpl. now rewrite IH.
Qed.

(** The first loop gives every chapter the key of its title, and raises
    only where [int] does. *)
Lemma assign_sort_keys_spec : forall chapters,
  match assign_sort_keys chapters with
  | Some keyed =>
      map kc_chapter keyed = chapters
      /\ Forall (fun x => sort_key_of (title (kc_chapter x)) = Some (sort_key x))
                keyed
  | None => Exists (fun c => sort_key_of (title c) = None) chapters
  end.
Proof.
  induction chapters as [|c chapters IH]; cbn [assign_sort_keys].
  - split; [reflexivity | constructor].
  - destruct (sort_key_of (title c)) as [k|] eqn:Ek;
      [|now apply Exists_cons_hd].
    destruct (assign_sort_keys chapters) as [keyed|];
      [|now apply Exists_cons_tl].
    destruct IH as [Hm Hk]. split; [simpl; now rewrite Hm|].
    constructor; [exact Ek | exact Hk].
Qed.

Lemma sort_key_of_none (t : str) :
  sort_key_of t = None -> number_too_long t.
Proof.
  unfold sort_key_of, number_too_long.
  destruct (index_of t LOGICAL_ORDER); [discriminate|].
  destruct (Re.findall NUMBER t) as [|number rest]; [discriminate|].
  unfold int10.
  destruct (INT_MAX_STR_DIGITS <? length number)%nat eqn:E; [|discriminate].
  intros _. split; [reflexivity|]. exists number, rest.
  split; [reflexivity|]. now apply Nat.ltb_lt.
Qed.

Lemma keyed_filter (k : Z) : forall keyed,
  Forall (fun x => sort_key_of (title (kc_chapter x)) = Some (sort_key x)) keyed ->
  map kc_chapter (filter (fun x => (sort_key x =? k)%Z) keyed)
  = filter (fun c => has_key k (title c)) (map kc_chapter keyed).
Proof.
  induction keyed as [|x keyed IH]; intros H; [reflexivity|].
  inversion H as [|? ? Hx Hrest]; subst. cbn [filter map].
  unfold has_key at 1. rewrite Hx.
  destruct (sort_key x =? k)%Z; cbn [map]; now rewrite IH.
Qed.

(** X14: [_reorder_chapters_by_logical_sequence] returns the chapters
    rearranged, each with the key of its title, in ascending order of the
    keys, the chapters of one key in the order they had; it raises only
    when a title outside the listed ones has a first run of digits of more
    than 4300 characters, which [int] refuses. *)
Theorem reorder_is_stable_sort (chapters : list chapter) :
  match _reorder_chapters_by_logical_sequence chapters with
  | Some sorted =>
      Permutation (map kc_chapter sorted) chapters
      /\ Forall (fun x => sort_key_of (title (kc_chapter x)) = Some (sort_key x))
                sorted
      /\ StronglySorted (fun a b => (sort_key a <= sort_key b)%Z) sorted
      /\ forall k,
          map kc_chapter (filter (fun x => (sort_key x =? k)%Z) sorted)
          = filter (fun c => has_key k (title c)) chapters
  | None => Exists (fun c => number_too_long (title c)) chapters
  end.
Proof.
  unfold _reorder_chapters_by_logical_sequence.
  pose proof (assign_sort_keys_spec chapters) as H.
  destruct (assign_sort_keys chapters) as [keyed|].
  - destruct H as [Hm Hk]. split; [|split; [|split]].
    + rewrite <- Hm. apply Permutation_map, sorted_by_perm.
    + exact (Permutation_Forall (Permutation_sym (sorted_by_perm sort_key keyed)) Hk).
    + apply sorted_by_sorted.
    + intros k. rewrite sorted_by_filter, keyed_filter by exact Hk.
      now rewrite Hm.
  - eapply Exists_impl; [|exact H]. intros c. apply sort_key_of_none.
Qed.

(** The keys: a listed title has its rank in the list, below 10; any other
    title has 1000 plus its first number, or 9999 without a number. *)
Lemma sort_key_of_range (t : str) (k : Z) :
  sort_key_of t = Some k ->
  match index_of t LOGICAL_ORDER with
  | Some i => k = Z.of_nat i /\ (0 <= k < 10)%Z
  | None => (1000 <= k)%Z
  end.
Proof.
  unfold sort_key_of.
  destruct (index_of t LOGICAL_ORDER) as [i|] eqn:Ei.
  - intros [= <-]. split; [reflexivity|].
    assert (Hi : forall l, index_of t l = Some i -> (i < length l)%nat).
    { clear. intros l. revert i. induction l as [|y l IH]; intros i; simpl;
        [discriminate|].
      destruct (str_eqb y t); [intros [= <-]; lia|].
      destruct (index_of t l) as [j|]; [|discriminate].
      intros [= <-]. specialize (IH j eq_refl). lia. }
    apply Hi in Ei. simpl in Ei. lia.
  - destruct (Re.findall NUMBER t) as [|number rest]; [intros [= <-]; lia|].
    unfold int10. destruct (INT_MAX_STR_DIGITS <? length number)%nat;
      [discriminate|].
    set (v := Z.of_N _).
    assert (Hv : (0 <= v)%Z) by apply N2Z.is_nonneg.
    clearbody v. intros H.
    assert (Hk : k = (1000 + v)%Z) by congruence. lia.
Qed.

Lemma sorted_keys_nth_error {A} (key : A -> Z) (l : list A) :
  StronglySorted (fun a b => (key a <= key b)%Z) l ->
  forall i j x y, (i < j)%nat -> nth_error l i = Some x -> nth_error l j = Some y ->
                  (key x <= key y)%Z.
Proof.
  induction 1 as [|a l Hs IH Hall]; intros i j x y Hij Hi Hj.
  - destruct i; discriminate.
  - destruct j as [|j]; [lia|]. simpl in Hj. destruct i as [|i].
    + injection Hi as <-. rewrite Forall_forall in Hall.
      apply Hall. eapply nth_error_In; eauto.
    + simpl in Hi. apply (IH i j x y); [lia | exact Hi | exact Hj].
Qed.

(** X15: in the chapters [_reorder_chapters_by_logical_sequence] returns,
    a chapter whose title is listed in the logical order comes before every
    chapter whose title is listed after it, and before every chapter whose
    title is not listed. *)
Theorem listed_titles_come_first (chapters : list chapter)
        (sorted : list keyed_chapter) (i j : nat) (x y : keyed_chapter)
        (rank : nat) :
  _reorder_chapters_by_logical_sequence chapters = Some sorted ->
  nth_error sorted i = Some x ->
  nth_error sorted j = Some y ->
  index_of (title (kc_chapter x)) LOGICAL_ORDER = Some rank ->
  match index_of (title (kc_chapter y)) LOGICAL_ORDER with
  | Some rank' => (rank < rank')%nat
  | None => True
  end ->
  (i < j)%nat.
Proof.
  unfold _reorder_chapters_by_logical_sequence.
  pose proof (assign_sort_keys_spec chapters) as H.
  destruct (assign_sort_keys chapters) as [keyed|]; [|discriminate].
  destruct H as [_ Hk]. intros [= <-] Hi Hj Hx Hy.
  pose proof (Permutation_Forall
                (Permutation_sym (sorted_by_perm sort_key keyed)) Hk) as Hkeys.
  rewrite Forall_forall in Hkeys.
  pose proof (sort_key_of_range _ _ (Hkeys x (nth_error_In _ _ Hi))) as Rx.
  pose proof (sort_key_of_range _ _ (Hkeys y (nth_error_In _ _ Hj))) as Ry.
  rewrite Hx in Rx. destruct Rx as [Rx Rx'].
  destruct (Nat.lt_ge_cases i j) as [Hlt | Hge]; [exact Hlt|]. exfalso.
  destruct (Nat.eq_dec i j) as [-> | Hne].
  - rewrite Hi in Hj. injection Hj as <-. rewrite Hx in Hy. lia.
  - pose proof (sorted_keys_nth_error sort_key _ (sorted_by_sorted sort_key keyed)
                  j i y x ltac:(lia) Hj Hi) as Hle.
    destruct (index_of (title (kc_chapter y)) LOGICAL_ORDER) as [rank'|]; lia.
Qed.

End LogicalOrder.

(** X15 at three chapters out of order: the first listed part comes before
    the last one. *)
Lemma listed_titles_come_first_witness :
  SEFAnalyzer._reorder_chapters_by_logical_sequence SHUFFLED_PARTS
  = Some [ {| SEFAnalyzer.kc_chapter := titled SEFAnalyzer.ZENPEN;
              SEFAnalyzer.sort_key := 0%Z |};
           {| SEFAnalyzer.kc_chapter := titled SEFAnalyzer.KOUHEN;
              SEFAnalyzer.sort_key := 2%Z |};
           {| SEFAnalyzer.kc_chapter := titled (lit "Notes");
              SEFAnalyzer.sort_key := 9999%Z |} ]
  /\ (0 < 1)%nat.
Proof.
  assert (E : SEFAnalyzer._reorder_chapters_by_logical_sequence SHUFFLED_PARTS
              = Some [ {| SEFAnalyzer.kc_chapter := titled SEFAnalyzer.ZENPEN;
                          SEFAnalyzer.sort_key := 0%Z |};
                       {| SEFAnalyzer.kc_chapter := titled SEFAnalyzer.KOUHEN;
                          SEFAnalyzer.sort_key := 2%Z |};
                       {| SEFAnalyzer.kc_chapter := titled (lit "Notes");
                          SEFAnalyzer.sort_key := 9999%Z |} ])
    by (vm_compute; reflexivity).
  split; [exact E|].
  apply (listed_titles_come_first SHUFFLED_PARTS _ 0 1
           {| SEFAnalyzer.kc_chapter := titled SEFAnalyzer.ZENPEN;
              SEFAnalyzer.sort_key := 0%Z |}
           {| SEFAnalyzer.kc_chapter := titled SEFAnalyzer.KOUHEN;
              SEFAnalyzer.sort_key := 2%Z |} 0 E);
    [reflexivity | reflexivity | reflexivity | vm_compute; lia].
Defined.

(** ** The contents of the chapters *)
Section ChapterContents.

Import Py SEFAnalyzer.
Context {rt : PyRuntime}.

(** What [dropwhile] keeps is the end of the text. *)
Lemma dropwhile_suffix (p : char -> bool) : forall s,
  exists w, s = w ++ dropwhile p s.
Proof.
  induction s as [|c s [w IH]]; simpl; [now exists []|].
  destruct (p c); [|now exists []].
  exists (c :: w). simpl. now rewrite <- IH.
Qed.

Lemma dropwhile_fixed (p : char -> bool) (c : char) (s : str) :
  p c = false -> dropwhile p (c :: s) = c :: s.
Proof. intros H. simpl. now rewrite H. Qed.

(** Trimming a trimmed text changes nothing. *)
Lemma strip_fixed (s : str) : strip (strip s) = strip s.
Proof.
  unfold strip at 2 3.
  destruct (rstrip_last (lstrip s)) as [E | (s' & c & E & Hc)];
    rewrite E; [reflexivity|].
  unfold strip.
  assert (Hl : lstrip (s' ++ [c]) = s' ++ [c]).
  { destruct s' as [|d s']; [now apply dropwhile_fixed|].
    apply dropwhile_fixed.
    destruct (dropwhile_suffix isspace (rev (lstrip s))) as [w Hw].
    apply (f_equal (@rev N)) in Hw. rewrite rev_involutive, rev_app_distr in Hw.
    change (rev (dropwhile isspace (rev (lstrip s)))) with (rstrip (lstrip s)) in Hw.
    rewrite E in Hw. simpl in Hw.
    unfold lstrip in Hw. eapply dropwhile_head. exact Hw. }
  rewrite Hl. now apply rstrip_fixed.
Qed.

(** The converted text has no whitespace at either end. *)
Lemma rtf_to_plain_text_trimmed (rtf_content : str) :
  strip (_rtf_to_plain_text rtf_content) = _rtf_to_plain_text rtf_content.
Proof.
  unfold _rtf_to_plain_text. destruct (is_empty rtf_content); [reflexivity|].
  apply strip_fixed.
Qed.

Lemma rtf_documents_content (rtf_text : str) (i : nat) (doc : rtf_document) :
  nth_error (rtf_documents rtf_text) i = Some doc ->
  d_plain_content doc = _rtf_to_plain_text (d_rtf_content doc).
Proof.
  unfold rtf_documents. rewrite nth_error_map, nth_error_enumerate.
  destruct (nth_error (rtf_starts rtf_text) i); simpl; [|discriminate].
  intros [= <-]. reflexivity.
Qed.

(** X16: the content of every chapter of a successful analysis has no
    whitespace at either end; it is the conversion of an RTF text, with its
    length as the chapter's size, or it is the placeholder, and then the
    size is 0 (not the length of the placeholder) and the source index is
    -1. *)
Theorem analysed_chapters_contents (data : bytes) (a : analysis) :
  analyze_file data = Success a ->
  Forall (fun c =>
            strip (content c) = content c
            /\ ((exists rtf_content,
                    content c = _rtf_to_plain_text rtf_content
                    /\ size c = len (content c))
                \/ (content c = NO_CONTENT /\ size c = 0%Z
                    /\ rtf_index c = Some (-1)%Z)))
         (a_chapters a).
Proof.
  unfold analyze_file, analyze_body.
  destruct (decompress_payload data) as [payload|e]; [|discriminate].
  destruct (_split_plain_rtf (_decode_text payload)) as [plain_part rtf_part].
  destruct (_parse_hierarchy plain_part) as [|item hierarchy].
  - cbn [_split_chapters is_empty]. intros [= <-]. cbn [a_chapters].
    constructor; [|constructor]. cbn [size content].
    split; [apply rtf_to_plain_text_trimmed|].
    left. exists rtf_part. split; reflexivity.
  - change (_split_chapters rtf_part (item :: hierarchy))
      with (Ok (pair_chapters (rtf_documents rtf_part) (item :: hierarchy))).
    intros [= <-]. cbn [a_chapters]. apply Forall_forall. intros c Hc.
    apply In_nth_error in Hc as [i Hi].
    rewrite nth_error_pair_chapters in Hi.
    destruct (nth_error (item :: hierarchy) i) as [entry|]; [|discriminate].
    injection Hi as <-. unfold pair_chapter.
    destruct (nth_error (rtf_documents rtf_part) i) as [doc|] eqn:Ed;
      cbn [size content rtf_index].
    + apply rtf_documents_content in Ed. rewrite Ed.
      split; [apply rtf_to_plain_text_trimmed|].
      left. exists (d_rtf_content doc). split; reflexivity.
    + split; [vm_compute; reflexivity|]. right. repeat split.
Qed.

End ChapterContents.

(** X16 at the header of zeros after the magic and the stored stream of the
    scenario's text. *)
Lemma analysed_chapters_contents_witness :
  SEFAnalyzer.analyze_file (HEADER ++ SCENARIO_STORED)
  = SEFAnalyzer.Success {| SEFAnalyzer.a_chapters := SCENARIO_CHAPTERS;
                           SEFAnalyzer.a_hierarchy := THREE_ENTRIES;
                           SEFAnalyzer.a_file_size := 91 |}
  /\ Forall (fun c =>
               Py.strip (SEFAnalyzer.content c) = SEFAnalyzer.content c
               /\ ((exists rtf_content,
                       SEFAnalyzer.content c
                       = SEFAnalyzer._rtf_to_plain_text rtf_content
                       /\ SEFAnalyzer.size c = len (SEFAnalyzer.content c))
                   \/ (SEFAnalyzer.content c = SEFAnalyzer.NO_CONTENT
                       /\ SEFAnalyzer.size c = 0%Z
                       /\ SEFAnalyzer.rtf_index c = Some (-1)%Z)))
            SCENARIO_CHAPTERS.
Proof.
  assert (E : SEFAnalyzer.analyze_file (HEADER ++ SCENARIO_STORED)
              = SEFAnalyzer.Success
                  {| SEFAnalyzer.a_chapters := SCENARIO_CHAPTERS;
                     SEFAnalyzer.a_hierarchy := THREE_ENTRIES;
                     SEFAnalyzer.a_file_size := 91 |})
    by (vm_compute; reflexivity).
  split; [exact E|].
  exact (analysed_chapters_contents (HEADER ++ SCENARIO_STORED) _ E).
Defined.

(** ** Text free of RTF syntax *)
Section PlainPassThrough.

Import Py Re SEFAnalyzer.
Context {rt : PyRuntime}.

Lemma fails_chr (p ok : char -> bool) :
  (forall c, ok c = true -> p c = false) -> fails_on (Chr p) ok.
Proof.
  intros H k pre [|c suf] Hc; cbn [m]; [reflexivity|]. now rewrite (H c Hc).
Qed.

Lemma fails_seq (r1 r2 : regex) (ok : char -> bool) :
  fails_on r1 ok -> fails_on (Seq r1 r2) ok.
Proof. intros H k pre suf Hc. cbn [m]. now apply H. Qed.

Lemma fails_notbehind (w : nat) (r1 r2 : regex) (ok : char -> bool) :
  fails_on r2 ok -> fails_on (Seq (NotBehind w r1) r2) ok.
Proof.
  intros H k pre suf Hc. cbn [m].
  destruct (length pre <? w)%nat; [now apply H|].
  destruct (m r1 _ _ _); [reflexivity | now apply H].
Qed.

Lemma fails_bol (r2 : regex) (ok : char -> bool) :
  fails_on r2 ok -> fails_on (Seq Bol r2) ok.
Proof.
  intros H k pre suf Hc. cbn [m].
  destruct pre as [|c pre]; [now apply H|].
  destruct (c =? LF); [now apply H | reflexivity].
Qed.

(** A pattern that matches nowhere is not found. *)
Lemma search_fails (r : regex) (ok : char -> bool) :
  fails_on r ok ->
  forall suf must_advance skipped_rev pre,
    Forall (fun c => ok c = true) suf ->
    search r must_advance skipped_rev pre suf = None.
Proof.
  intros Hr. induction suf as [|c suf IH]; intros must sk pre Hs;
    rewrite search_eq, Hr.
  - reflexivity.
  - exact I.
  - inversion Hs; subst. now apply IH.
  - now inversion Hs.
Qed.

(** ... so the substitution leaves the text as it is. *)
Lemma sub_with_unchanged (r : regex) (ok : char -> bool) (repl : str -> str)
      (text : str) :
  fails_on r ok -> Forall (fun c => ok c = true) text ->
  sub_with r repl text = text.
Proof.
  intros Hr Ht. unfold sub_with.
  replace (2 * length text + 2)%nat with (S (2 * length text + 1)) by lia.
  cbn [sub_loop]. now rewrite (search_fails r ok Hr).
Qed.

Lemma replace_unchanged (o : char) (old new : str) : forall s,
  ~ In o s -> replace s (o :: old) new = s.
Proof.
  unfold replace. induction s as [|c s IH]; intros Hn; [reflexivity|].
  cbn [replace_from startswith].
  destruct (N.eqb_spec c o) as [-> | Hne]; [exfalso; apply Hn; now left|].
  cbn [andb]. rewrite IH; [reflexivity|]. intros H. apply Hn. now right.
Qed.

Lemma strip_unchanged (s : str) :
  Forall (fun c => isspace c = false) s -> strip s = s.
Proof.
  intros H. unfold strip.
  assert (Hl : lstrip s = s).
  { unfold lstrip. destruct H as [|c s Hc _]; [reflexivity|].
    now apply dropwhile_fixed. }
  rewrite Hl. unfold rstrip.
  apply Forall_rev in H. destruct (rev s) as [|c t] eqn:E.
  - apply (f_equal (@rev N)) in E. now rewrite rev_involutive in E.
  - inversion H as [|? ? Hc _]; subst. rewrite dropwhile_fixed by exact Hc.
    rewrite <- E. apply rev_involutive.
Qed.

(** What a plain character is not. *)
Lemma plain_char_spec (c : char) :
  plain_char c = true ->
  (c =? BACKSLASH) = false /\ (c =? LBRACE) = false /\ (c =? RBRACE) = false
  /\ (c =? SEMICOLON) = false /\ digit09 c = false /\ isspace c = false.
Proof.
  unfold plain_char. rewrite !andb_true_iff, !negb_true_iff. tauto.
Qed.

Lemma plain_char_not (c x : char) :
  plain_char c = true -> plain_char x = false -> (x =? c) = false.
Proof.
  intros Hc Hx. destruct (N.eqb_spec x c) as [-> |]; [congruence | reflexivity].
Qed.

Lemma plain_char_is_not (c x : char) :
  plain_char c = true -> plain_char x = false -> (c =? x) = false.
Proof. intros Hc Hx. rewrite N.eqb_sym. now apply plain_char_not. Qed.

Ltac fails_on_plain :=
  repeat first [ apply fails_notbehind | apply fails_bol | apply fails_seq ];
  apply fails_chr; intros c Hc;
  try (apply plain_char_not; [exact Hc | reflexivity]);
  try (apply plain_char_spec in Hc; tauto).

Lemma hex_run_fails : fails_on HEX_RUN plain_char.
Proof. unfold HEX_RUN, HEX_ESCAPE, Plus, one. cbn [cat fold_right]. fails_on_plain. Qed.

Lemma table_block_fails (tag : string) : fails_on (TABLE_BLOCK tag) plain_char.
Proof. unfold TABLE_BLOCK, one. cbn [cat fold_right]. fails_on_plain. Qed.

Lemma numbered_words_fails : fails_on NUMBERED_WORDS plain_char.
Proof.
  unfold NUMBERED_WORDS, NUMBERED_WORD, one. cbn [cat fold_right]. fails_on_plain.
Qed.

Lemma control_word_fails : fails_on CONTROL_WORD plain_char.
Proof. unfold CONTROL_WORD, one. cbn [cat fold_right]. fails_on_plain. Qed.

Lemma other_escape_fails : fails_on OTHER_ESCAPE plain_char.
Proof. unfold OTHER_ESCAPE, one. cbn [cat fold_right]. fails_on_plain. Qed.

Lemma brace_fails : fails_on BRACE plain_char.
Proof.
  unfold BRACE, oneof. apply fails_chr. intros c Hc.
  apply plain_char_spec in Hc as (_ & Hl & Hr & _).
  cbn [existsb]. now rewrite Hl, Hr.
Qed.

Lemma semicolons_fails : fails_on SEMICOLONS plain_char.
Proof. unfold SEMICOLONS, Plus, one. fails_on_plain. Qed.

Lemma layout_numbers_fails : fails_on LAYOUT_NUMBERS plain_char.
Proof. unfold LAYOUT_NUMBERS, Plus. cbn [cat fold_right]. fails_on_plain. Qed.

Lemma blanks_fails : fails_on BLANKS plain_char.
Proof.
  unfold BLANKS, Plus, oneof. apply fails_seq, fails_chr. intros c Hc.
  cbn [existsb]. rewrite orb_false_r.
  apply orb_false_intro; apply plain_char_is_not; (exact Hc || reflexivity).
Qed.

Lemma line_head_space_fails : fails_on LINE_HEAD_SPACE plain_char.
Proof. unfold LINE_HEAD_SPACE, Plus. cbn [cat fold_right]. fails_on_plain. Qed.

Lemma line_tail_space_fails : fails_on LINE_TAIL_SPACE plain_char.
Proof. unfold LINE_TAIL_SPACE, Plus. cbn [cat fold_right]. fails_on_plain. Qed.

Lemma blank_lines_fails : fails_on BLANK_LINES plain_char.
Proof. unfold BLANK_LINES, one. cbn [cat fold_right]. fails_on_plain. Qed.

(** X17: a text without backslash, brace, semicolon, ASCII digit or
    whitespace is converted to itself. *)
Theorem plain_text_passes_through (text : str) :
  Forall (fun c => plain_char c = true) text ->
  _rtf_to_plain_text text = text.
Proof.
  intros H. unfold _rtf_to_plain_text, strip_layout_numbers, sub.
  destruct (is_empty text) eqn:E; [now destruct text|].
  rewrite (sub_with_unchanged _ _ _ _ hex_run_fails H).
  rewrite (sub_with_unchanged _ _ _ _ (table_block_fails _) H).
  rewrite (sub_with_unchanged _ _ _ _ (table_block_fails _) H).
  rewrite (sub_with_unchanged _ _ _ _ numbered_words_fails H).
  rewrite (sub_with_unchanged _ _ _ _ control_word_fails H).
  rewrite (sub_with_unchanged _ _ _ _ other_escape_fails H).
  rewrite (sub_with_unchanged _ _ _ _ brace_fails H).
  rewrite (sub_with_unchanged _ _ _ _ semicolons_fails H).
  rewrite (sub_with_unchanged _ _ _ _ layout_numbers_fails H).
  assert (Hcr : ~ In CR text).
  { intros Hin. rewrite Forall_forall in H. specialize (H _ Hin).
    discriminate H. }
  rewrite (replace_unchanged CR [LF] [LF] text Hcr).
  rewrite (replace_unchanged CR [] [LF] text Hcr).
  rewrite (sub_with_unchanged _ _ _ _ blanks_fails H).
  rewrite (sub_with_unchanged _ _ _ _ line_head_space_fails H).
  rewrite (sub_with_unchanged _ _ _ _ line_tail_space_fails H).
  rewrite (sub_with_unchanged _ _ _ _ blank_lines_fails H).
  apply strip_unchanged. eapply Forall_impl; [|exact H].
  intros c Hc. now apply plain_char_spec in Hc.
Qed.

End PlainPassThrough.

(** X17 at the message of the failed extraction, a text of kana and
    kanji. *)
Lemma plain_text_passes_through_witness :
  Forall (fun c => plain_char c = true) SEFAnalyzer.EXTRACTION_FAILED
  /\ SEFAnalyzer._rtf_to_plain_text SEFAnalyzer.EXTRACTION_FAILED
     = SEFAnalyzer.EXTRACTION_FAILED.
Proof.
  assert (H : Forall (fun c => plain_char c = true) SEFAnalyzer.EXTRACTION_FAILED)
    by (repeat constructor).
  split; [exact H|].
  exact (plain_text_passes_through SEFAnalyzer.EXTRACTION_FAILED H).
Defined.

(** ** The detection of a chapter title *)
Section TitleDetection.

Import Py SEFAnalyzer.

Lemma strip_one (c : char) : (0 <? len (strip [c]))%Z = negb (isspace c).
Proof.
  unfold strip, lstrip, rstrip. cbn [dropwhile].
  destruct (isspace c) eqn:E; [reflexivity|]. cbn [rev app dropwhile].
  rewrite E. reflexivity.
Qed.

(** The loop over the characters of a title tests the same patterns at
    every character it finds in the content. *)
Lemma detect_by_chars_spec (title content_start : str) : forall chars,
  detect_by_chars chars title content_start
  = existsb (fun c => contains content_start [c] && negb (isspace c)) chars
    && pattern_detected title content_start.
Proof.
  induction chars as [|c chars IH]; cbn [detect_by_chars existsb];
    [reflexivity|].
  rewrite strip_one, IH.
  destruct (contains content_start [c] && negb (isspace c));
    destruct (pattern_detected title content_start); cbn [orb andb];
    try reflexivity.
  now rewrite andb_false_r.
Qed.

Lemma detect_in_titles_spec (content_start : str) : forall titles,
  detect_in_titles titles content_start
  = List.find (title_accepted content_start) titles.
Proof.
  induction titles as [|t titles IH]; cbn [detect_in_titles List.find];
    [reflexivity|].
  unfold title_accepted at 1. rewrite detect_by_chars_spec, IH.
  destruct (contains content_start t); cbn [orb]; [reflexivity|].
  now destruct (existsb _ t && pattern_detected t content_start).
Qed.

(** X18: [_detect_chapter_title_from_content] returns the first title,
    in the order of the items, that is accepted for the first 200
    characters of the content; when none is, it returns the title of the
    first item, and "Unknown" without items.  So with items the result is
    always one of their titles. *)
Theorem detect_title_first_accepted (content : str)
        (chapter_items : list hierarchy_item) :
  _detect_chapter_title_from_content content chapter_items
  = match List.find (title_accepted (slice_to content 200))
                    (map h_title chapter_items) with
    | Some title => title
    | None => hd UNKNOWN (map h_title chapter_items)
    end
  /\ (chapter_items <> [] ->
      In (_detect_chapter_title_from_content content chapter_items)
         (map h_title chapter_items)).
Proof.
  unfold _detect_chapter_title_from_content. rewrite detect_in_titles_spec.
  split.
  - destruct (List.find _ _); [reflexivity|].
    now destruct (map h_title chapter_items).
  - intros Hne.
    destruct (List.find _ _) as [t|] eqn:E.
    + now apply find_some in E as [E _].
    + destruct chapter_items as [|item rest]; [congruence|]. now left.
Qed.

End TitleDetection.

(** ** The alternative decoding *)
Section AlternativeDecoding.

Import Py Re SEFAnalyzer.
Context {rt : PyRuntime}.

(** A run of one or more characters of a class consumes a character. *)
Lemma plus_chr_consumes (p : char -> bool) (k : cont) (pre suf : str)
      (z : position) :
  m (Plus (Chr p)) k pre suf = Some z ->
  exists pre' suf', k pre' suf' = Some z /\ (length suf' < length suf)%nat.
Proof.
  unfold Plus. cbn [m]. destruct suf as [|c suf]; [discriminate|].
  destruct (p c); [|discriminate].
  intros H.
  destruct (m_advances (Star (Chr p)) k (c :: pre) suf z H)
    as (pre' & suf' & H' & Hle).
  exists pre', suf'. split; [exact H' | simpl; lia].
Qed.

Lemma search_plus_not_empty (p : char -> bool) : forall suf skipped_rev pre f,
  search (Plus (Chr p)) false skipped_rev pre suf = Some f ->
  matched f <> [].
Proof.
  induction suf as [|c suf IH]; intros sk pre f H; rewrite search_eq in H;
    destruct (m (Plus (Chr p)) _ pre _) as [[p' s']|] eqn:E; try discriminate.
  - apply plus_chr_consumes in E as (pre' & suf' & E & Hlt).
    cbn [andb] in E. assert (Es : s' = suf') by congruence. subst s'.
    assert (Hf : matched f
                 = firstn (length (c :: suf) - length suf') (c :: suf))
      by (injection H as <-; reflexivity).
    rewrite Hf.
    destruct (length (c :: suf) - length suf')%nat eqn:En; [lia|].
    cbn [firstn]. discriminate.
  - now apply IH in H.
Qed.

Lemma findall_plus_head (p : char -> bool) (text x : str) (rest : list str) :
  findall (Plus (Chr p)) text = x :: rest -> x <> [].
Proof.
  unfold findall. cbn [findall_loop].
  destruct (search (Plus (Chr p)) false [] [] text) as [f|] eqn:E;
    [|discriminate].
  intros [= <- _]. now apply search_plus_not_empty in E.
Qed.

Lemma join_not_empty (sep x : str) (rest : list str) :
  x <> [] -> join sep (x :: rest) <> [].
Proof.
  intros Hx. cbn [join]. destruct rest; [exact Hx|].
  destruct x; [congruence | discriminate].
Qed.

(** X19: [_alternative_rtf_decode] never returns the empty string: it
    returns the decoded hex words joined and trimmed when that is not
    empty, else the runs of kana and kanji joined when there is one, else
    the message of the failed extraction. *)
Theorem alternative_decode_not_empty (rtf_content : str) :
  _alternative_rtf_decode rtf_content <> []
  /\ (_alternative_rtf_decode rtf_content
      = strip (join [SPACE] (fold_left decode_hex_word
                                       (findall HEX_WORD rtf_content) []))
      \/ (strip (join [SPACE] (fold_left decode_hex_word
                                         (findall HEX_WORD rtf_content) [])) = []
          /\ (_alternative_rtf_decode rtf_content
              = join [SPACE] (findall JAPANESE_RUN rtf_content)
              \/ (findall JAPANESE_RUN rtf_content = []
                  /\ _alternative_rtf_decode rtf_content = EXTRACTION_FAILED)))).
Proof.
  unfold _alternative_rtf_decode.
  destruct (strip _) as [|c t] eqn:E; cbn [is_empty negb].
  - destruct (findall JAPANESE_RUN rtf_content) as [|x rest] eqn:Ef;
      cbn [is_empty negb].
    + split; [discriminate|]. right. split; [reflexivity|]. right. now split.
    + split; [|right; split; [reflexivity | now left]].
      apply join_not_empty. exact (findall_plus_head _ _ _ _ Ef).
  - split; [discriminate | now left].
Qed.

End AlternativeDecoding.

(** ** The characters of a converted text *)
Section ConvertedCharacters.

Import Py Re SEFAnalyzer.
Context {rt : PyRuntime}.

Lemma star_iter_stays (body : cont -> cont) (k : cont) :
  stays body ->
  forall fuel pre suf z,
    star_iter body k fuel pre suf = Some z ->
    exists pre' suf' w, k pre' suf' = Some z /\ suf = w ++ suf'.
Proof.
  intros Hbody. induction fuel as [|fuel IH]; intros pre suf z H; simpl in H.
  - exists pre, suf, []. auto.
  - destruct (body _ pre suf) as [z'|] eqn:E; [|exists pre, suf, []; auto].
    injection H as ->.
    apply Hbody in E as (p1 & s1 & w1 & E & Hw1).
    destruct (length s1 <? length suf)%nat; [|discriminate].
    apply IH in E as (p2 & s2 & w2 & E & Hw2). exists p2, s2, (w1 ++ w2).
    split; [exact E|]. rewrite Hw1, Hw2. now rewrite app_assoc.
Qed.

Lemma m_stays (r : regex) : stays (m r).
Proof.
  induction r as [|p|r1 IH1 r2 IH2|r1 IH1|r1 IH1|w r1 IH1| |];
    intros k pre suf z H; cbn [m] in H.
  - exists pre, suf, []. auto.
  - destruct suf as [|c suf]; [discriminate|].
    destruct (p c); [|discriminate]. exists (c :: pre), suf, [c]. auto.
  - apply IH1 in H as (p1 & s1 & w1 & H & Hw1).
    apply IH2 in H as (p2 & s2 & w2 & H & Hw2). exists p2, s2, (w1 ++ w2).
    split; [exact H|]. rewrite Hw1, Hw2. now rewrite app_assoc.
  - eapply star_iter_stays; eauto.
  - destruct (m r1 _ pre suf); [discriminate|]. exists pre, suf, []. auto.
  - destruct (length pre <? w)%nat; [exists pre, suf, []; auto|].
    destruct (m r1 _ _ _); [discriminate|]. exists pre, suf, []. auto.
  - destruct pre as [|c pre]; [exists [], suf, []; auto|].
    destruct (c =? LF); [|discriminate]. exists (c :: pre), suf, []. auto.
  - destruct suf as [|c suf]; [exists pre, [], []; auto|].
    destruct (c =? LF); [|discriminate]. exists pre, (c :: suf), []. auto.
Qed.

(** A found match: what is skipped and what is left are parts of the
    text, and no character skipped is one the pattern matches at. *)
Lemma search_found (r : regex) (p : char -> bool) :
  forall suf must_advance skipped_rev pre f,
    search r must_advance skipped_rev pre suf = Some f ->
    exists s0 w,
      skipped f = rev skipped_rev ++ s0
      /\ suf = s0 ++ w ++ snd (after f)
      /\ (matches_at r p -> Forall (fun c => p c = false) s0).
Proof.
  induction suf as [|c suf IH]; intros must sk pre f H; rewrite search_eq in H;
    match type of H with
    | match ?x with _ => _ end = _ => destruct x as [[p' s']|] eqn:E
    end; try discriminate.
  1, 2: injection H as <-; cbn [skipped after snd];
    apply m_stays in E as (p1 & s1 & w & E & Hw);
    destruct (must && _); [discriminate|]; injection E as <- <-;
    exists [], w; rewrite app_nil_r; repeat split; [exact Hw | constructor].
  apply IH in H as (s0 & w & Hsk & Hsuf & Hp).
  exists (c :: s0), w. split; [|split].
  - rewrite Hsk. cbn [rev]. now rewrite <- app_assoc.
  - cbn [app]. now rewrite <- Hsuf.
  - intros Hm. constructor; [|now apply Hp].
    destruct (p c) eqn:Ec; [|reflexivity].
    exfalso. exact (Hm must pre c suf Ec E).
Qed.

Lemma search_not_found (r : regex) (p : char -> bool) :
  matches_at r p ->
  forall suf must_advance skipped_rev pre,
    search r must_advance skipped_rev pre suf = None ->
    Forall (fun c => p c = false) suf.
Proof.
  intros Hm. induction suf as [|c suf IH]; intros must sk pre H;
    [constructor|].
  rewrite search_eq in H.
  match type of H with
  | match ?x with _ => _ end = _ => destruct x as [[p' s']|] eqn:E
  end; [discriminate|].
  constructor; [|now apply IH in H].
  destruct (p c) eqn:Ec; [|reflexivity].
  exfalso. exact (Hm must pre c suf Ec E).
Qed.

(** A substitution brings no character but those of its replacements. *)
Lemma sub_loop_keeps (P : char -> Prop) (r : regex) (repl : str -> str) :
  (forall x, Forall P (repl x)) ->
  forall fuel must_advance pre suf,
    Forall P suf -> Forall P (sub_loop fuel r repl must_advance pre suf).
Proof.
  intros Hrepl. induction fuel as [|fuel IH]; intros must pre suf Hs;
    cbn [sub_loop]; [exact Hs|].
  destruct (search r must [] pre suf) as [f|] eqn:E; [|exact Hs].
  apply (search_found r (fun _ => false)) in E as (s0 & w & Hsk & Hsuf & _).
  rewrite Hsk. cbn [rev app]. rewrite Hsuf in Hs.
  apply Forall_app in Hs as [Hs0 Hs]. apply Forall_app in Hs as [_ Hs].
  apply Forall_app. split; [exact Hs0|].
  apply Forall_app. split; [apply Hrepl | now apply IH].
Qed.

Lemma sub_keeps (x : char) (r : regex) (repl text : str) :
  ~ In x repl ->
  Forall (fun c => c <> x) text -> Forall (fun c => c <> x) (sub r repl text).
Proof.
  intros Hx. apply sub_loop_keeps. intros _.
  apply Forall_forall. intros c Hc ->. contradiction.
Qed.

(** A substitution removes every character its pattern matches at. *)
Lemma sub_loop_removes (r : regex) (p : char -> bool) (repl : str -> str) :
  matches_at r p ->
  (forall x, Forall (fun c => p c = false) (repl x)) ->
  forall fuel must_advance pre suf,
    (rounds_left must_advance suf < fuel)%nat ->
    Forall (fun c => p c = false) (sub_loop fuel r repl must_advance pre suf).
Proof.
  intros Hm Hrepl. induction fuel as [|fuel IH]; intros must pre suf Hfuel;
    [lia|].
  cbn [sub_loop].
  destruct (search r must [] pre suf) as [f|] eqn:E;
    [|exact (search_not_found r p Hm _ _ _ _ E)].
  pose proof (search_decreases r _ _ _ _ _ E) as Hdec.
  apply (search_found r p) in E as (s0 & w & Hsk & _ & Hp).
  rewrite Hsk. cbn [rev app].
  apply Forall_app. split; [now apply Hp|].
  apply Forall_app. split; [apply Hrepl | apply IH; lia].
Qed.

Lemma sub_removes (x : char) (r : regex) (p : char -> bool) (repl text : str) :
  matches_at r p -> p x = true -> Forall (fun c => p c = false) repl ->
  Forall (fun c => c <> x) (sub r repl text).
Proof.
  intros Hm Hx Hrepl.
  apply Forall_impl with (P := fun c => p c = false);
    [intros c Hc ->; congruence|].
  apply sub_loop_removes; [exact Hm | intros _; exact Hrepl|].
  unfold rounds_left. lia.
Qed.

Lemma matches_at_chr (p : char -> bool) : matches_at (Chr p) p.
Proof.
  intros must pre c suf Hc. cbn [m]. rewrite Hc.
  replace (length suf =? length (c :: suf))%nat with false
    by (symmetry; apply Nat.eqb_neq; simpl; lia).
  rewrite andb_false_r. discriminate.
Qed.

(** A starred pattern falls back on its continuation. *)
Lemma star_iter_fallback (body : cont -> cont) (k : cont) (fuel : nat)
      (pre suf : str) :
  star_iter body k fuel pre suf = None -> k pre suf = None.
Proof.
  destruct fuel as [|fuel]; cbn [star_iter]; [auto|].
  now destruct (body _ pre suf).
Qed.

Lemma matches_at_plus (p : char -> bool) : matches_at (Plus (Chr p)) p.
Proof.
  intros must pre c suf Hc. unfold Plus. cbn [m]. rewrite Hc.
  intros H. apply star_iter_fallback in H. revert H.
  replace (length suf =? length (c :: suf))%nat with false
    by (symmetry; apply Nat.eqb_neq; simpl; lia).
  rewrite andb_false_r. discriminate.
Qed.

Lemma matches_at_weaken (r : regex) (p q : char -> bool) :
  matches_at r p -> (forall c, q c = true -> p c = true) -> matches_at r q.
Proof. intros Hm Hq must pre c suf Hc. apply Hm, Hq, Hc. Qed.

Lemma replace_from_keeps (P : char -> Prop) (old new : str) :
  Forall P new ->
  forall s skip, Forall P s -> Forall P (replace_from old new skip s).
Proof.
  intros Hnew. induction s as [|c s IH]; intros skip Hs; [constructor|].
  inversion Hs; subst. cbn [replace_from].
  destruct skip; [|now apply IH].
  destruct (startswith (c :: s) old).
  - apply Forall_app. split; [exact Hnew | now apply IH].
  - constructor; [assumption | now apply IH].
Qed.

Lemma replace_keeps (x : char) (s old new : str) :
  ~ In x new ->
  Forall (fun c => c <> x) s -> Forall (fun c => c <> x) (replace s old new).
Proof.
  intros Hx. apply replace_from_keeps.
  apply Forall_forall. intros c Hc ->. contradiction.
Qed.

Lemma replace_removes (x : char) (new : str) : forall s,
  ~ In x new -> Forall (fun c => c <> x) (replace s [x] new).
Proof.
  intros s Hx. unfold replace. induction s as [|c s IH]; [constructor|].
  cbn [replace_from startswith length Nat.sub].
  destruct (N.eqb_spec c x) as [-> | Hne]; cbn [andb].
  - apply Forall_app. split; [|exact IH].
    apply Forall_forall. intros c Hc ->. contradiction.
  - constructor; [exact Hne | exact IH].
Qed.

Lemma strip_keeps (P : char -> Prop) (s : str) :
  Forall P s -> Forall P (strip s).
Proof.
  rewrite !Forall_forall. intros H c Hc. apply H.
  unfold strip in Hc. apply rstrip_incl in Hc. now apply dropwhile_incl in Hc.
Qed.

Ltac kept :=
  first [ apply strip_keeps
        | apply sub_keeps; [cbn [In]; intuition discriminate|]
        | apply replace_keeps; [cbn [In]; intuition discriminate|] ].

(** X20: the converted text holds no brace, no semicolon, no carriage
    return and no tab. *)
Theorem converted_text_characters (rtf_content : str) :
  Forall (fun c => c <> LBRACE /\ c <> RBRACE /\ c <> SEMICOLON
                   /\ c <> CR /\ c <> TAB)
         (_rtf_to_plain_text rtf_content).
Proof.
  unfold _rtf_to_plain_text, strip_layout_numbers.
  destruct (is_empty rtf_content); [constructor|].
  set (text := sub OTHER_ESCAPE [] _).
  assert (Hl : Forall (fun c => c <> LBRACE)
                 (sub BRACE [] text))
    by (apply (sub_removes _ _ (fun c => existsb (N.eqb c) [LBRACE; RBRACE]));
        [apply matches_at_chr | reflexivity | constructor]).
  assert (Hr : Forall (fun c => c <> RBRACE)
                 (sub BRACE [] text))
    by (apply (sub_removes _ _ (fun c => existsb (N.eqb c) [LBRACE; RBRACE]));
        [apply matches_at_chr | reflexivity | constructor]).
  set (text1 := sub BRACE [] text) in *.
  assert (Hs : Forall (fun c => c <> SEMICOLON) (sub SEMICOLONS [SPACE] text1))
    by (apply (sub_removes _ _ (N.eqb SEMICOLON));
        [apply matches_at_plus | reflexivity | repeat constructor]).
  set (text2 := sub LAYOUT_NUMBERS [SPACE] (sub SEMICOLONS [SPACE] text1)).
  assert (Hc : Forall (fun c => c <> CR)
                 (replace (replace text2 [CR; LF] [LF]) [CR] [LF]))
    by (apply replace_removes; cbn [In]; intuition discriminate).
  set (text3 := replace (replace text2 [CR; LF] [LF]) [CR] [LF]) in *.
  assert (Ht : Forall (fun c => c <> TAB) (sub BLANKS [SPACE] text3))
    by (apply (sub_removes _ _ (N.eqb TAB));
        [ apply (matches_at_weaken _ _ _ (matches_at_plus _));
          intros c Etab; apply N.eqb_eq in Etab; now subst c
        | reflexivity | repeat constructor ]).
  repeat match goal with
         | |- Forall (fun c => _ /\ _) _ => apply Forall_and
         end.
  - do 4 kept. apply sub_keeps; [cbn [In]; intuition discriminate|].
    subst text3 text2. do 4 kept. exact Hl.
  - do 4 kept. apply sub_keeps; [cbn [In]; intuition discriminate|].
    subst text3 text2. do 4 kept. exact Hr.
  - do 4 kept. apply sub_keeps; [cbn [In]; intuition discriminate|].
    subst text3 text2. do 3 kept. exact Hs.
  - do 4 kept. apply sub_keeps; [cbn [In]; intuition discriminate|]. exact Hc.
  - do 4 kept. exact Ht.
Qed.

End ConvertedCharacters.

(** ** The structure of an RTF text *)
Section Markers.

Import Py Re SEFAnalyzer.

Lemma m_lit : forall (w : str) (k : cont) (pre suf : str),
  m (Lit w) k pre suf
  = if startswith suf w then k (rev w ++ pre) (skipn (length w) suf) else None.
Proof.
  induction w as [|c w IH]; intros k pre suf; [reflexivity|].
  cbn [Lit m one]. destruct suf as [|d suf]; [reflexivity|].
  cbn [startswith length skipn rev]. rewrite (N.eqb_sym d c).
  destruct (c =? d) eqn:E; [|reflexivity].
  apply N.eqb_eq in E. subst d. rewrite IH. cbn [andb].
  now rewrite <- app_assoc.
Qed.

(** A starred class takes characters of the class only. *)
Lemma star_class (p : char -> bool) (k : cont) : forall fuel pre suf z,
  star_iter (m (Chr p)) k fuel pre suf = Some z ->
  exists ws suf',
    suf = ws ++ suf' /\ Forall (fun c => p c = true) ws
    /\ k (rev ws ++ pre) suf' = Some z.
Proof.
  induction fuel as [|fuel IH]; intros pre suf z H; cbn [star_iter] in H.
  - exists [], suf. auto.
  - destruct (m (Chr p) _ pre suf) as [z'|] eqn:E; [|exists [], suf; auto].
    injection H as ->. cbn [m] in E.
    destruct suf as [|c suf]; [discriminate|].
    destruct (p c) eqn:Ec; [|discriminate].
    destruct (length suf <? length (c :: suf))%nat; [|discriminate].
    destruct (IH (c :: pre) suf z E) as (ws & suf' & -> & Hws & Hk).
    exists (c :: ws), suf'. split; [reflexivity|].
    split; [now constructor|]. cbn [rev]. now rewrite <- app_assoc.
Qed.

Variable word : string.
Hypothesis word_plain : ~ In BACKSLASH (lit word).

(** A marker matches the control word and the whitespace after it. *)
Lemma m_marker_some (k : cont) (pre suf : str) (z : position) :
  m (MARKER word) k pre suf = Some z ->
  exists ws suf' pre',
    suf = marker_token word ++ ws ++ suf'
    /\ Forall (fun c => isspace c = true) ws
    /\ k pre' suf' = Some z.
Proof.
  unfold MARKER, marker_token, one. cbn [cat fold_right].
  change (m (Seq (Chr (N.eqb BACKSLASH)) ?r) k pre suf)
    with (m (Chr (N.eqb BACKSLASH)) (m r k) pre suf).
  cbn [m]. destruct suf as [|c suf]; [discriminate|].
  destruct (BACKSLASH =? c) eqn:Ec; [|discriminate].
  apply N.eqb_eq in Ec. subst c. rewrite m_lit.
  destruct (startswith suf (lit word)) eqn:Es; [|discriminate].
  apply startswith_inv in Es as [post ->].
  intros H. apply star_class in H as (ws & suf' & Hpost & Hws & Hk).
  exists ws, suf', (rev ws ++ rev (lit word) ++ [BACKSLASH] ++ pre).
  split; [|split; [exact Hws | exact Hk]].
  rewrite skipn_app, skipn_all, Nat.sub_diag in Hpost. cbn [skipn app] in Hpost.
  cbn [app]. now rewrite Hpost.
Qed.

Lemma m_marker_none (must_advance : bool) (pre suf : str) :
  m (MARKER word)
    (fun pre' suf' => if must_advance && (length suf' =? length suf)%nat
                      then None else Some (pre', suf')) pre suf = None ->
  startswith suf (marker_token word) = false.
Proof.
  unfold MARKER, marker_token, one. cbn [cat fold_right].
  change (m (Seq (Chr (N.eqb BACKSLASH)) ?r) ?k pre suf)
    with (m (Chr (N.eqb BACKSLASH)) (m r k) pre suf).
  cbn [m startswith]. destruct suf as [|c suf]; [reflexivity|].
  rewrite (N.eqb_sym c BACKSLASH).
  destruct (BACKSLASH =? c) eqn:Ec; [|reflexivity].
  rewrite m_lit. cbn [andb].
  destruct (startswith suf (lit word)) eqn:Es; [|reflexivity].
  intros H. apply star_iter_fallback in H. exfalso. revert H.
  replace (length (skipn (length (lit word)) suf) =? length (c :: suf))%nat
    with false; [rewrite andb_false_r; discriminate|].
  symmetry. apply Nat.eqb_neq. rewrite length_skipn. simpl. lia.
Qed.

Lemma startswith_end (tok : str) (n : nat) (t : str) :
  tok <> [] -> (length t <= n)%nat -> startswith (skipn n t) tok = false.
Proof.
  intros Htok Hn. rewrite skipn_all2 by exact Hn. now apply startswith_nil.
Qed.

(** What a search for a marker finds: the first occurrence of the control
    word, with the whitespace after it. *)
Lemma search_marker_found : forall suf must_advance skipped_rev pre f,
  search (MARKER word) must_advance skipped_rev pre suf = Some f ->
  exists s0 ws,
    skipped f = rev skipped_rev ++ s0
    /\ matched f = marker_token word ++ ws
    /\ suf = s0 ++ (marker_token word ++ ws) ++ snd (after f)
    /\ Forall (fun c => isspace c = true) ws
    /\ forall n, (n < length s0)%nat ->
                 startswith (skipn n suf) (marker_token word) = false.
Proof.
  induction suf as [|c suf IH]; intros must sk pre f H; rewrite search_eq in H;
    match type of H with
    | match ?x with _ => _ end = _ => destruct x as [[p' s']|] eqn:E
    end; try discriminate.
  1: apply m_marker_some in E as (ws & suf' & pre' & Hsuf & Hws & Hk);
    destruct (must && _); [discriminate|];
    assert (Es : s' = suf') by congruence; subst s';
    exists [], ws;
    assert (Hf : skipped f = rev sk
                 /\ matched f = firstn (length (marker_token word ++ ws ++ suf')
                                        - length suf')
                                       (marker_token word ++ ws ++ suf')
                 /\ snd (after f) = suf')
      by (rewrite <- Hsuf; injection H as <-; repeat split);
    destruct Hf as (Hf1 & Hf2 & Hf3);
    rewrite Hf1, Hf2, Hf3, app_nil_r;
    (split; [reflexivity|]); (split; [|split; [|split]]);
    [ rewrite app_assoc, length_app, Nat.add_sub, firstn_app, firstn_all,
        Nat.sub_diag; cbn [firstn]; apply app_nil_r
    | cbn [app]; rewrite Hsuf; cbn [app]; now rewrite <- !app_assoc
    | exact Hws
    | intros n Hn; simpl in Hn; lia ].
  apply m_marker_none in E.
  apply IH in H as (s0 & ws & Hsk & Hm & Hsuf & Hws & Hfirst).
  exists (c :: s0), ws. split; [|split; [|split; [|split]]].
  - rewrite Hsk. cbn [rev]. now rewrite <- app_assoc.
  - exact Hm.
  - cbn [app]. now rewrite <- Hsuf.
  - exact Hws.
  - intros [|n] Hn; [exact E|]. cbn [skipn]. apply Hfirst. simpl in Hn. lia.
Qed.

Lemma search_marker_not_found : forall suf must_advance skipped_rev pre,
  search (MARKER word) must_advance skipped_rev pre suf = None ->
  forall n, startswith (skipn n suf) (marker_token word) = false.
Proof.
  induction suf as [|c suf IH]; intros must sk pre H n.
  - now destruct n.
  - rewrite search_eq in H.
    match type of H with
    | match ?x with _ => _ end = _ => destruct x as [[p' s']|] eqn:E
    end; [discriminate|].
    apply m_marker_none in E. destruct n as [|n]; [exact E|].
    cbn [skipn]. now apply (IH _ _ _ H).
Qed.

Lemma startswith_head (c : char) (tok : str) : forall n t,
  startswith (skipn n t) (c :: tok) = true -> nth_error t n = Some c.
Proof.
  induction n as [|n IH]; intros [|d t] H; cbn [skipn] in H;
    try discriminate H.
  - cbn [startswith] in H. apply andb_prop in H as [H _].
    apply N.eqb_eq in H. now subst d.
  - cbn [nth_error]. now apply IH.
Qed.

(** No control word starts inside a match, past its first character. *)
Lemma no_marker_inside (s0 ws rest : str) (n : nat) :
  Forall (fun c => isspace c = true) ws ->
  (length s0 < n < length s0 + length (marker_token word ++ ws))%nat ->
  startswith (skipn n (s0 ++ (marker_token word ++ ws) ++ rest))
             (marker_token word) = false.
Proof.
  intros Hws Hn.
  destruct (startswith _ _) eqn:E; [|reflexivity]. exfalso.
  apply startswith_head in E.
  rewrite nth_error_app2 in E by lia.
  rewrite nth_error_app1 in E by lia.
  unfold marker_token in E, Hn. cbn [app length] in E, Hn.
  destruct (n - length s0)%nat as [|j] eqn:Ej; [lia|]. cbn [nth_error] in E.
  apply nth_error_In, in_app_or in E as [E | E]; [now apply word_plain|].
  rewrite Forall_forall in Hws. apply Hws in E. discriminate E.
Qed.

(** The loop of [re.finditer] gives the offsets of the control word, in
    increasing order. *)
Lemma finditer_marker : forall fuel must_advance pos pre suf,
  (rounds_left must_advance suf < fuel)%nat ->
  StronglySorted Z.lt (finditer_loop fuel (MARKER word) must_advance pos pre suf)
  /\ forall z,
      In z (finditer_loop fuel (MARKER word) must_advance pos pre suf)
      <-> exists n, z = (pos + Z.of_nat n)%Z
                    /\ startswith (skipn n suf) (marker_token word) = true.
Proof.
  induction fuel as [|fuel IH]; intros must pos pre suf Hfuel; [lia|].
  cbn [finditer_loop].
  destruct (search (MARKER word) must [] pre suf) as [f|] eqn:E.
  - pose proof (search_decreases _ _ _ _ _ _ E) as Hdec.
    apply search_marker_found in E as (s0 & ws & Hsk & Hm & Hsuf & Hws & Hfirst).
    cbn [rev app] in Hsk. rewrite Hsk.
    set (rest := snd (after f)) in *.
    destruct (IH (is_empty (matched f))
                 (pos + len s0 + len (matched f))%Z (fst (after f)) rest
                 ltac:(lia)) as [IHs IHin].
    assert (Hlen : (0 < len (matched f))%Z)
      by (rewrite Hm; unfold len, marker_token; simpl; lia).
    split.
    + constructor; [exact IHs|]. apply Forall_forall. intros z Hz.
      apply IHin in Hz as (n & -> & _). lia.
    + intros z. cbn [In]. rewrite IHin. split.
      * intros [<- | (n & -> & Hn)].
        -- exists (length s0). split; [reflexivity|].
           rewrite Hsuf, skipn_app, skipn_all, Nat.sub_diag. cbn [skipn app].
           rewrite <- app_assoc. apply startswith_app.
        -- exists (length s0 + length (matched f) + n)%nat.
           split; [unfold len; lia|].
           rewrite Hsuf, <- Hm, app_assoc, skipn_app, skipn_all2
             by (rewrite length_app; lia).
           rewrite length_app. cbn [app].
           now replace (length s0 + length (matched f) + n
                        - (length s0 + length (matched f)))%nat with n by lia.
      * intros (n & -> & Hn).
        destruct (Nat.lt_ge_cases n (length s0)) as [Hlt | Hge];
          [rewrite Hfirst in Hn by exact Hlt; discriminate|].
        destruct (Nat.eq_dec n (length s0)) as [-> | Hne]; [now left|].
        destruct (Nat.lt_ge_cases n (length s0 + length (matched f)))
          as [Hin | Hout].
        -- rewrite Hsuf, no_marker_inside in Hn;
             [discriminate | exact Hws | rewrite <- Hm; lia].
        -- right. exists (n - (length s0 + length (matched f)))%nat.
           split; [unfold len; lia|].
           rewrite Hsuf, <- Hm, app_assoc, skipn_app, skipn_all2 in Hn
             by (rewrite length_app; lia).
           rewrite length_app in Hn. exact Hn.
  - split; [constructor|]. intros z. split; [intros []|].
    intros (n & _ & Hn).
    rewrite (search_marker_not_found _ _ _ _ E) in Hn. discriminate.
Qed.

Lemma finditer_starts_marker (text : str) :
  offsets_of (marker_token word) text (finditer_starts (MARKER word) text).
Proof.
  unfold offsets_of, finditer_starts.
  destruct (finditer_marker (2 * length text + 2) false 0%Z [] text) as [Hs Hin];
    [unfold rounds_left; lia|].
  split; [exact Hs|]. intros z. rewrite Hin. split.
  - intros (n & -> & Hn). exists n. split; [lia|].
    apply occurs_at_startswith. split; [|exact Hn].
    destruct (Nat.le_gt_cases n (length text)) as [Hle | Hgt]; [exact Hle|].
    rewrite startswith_end in Hn; [discriminate | discriminate | lia].
  - intros (n & -> & Hn). exists n. split; [lia|].
    now apply occurs_at_startswith in Hn.
Qed.

End Markers.

(** X21: [_analyze_rtf_structure] lists as paragraphs, page breaks and
    sections the offsets of all the occurrences of the control words "\par",
    "\page" and "\sect" in the text, in increasing order: the start of a
    longer control word (such as "\pard") counts too. *)
Theorem analyze_rtf_structure_offsets (rtf_data : str) :
  offsets_of (marker_token "par") rtf_data
             (SEFAnalyzer.paragraphs (SEFAnalyzer._analyze_rtf_structure rtf_data))
  /\ offsets_of (marker_token "page") rtf_data
                (SEFAnalyzer.page_breaks (SEFAnalyzer._analyze_rtf_structure rtf_data))
  /\ offsets_of (marker_token "sect") rtf_data
                (SEFAnalyzer.sections (SEFAnalyzer._analyze_rtf_structure rtf_data)).
Proof.
  cbn [SEFAnalyzer._analyze_rtf_structure SEFAnalyzer.paragraphs
       SEFAnalyzer.page_breaks SEFAnalyzer.sections].
  repeat split; apply finditer_starts_marker; cbn [In lit map list_ascii_of_string];
    vm_compute; intuition discriminate.
Qed.
